(** * Spread bot (bot/src/index.ts): execution control loop

    A shallow embedding of the DRIFT/KMNO spread bot: the signal
    computation, the liquidity depth walk, the retrying order placement,
    the position ledger with open / close / reconciliation, and the
    single-flight trading cycle.

    Numbers.  A JavaScript [number] is modelled by [number] below: exact
    rational arithmetic extended with the two infinities and NaN, with the
    IEEE rules for the special values (x/0, Infinity - Infinity, comparisons
    with NaN).  Rounding of binary64 and the sign of zero are not modelled.

    Effects.  An [async] function that touches no global is a [Task]: its
    settled result together with the steps it performed.  A function that
    reads or writes the globals is a [Proc]: a state transformer over
    [Globals] that also yields its events.  The outside world (the candle
    API, the DLOB order book API, the venue) is an [Env], asked once per
    call; theorems quantify over every [Env]. *)

From Stdlib Require Import ZArith QArith Qabs Qminmax Lqa Lia List String Bool.
Import ListNotations.

(* ------------------------------------------------------------------ *)
(** ** JavaScript numbers *)

Inductive number : Type :=
| Fin (q : Q)
| PosInf
| NegInf
| NaN.

Declare Scope num_scope.
Delimit Scope num_scope with num.
Bind Scope num_scope with number.

Module Num.

(** [x == 0] on rationals, as a boolean. *)
Definition is_zero (q : Q) : bool := Qeq_bool q 0.

Definition opp (a : number) : number :=
  match a with
  | Fin x => Fin (- x)
  | PosInf => NegInf
  | NegInf => PosInf
  | NaN => NaN
  end.

Definition add (a b : number) : number :=
  match a, b with
  | NaN, _ | _, NaN => NaN
  | Fin x, Fin y => Fin (x + y)
  | PosInf, NegInf | NegInf, PosInf => NaN
  | PosInf, _ | _, PosInf => PosInf
  | NegInf, _ | _, NegInf => NegInf
  end.

Definition sub (a b : number) : number := add a (opp b).

(** The infinity carrying the sign of [q]; NaN when [q] is zero. *)
Definition signed_inf (q : Q) : number :=
  match q ?= 0 with
  | Gt => PosInf
  | Lt => NegInf
  | Eq => NaN
  end.

Definition mul (a b : number) : number :=
  match a, b with
  | NaN, _ | _, NaN => NaN
  | Fin x, Fin y => Fin (x * y)
  | Fin x, PosInf | PosInf, Fin x => signed_inf x
  | Fin x, NegInf | NegInf, Fin x => signed_inf (- x)
  | PosInf, PosInf | NegInf, NegInf => PosInf
  | PosInf, NegInf | NegInf, PosInf => NegInf
  end.

Definition div (a b : number) : number :=
  match a, b with
  | NaN, _ | _, NaN => NaN
  | Fin x, Fin y => if is_zero y then signed_inf x else Fin (x / y)
  | Fin _, (PosInf | NegInf) => Fin 0
  | PosInf, Fin y => match y ?= 0 with Lt => NegInf | _ => PosInf end
  | NegInf, Fin y => match y ?= 0 with Lt => PosInf | _ => NegInf end
  | (PosInf | NegInf), (PosInf | NegInf) => NaN
  end.

(** [Math.abs] *)
Definition abs (a : number) : number :=
  match a with
  | Fin x => Fin (Qabs x)
  | PosInf | NegInf => PosInf
  | NaN => NaN
  end.

(** The relational comparison of two numbers; [None] when either is NaN. *)
Definition compare (a b : number) : option comparison :=
  match a, b with
  | NaN, _ | _, NaN => None
  | Fin x, Fin y => Some (x ?= y)
  | PosInf, PosInf | NegInf, NegInf => Some Eq
  | PosInf, _ | _, NegInf => Some Gt
  | NegInf, _ | _, PosInf => Some Lt
  end.

Definition ltb (a b : number) : bool :=
  match compare a b with Some Lt => true | _ => false end.
Definition gtb (a b : number) : bool := ltb b a.
Definition geb (a b : number) : bool :=
  match compare a b with Some (Gt | Eq) => true | _ => false end.
Definition leb (a b : number) : bool := geb b a.
(** [===] and [!==] on numbers *)
Definition eqb (a b : number) : bool :=
  match compare a b with Some Eq => true | _ => false end.
Definition neqb (a b : number) : bool := negb (eqb a b).

(** [Math.min] of two arguments *)
Definition min (a b : number) : number :=
  match a, b with
  | NaN, _ | _, NaN => NaN
  | _, _ => if ltb b a then b else a
  end.

(** Numeric equality of two models of the same JavaScript value: the
    rational payloads are compared with [==]. *)
Definition same (a b : number) : Prop :=
  match a, b with
  | Fin x, Fin y => x == y
  | PosInf, PosInf | NegInf, NegInf | NaN, NaN => True
  | _, _ => False
  end.

Definition of_Z (z : Z) : number := Fin (inject_Z z).

End Num.

Notation "a + b" := (Num.add a b) : num_scope.
Notation "a - b" := (Num.sub a b) : num_scope.
Notation "a * b" := (Num.mul a b) : num_scope.
Notation "a / b" := (Num.div a b) : num_scope.
Notation "- a" := (Num.opp a) : num_scope.
Notation "a <? b" := (Num.ltb a b) : num_scope.
Notation "a >? b" := (Num.gtb a b) (at level 70, no associativity) : num_scope.
Notation "a >=? b" := (Num.geb a b) (at level 70, no associativity) : num_scope.
Notation "a <=? b" := (Num.leb a b) : num_scope.
Notation "a =? b" := (Num.eqb a b) : num_scope.
Notation "a =n= b" := (Num.same a b) (at level 70, no associativity).

(* ------------------------------------------------------------------ *)
(** ** Trading parameters (index.ts, lines 19-34) *)

Definition DRIFT_QUANTITY : number := Fin 10.
Definition KMNO_QUANTITY : number := Fin 100.
Definition PRICE_RATIO : number := Fin 10.
Definition SIGNAL_LAG_PERIODS : nat := 2.
Definition SIMULATION_MODE : bool := false.
Definition MAX_SLIPPAGE_BPS : number := Fin 25.
Definition MAX_RETRIES : nat := 3.
Definition RETRY_DELAY_MS : Z := 1000.

(** Precisions exported by the Drift SDK (10^9 base units, 10^6 quote units). *)
Definition BASE_PRECISION : number := Fin 1000000000.
Definition QUOTE_PRECISION : number := Fin 1000000.

(* ------------------------------------------------------------------ *)
(** ** Core types (lines 36-39) *)

(** [type Signal = -1 | 0 | 1] *)
Inductive Signal : Type := Short | Flat | Long.

Definition signal_num (s : Signal) : number :=
  match s with
  | Short => Fin (-1)
  | Flat => Fin 0
  | Long => Fin 1
  end.

Definition Signal_eqb (a b : Signal) : bool :=
  match a, b with
  | Short, Short | Flat, Flat | Long, Long => true
  | _, _ => false
  end.

Record Position : Type := mkPosition {
  drift : number;
  kmno : number;
  signal : Signal
}.

Record CandleData : Type := mkCandle { oracleClose : number }.

(* ------------------------------------------------------------------ *)
(** ** Signal computation *)

(** Lines 514-515 of executeTradingCycle:
    [spread = driftPrice - PRICE_RATIO * kmnoPrice],
    [signal = spread < 0 ? 1 : spread > 0 ? -1 : 0]. *)
Definition spread_of (driftPrice kmnoPrice : number) : number :=
  (driftPrice - PRICE_RATIO * kmnoPrice)%num.

Definition signal_of_spread (spread : number) : Signal :=
  if (spread <? Fin 0)%num then Long
  else if (spread >? Fin 0)%num then Short
  else Flat.

(** The price logger's interval callback (second bot variant):
    [spread = drift - 10 * kmno],
    [signal = spread < 0 ? 1 : spread === 0 ? 0 : -1]. *)
Definition logger_spread (drift kmno : number) : number :=
  (drift - Fin 10 * kmno)%num.

Definition logger_signal (spread : number) : Signal :=
  if (spread <? Fin 0)%num then Long
  else if (spread =? Fin 0)%num then Flat
  else Short.

(* ------------------------------------------------------------------ *)
(** ** Exceptions, orders, the venue and its data *)

(** Values thrown by the program, and rejections coming from outside it. *)
Inductive Exn : Type :=
| ApiError (status : Z)                       (* `API error: ${status}` *)
| DlobApiError (status : Z)                   (* `DLOB API error: ${status}` *)
| MarketConfigNotFound (market : string)
| SlippageTooHigh (market : string) (estimated limit : number)
| RetryLogicFailed                            (* "Retry logic failed unexpectedly" *)
| Thrown (reason : string).                   (* transport, venue or SDK error *)

(** A settled promise. *)
Inductive Result (A : Type) : Type :=
| Ok (a : A)
| Err (e : Exn).
Arguments Ok {A} a.
Arguments Err {A} e.

(** The outcome of [fetch] followed by [response.json()]. *)
Inductive Reply (A : Type) : Type :=
| Unreachable (e : Exn)        (* fetch itself rejects *)
| NotOk (status : Z)           (* response.ok is false *)
| Body (a : A).
Arguments Unreachable {A} e.
Arguments NotOk {A} status.
Arguments Body {A} a.

Inductive PositionDirection : Type := LONG | SHORT.
Inductive Side : Type := Bids | Asks.
Inductive Action : Type := CLOSE | OPEN.

(** The arguments of [placeOrder]; the venue receives the market index of
    [market], a MARKET order type and [quantity] scaled by BASE_PRECISION. *)
Record Order : Type := mkOrder {
  market : string;
  direction : PositionDirection;
  quantity : number;
  reduceOnly : bool
}.

Record MarketConfig : Type := mkMarket {
  marketIndex : Z;
  baseAssetSymbol : string
}.

Record PerpPosition : Type := mkPerp {
  perpMarketIndex : Z;
  baseAssetAmount : Z            (* a BN, in base units *)
}.

(** One level of the DLOB L2 book, after [parseFloat] of its decimal strings. *)
Record L2Level : Type := mkLevel {
  price : Q;
  size : Q
}.

Record L2Data : Type := mkL2 {
  bids : list L2Level;
  asks : list L2Level;
  oracle : Q
}.

Definition book_side (data : L2Data) (side : Side) : list L2Level :=
  match side with
  | Bids => bids data
  | Asks => asks data
  end.

(** The world outside the program during one run.  The natural number given
    to [candles] and [venue] is the ordinal of the call among the calls with
    the same arguments (the attempt of the retry loop that makes it). *)
Record Env : Type := mkEnv {
  marketMap : list (string * MarketConfig);
  perpPositions : Result (list PerpPosition);
  candles : string -> nat -> Reply (list CandleData);
  l2 : string -> Reply L2Data;
  venue : Order -> nat -> Result string;
  first_settled : nat       (* which rejection a join observes first *)
}.

(* ------------------------------------------------------------------ *)
(** ** Steps and events *)

Inductive Level : Type := LDebug | LInfo | LWarn | LError.

(** One constructor per [logger] call site, with the interpolated values. *)
Inductive Msg : Type :=
| RetryAttemptFailed (attempt maxRetries : nat) (delay : Z) (e : Exn)
| ReconcileRestored (drift kmno : number) (signal : Signal)
| ReconcileNoPositions
| ReconcileFailed (e : Exn)
| ApiFetchCompleted (symbol : string)
| LiquidityDepth (marketSymbol : string) (side : Side) (levels : nat)
    (bestPrice need : number)
| LiquidityLevel (marketSymbol : string)
    (levelPrice levelSize fillSize cumulative : number)
| LiquidityInsufficient (marketSymbol : string) (side : Side)
    (need available : number)
| LiquidityReport (marketSymbol : string) (side : Side)
    (orderSize avgPrice bestPrice oraclePrice slippage bestSlippage : number)
| LiquidityCheckFailed (marketSymbol : string) (side : Side) (e : Exn)
| OrderIntent (action : Action) (o : Order)
| OrderSignature (tx : string)
| OrderExplorerLink (tx : string)
| OrderCompleted (action : Action) (o : Order)
| OrderFailed (action : Action) (o : Order) (e : Exn)
| OpenNothing
| OpenStarting (signal : Signal)
| OpenInsufficientLiquidity (market : string) (need : number) (side : Side)
| OpenLiquidityValidated (driftSlippage kmnoSlippage : number)
| OpenSucceeded (signal : Signal)
| OpenFailed (signal : Signal) (e : Exn)
| CloseNothing
| CloseStarting (p : Position)
| CloseSucceeded
| CloseFailed (e : Exn)
| CycleSkipped (cycle : Z)
| CycleStarting (cycle : Z)
| CycleInsufficientData (driftCandles kmnoCandles : nat)
| MarketSnapshot (driftPrice kmnoPrice spread : number) (signal : Signal)
| StrategyTransition (from to : Signal)
| StrategyHolding (current : Signal)
| CycleCompleted (cycle : Z)
| CycleFailed (cycle : Z) (e : Exn).

Inductive Request : Type :=
| CandlesRequest (symbol : string) (limit : nat)
| L2Request (marketName : string).

Inductive Diagnostics : Type :=
| ActualPositions | AccountState | FundingCosts.

(** What a task does, in program order. *)
Inductive Step : Type :=
| Log (lvl : Level) (m : Msg)
| Sleep (ms : Z)
| HttpGet (r : Request)
| Submit (o : Order) (outcome : Result string).   (* placePerpOrder, settled *)

(** What a procedure does: a step of its own, a join of concurrent tasks
    ([await Promise.all]: the steps of different legs interleave freely; a
    leg still pending when the join rejects runs on in the background), or
    one of the read-only reports at the end of a cycle. *)
Inductive Event : Type :=
| Do (s : Step)
| All (legs : list (list Step))
| Report (d : Diagnostics).

(* ------------------------------------------------------------------ *)
(** ** Tasks: promises that touch no global *)

Definition Task (A : Type) : Type := (Result A * list Step)%type.

Module TaskM.

Definition ret {A} (a : A) : Task A := (Ok a, []).
Definition throw {A} (e : Exn) : Task A := (Err e, []).
Definition emit (s : Step) : Task unit := (Ok tt, [s]).

Definition bind {A B} (m : Task A) (k : A -> Task B) : Task B :=
  match m with
  | (Ok a, t) => let '(r, t') := k a in (r, t ++ t')
  | (Err e, t) => (Err e, t)
  end.

(** [try { m } catch (e) { h e }] *)
Definition catch {A} (m : Task A) (h : Exn -> Task A) : Task A :=
  match m with
  | (Ok a, t) => (Ok a, t)
  | (Err e, t) => let '(r, t') := h e in (r, t ++ t')
  end.

End TaskM.

Declare Scope task_scope.
Delimit Scope task_scope with task.
Notation "x <- c ;; k" := (TaskM.bind c (fun x => k))
  (at level 61, c at next level, right associativity) : task_scope.
Notation "c ;; k" := (TaskM.bind c (fun _ => k))
  (at level 61, right associativity) : task_scope.

Definition log (lvl : Level) (m : Msg) : Task unit := TaskM.emit (Log lvl m).

(** [sleep(ms)] *)
Definition sleep (ms : Z) : Task unit := TaskM.emit (Sleep ms).

(* ------------------------------------------------------------------ *)
(** ** retryWithBackoff (lines 58-72) *)

(** The loop [for (attempt = 1; attempt <= maxRetries; attempt++)], with
    [remaining] the number of iterations still to run.  [fn attempt] is the
    behaviour of the [attempt]-th call of the wrapped function. *)
Fixpoint retry_from {T} (fn : nat -> Task T) (maxRetries attempt remaining : nat)
  : Task T :=
  match remaining with
  | O => TaskM.throw RetryLogicFailed
  | S remaining' =>
      TaskM.catch (fn attempt) (fun error =>
        if Nat.eqb attempt maxRetries then TaskM.throw error
        else
          let delay := (RETRY_DELAY_MS * 2 ^ (Z.of_nat attempt - 1))%Z in
          (log LWarn (RetryAttemptFailed attempt maxRetries delay error) ;;
           sleep delay ;;
           retry_from fn maxRetries (S attempt) remaining')%task)
  end.

Definition retryWithBackoff {T} (fn : nat -> Task T) (maxRetries : nat) : Task T :=
  retry_from fn maxRetries 1 maxRetries.

(* ------------------------------------------------------------------ *)
(** ** fetchCandleData (lines 227-238) *)

Definition fetchCandleData (env : Env) (symbol : string) : Task (list CandleData) :=
  retryWithBackoff (fun attempt =>
    (TaskM.emit (HttpGet (CandlesRequest symbol (SIGNAL_LAG_PERIODS + 1))) ;;
     match candles env symbol attempt with
     | Unreachable e => TaskM.throw e
     | NotOk status => TaskM.throw (ApiError status)
     | Body records =>
         log LDebug (ApiFetchCompleted symbol) ;;
         TaskM.ret records
     end)%task) MAX_RETRIES.

(* ------------------------------------------------------------------ *)
(** ** checkLiquidity (lines 241-302) *)

Record Liquidity : Type := mkLiquidity {
  canFill : bool;
  estimatedSlippage : number
}.

(** The state of the depth walk: [totalSize] and [totalValue]. *)
Record Fill : Type := mkFill {
  totalSize : number;
  totalValue : number
}.

Definition levelPrice_of (order : L2Level) : number :=
  (Fin (price order) / QUOTE_PRECISION)%num.
Definition levelSize_of (order : L2Level) : number :=
  (Fin (size order) / BASE_PRECISION)%num.

(** One iteration of the loop body (lines 262-267). *)
Definition fill_level (orderSize : number) (acc : Fill) (order : L2Level) : Fill :=
  let fillSize := Num.min (levelSize_of order) (orderSize - totalSize acc)%num in
  {| totalSize := (totalSize acc + fillSize)%num;
     totalValue := (totalValue acc + fillSize * levelPrice_of order)%num |}.

(** The loop [for (const order of orders)] with its [break] (lines 261-274);
    returns the final accumulators and one log step per visited level. *)
Fixpoint walk_depth (marketSymbol : string) (orderSize : number)
  (orders : list L2Level) (acc : Fill) : Fill * list Step :=
  match orders with
  | [] => (acc, [])
  | order :: rest =>
      let fillSize := Num.min (levelSize_of order) (orderSize - totalSize acc)%num in
      let acc' := fill_level orderSize acc order in
      let line := Log LInfo (LiquidityLevel marketSymbol (levelPrice_of order)
                               (levelSize_of order) fillSize (totalSize acc')) in
      if (totalSize acc' >=? orderSize)%num then (acc', [line])
      else let '(final, lines) := walk_depth marketSymbol orderSize rest acc' in
           (final, line :: lines)
  end.

Definition bestPrice_of (orders : list L2Level) : number :=
  match orders with
  | top :: _ => levelPrice_of top
  | [] => Fin 0
  end.

Definition avgPrice_of (final : Fill) : number :=
  (totalValue final / totalSize final)%num.

(** [Math.abs((avgPrice - reference) / reference)] (lines 287-288). *)
Definition slippage_from (avgPrice reference : number) : number :=
  Num.abs ((avgPrice - reference) / reference)%num.

Definition no_liquidity : Liquidity :=
  {| canFill := false; estimatedSlippage := PosInf |}.

(** The body of the [try] once the book has been read (lines 249-294). *)
Definition assess_book (marketSymbol : string) (side : Side) (orderSize : number)
  (data : L2Data) : Liquidity * list Step :=
  let orders := book_side data side in
  let bestPrice := bestPrice_of orders in
  let '(final, lines) := walk_depth marketSymbol orderSize orders
                           {| totalSize := Fin 0; totalValue := Fin 0 |} in
  let depth := Log LInfo (LiquidityDepth marketSymbol side (List.length orders)
                            bestPrice orderSize) in
  if (totalSize final <? orderSize)%num then
    (no_liquidity,
     depth :: lines ++
       [Log LWarn (LiquidityInsufficient marketSymbol side orderSize
                     (totalSize final))])
  else
    let avgPrice := avgPrice_of final in
    let oraclePrice := (Fin (oracle data) / QUOTE_PRECISION)%num in
    let slippage := slippage_from avgPrice oraclePrice in
    let bestSlippage := slippage_from avgPrice bestPrice in
    ({| canFill := true; estimatedSlippage := bestSlippage |},
     depth :: lines ++
       [Log LInfo (LiquidityReport marketSymbol side orderSize avgPrice
                     bestPrice oraclePrice slippage bestSlippage)]).

(** The promise returned by [checkLiquidity] always resolves: every error
    is caught and reported as "cannot fill, infinite slippage". *)
Definition checkLiquidity (env : Env) (marketSymbol : string) (side : Side)
  (orderSize : number) : Task Liquidity :=
  let request := HttpGet (L2Request marketSymbol) in
  match l2 env marketSymbol with
  | Unreachable e =>
      (Ok no_liquidity,
       [request; Log LError (LiquidityCheckFailed marketSymbol side e)])
  | NotOk status =>
      (Ok no_liquidity,
       [request;
        Log LError (LiquidityCheckFailed marketSymbol side (DlobApiError status))])
  | Body data =>
      let '(result, steps) := assess_book marketSymbol side orderSize data in
      (Ok result, request :: steps)
  end.

(* ------------------------------------------------------------------ *)
(** ** placeOrder (lines 305-356) *)

Fixpoint market_get (m : list (string * MarketConfig)) (key : string)
  : option MarketConfig :=
  match m with
  | [] => None
  | (k, v) :: rest => if String.eqb k key then Some v else market_get rest key
  end.

Definition action_of (o : Order) : Action :=
  if reduceOnly o then CLOSE else OPEN.

(** One call of the function handed to [retryWithBackoff] (lines 313-355). *)
Definition place_attempt (env : Env) (o : Order) (attempt : nat) : Task string :=
  TaskM.catch
    (match market_get (marketMap env) (market o) with
     | None => TaskM.throw (MarketConfigNotFound (market o))
     | Some _ =>
         let outcome := venue env o attempt in
         (TaskM.emit (Submit o outcome) ;;
          match outcome with
          | Err e => TaskM.throw e
          | Ok tx =>
              log LInfo (OrderSignature tx) ;;
              log LInfo (OrderExplorerLink tx) ;;
              log LInfo (OrderCompleted (action_of o) o) ;;
              TaskM.ret tx
          end)%task
     end)
    (fun error =>
       (log LError (OrderFailed (action_of o) o error) ;;
        TaskM.throw error)%task).

(** Resolves to the transaction signature, or to [undefined] in simulation. *)
Definition placeOrder (env : Env) (o : Order) : Task (option string) :=
  (log LInfo (OrderIntent (action_of o) o) ;;
   if SIMULATION_MODE then TaskM.ret None
   else
     tx <- retryWithBackoff (place_attempt env o) MAX_RETRIES ;;
     TaskM.ret (Some tx))%task.

(* ------------------------------------------------------------------ *)
(** ** Global state and procedures *)

(** The module-level variables that the trading functions read and write
    (lines 41-49). *)
Record Globals : Type := mkGlobals {
  currentPosition : option Position;
  isCycleRunning : bool;
  cycleCount : Z
}.

Definition with_position (g : Globals) (ledger : option Position) : Globals :=
  {| currentPosition := ledger;
     isCycleRunning := isCycleRunning g;
     cycleCount := cycleCount g |}.

Definition Proc (A : Type) : Type :=
  Globals -> (Result A * Globals * list Event)%type.

Module ProcM.

Definition ret {A} (a : A) : Proc A := fun g => (Ok a, g, []).
Definition throw {A} (e : Exn) : Proc A := fun g => (Err e, g, []).

Definition bind {A B} (m : Proc A) (k : A -> Proc B) : Proc B := fun g =>
  match m g with
  | (Ok a, g1, t) => let '(r, g2, t') := k a g1 in (r, g2, t ++ t')
  | (Err e, g1, t) => (Err e, g1, t)
  end.

(** [try { m } catch (e) { h e }]: the globals keep what [m] wrote. *)
Definition catch {A} (m : Proc A) (h : Exn -> Proc A) : Proc A := fun g =>
  match m g with
  | (Ok a, g1, t) => (Ok a, g1, t)
  | (Err e, g1, t) => let '(r, g2, t') := h e g1 in (r, g2, t ++ t')
  end.

Definition get : Proc Globals := fun g => (Ok g, g, []).

(** [currentPosition = p] *)
Definition set_position (p : option Position) : Proc unit := fun g =>
  (Ok tt, with_position g p, []).

Definition emit (e : Event) : Proc unit := fun g => (Ok tt, g, [e]).

End ProcM.

Declare Scope proc_scope.
Delimit Scope proc_scope with proc.
Notation "x <- c ;; k" := (ProcM.bind c (fun x => k))
  (at level 61, c at next level, right associativity) : proc_scope.
Notation "c ;; k" := (ProcM.bind c (fun _ => k))
  (at level 61, right associativity) : proc_scope.

Definition plog (lvl : Level) (m : Msg) : Proc unit := ProcM.emit (Do (Log lvl m)).

(* ------------------------------------------------------------------ *)
(** ** Promise.all *)

Fixpoint fulfilled {A} (settled : list (Result A)) : list A :=
  match settled with
  | [] => []
  | Ok a :: rest => a :: fulfilled rest
  | Err _ :: rest => fulfilled rest
  end.

Fixpoint rejected {A} (settled : list (Result A)) : list Exn :=
  match settled with
  | [] => []
  | Ok _ :: rest => rejected rest
  | Err e :: rest => e :: rejected rest
  end.

(** Fulfils with all values when every leg fulfils; otherwise rejects with
    the reason of the leg that rejects first, which [first] selects. *)
Definition Promise_all {A} (first : nat) (legs : list (Task A)) : Result (list A) :=
  let settled := map fst legs in
  match rejected settled with
  | [] => Ok (fulfilled settled)
  | e :: more => Err (nth (first mod S (List.length more)) (e :: more) e)
  end.

(** [await Promise.all(legs)] *)
Definition await_all {A} (first : nat) (legs : list (Task A)) : Proc (list A) :=
  fun g => (Promise_all first legs, g, [All (map snd legs)]).

(** [const [x, y] = await Promise.all([a, b])] *)
Definition await_both {A} (first : nat) (a b : Task A) : Proc (A * A) :=
  (vs <- await_all first [a; b] ;;
   match vs with
   | [x; y] => ProcM.ret (x, y)
   | _ => ProcM.throw (Thrown "TypeError")
   end)%proc.

(* ------------------------------------------------------------------ *)
(** ** reconcilePositionState (lines 75-114) *)

(** bn.js [toNumber]: asserts that the value fits in 53 bits. *)
Definition BN_toNumber (z : Z) : Result number :=
  if (Z.abs z <? 2 ^ 53)%Z then Ok (Num.of_Z z)
  else Err (Thrown "Number can only safely store up to 53 bits").

(** [Array.from(marketMap.values()).find(m => m.marketIndex === index)] *)
Definition market_by_index (m : list (string * MarketConfig)) (index : Z)
  : option MarketConfig :=
  find (fun mk => (marketIndex mk =? index)%Z) (map snd m).

(** The loop over the venue's perp positions (lines 83-97). *)
Fixpoint scan_positions (m : list (string * MarketConfig))
  (positions : list PerpPosition) (driftSize kmnoSize : number)
  : Result (number * number) :=
  match positions with
  | [] => Ok (driftSize, kmnoSize)
  | pos :: rest =>
      if (baseAssetAmount pos =? 0)%Z then scan_positions m rest driftSize kmnoSize
      else
        match market_by_index m (perpMarketIndex pos) with
        | None => scan_positions m rest driftSize kmnoSize
        | Some mk =>
            match BN_toNumber (baseAssetAmount pos) with
            | Err e => Err e
            | Ok amount =>
                let size := (amount / BASE_PRECISION)%num in
                let driftSize' :=
                  if String.eqb (baseAssetSymbol mk) "DRIFT" then size else driftSize in
                let kmnoSize' :=
                  if String.eqb (baseAssetSymbol mk) "KMNO" then size else kmnoSize in
                scan_positions m rest driftSize' kmnoSize'
            end
        end
  end.

(** The signal derived from the two legs (lines 101-103). *)
Definition reconciled_signal (driftSize kmnoSize : number) : Signal :=
  if (driftSize >? Fin 0)%num && (kmnoSize <? Fin 0)%num then Long
  else if (driftSize <? Fin 0)%num && (kmnoSize >? Fin 0)%num then Short
  else Flat.

(** The ledger written from the two legs (lines 99-110). *)
Definition reconciled_ledger (driftSize kmnoSize : number) : option Position :=
  if Num.neqb driftSize (Fin 0) || Num.neqb kmnoSize (Fin 0) then
    Some {| drift := driftSize; kmno := kmnoSize;
            signal := reconciled_signal driftSize kmnoSize |}
  else None.

Definition reconcilePositionState (env : Env) : Proc unit :=
  if SIMULATION_MODE then ProcM.ret tt
  else
    match perpPositions env with
    | Err e => plog LError (ReconcileFailed e)
    | Ok positions =>
        match scan_positions (marketMap env) positions (Fin 0) (Fin 0) with
        | Err e => plog LError (ReconcileFailed e)
        | Ok (driftSize, kmnoSize) =>
            (ProcM.set_position (reconciled_ledger driftSize kmnoSize) ;;
             match reconciled_ledger driftSize kmnoSize with
             | Some p => plog LInfo (ReconcileRestored (drift p) (kmno p) (signal p))
             | None => plog LInfo ReconcileNoPositions
             end)%proc
        end
    end.

(* ------------------------------------------------------------------ *)
(** ** openPosition (lines 359-425) *)

Definition book_side_for (d : PositionDirection) : Side :=
  match d with
  | LONG => Asks
  | SHORT => Bids
  end.

Definition opened_position (signal : Signal) : Position :=
  {| drift := (signal_num signal * DRIFT_QUANTITY)%num;
     kmno := (- signal_num signal * KMNO_QUANTITY)%num;
     signal := signal |}.

(** The two orders that open the spread (lines 362-363 and 410-411). *)
Definition opening_orders (signal : Signal) : list Order :=
  let driftDirection := if (signal_num signal >? Fin 0)%num then LONG else SHORT in
  let kmnoDirection := if (signal_num signal >? Fin 0)%num then SHORT else LONG in
  [mkOrder "DRIFT" driftDirection DRIFT_QUANTITY false;
   mkOrder "KMNO" kmnoDirection KMNO_QUANTITY false].

(** The liquidity and slippage validation that precedes the orders
    (lines 375-406). *)
Definition validate_liquidity (env : Env) (driftSide kmnoSide : Side) : Proc unit :=
  (liquidity <- await_both (first_settled env)
                  (checkLiquidity env "DRIFT-PERP" driftSide DRIFT_QUANTITY)
                  (checkLiquidity env "KMNO-PERP" kmnoSide KMNO_QUANTITY) ;;
   let '(driftLiquidity, kmnoLiquidity) := liquidity in
   (if canFill driftLiquidity then ProcM.ret tt
    else plog LWarn (OpenInsufficientLiquidity "DRIFT" DRIFT_QUANTITY driftSide)) ;;
   (if canFill kmnoLiquidity then ProcM.ret tt
    else plog LWarn (OpenInsufficientLiquidity "KMNO" KMNO_QUANTITY kmnoSide)) ;;
   let maxSlippageDecimal := (MAX_SLIPPAGE_BPS / Fin 10000)%num in
   if (estimatedSlippage driftLiquidity >? maxSlippageDecimal)%num then
     ProcM.throw (SlippageTooHigh "DRIFT" (estimatedSlippage driftLiquidity)
                    maxSlippageDecimal)
   else if (estimatedSlippage kmnoLiquidity >? maxSlippageDecimal)%num then
     ProcM.throw (SlippageTooHigh "KMNO" (estimatedSlippage kmnoLiquidity)
                    maxSlippageDecimal)
   else
     plog LInfo (OpenLiquidityValidated (estimatedSlippage driftLiquidity)
                   (estimatedSlippage kmnoLiquidity)))%proc.

Definition openPosition (env : Env) (signal : Signal) : Proc unit :=
  if Signal_eqb signal Flat then plog LDebug OpenNothing
  else
    let driftDirection := if (signal_num signal >? Fin 0)%num then LONG else SHORT in
    let kmnoDirection := if (signal_num signal >? Fin 0)%num then SHORT else LONG in
    let driftSide := book_side_for driftDirection in
    let kmnoSide := book_side_for kmnoDirection in
    (plog LInfo (OpenStarting signal) ;;
     ProcM.catch
       (validate_liquidity env driftSide kmnoSide ;;
        await_all (first_settled env) (map (placeOrder env) (opening_orders signal)) ;;
        ProcM.set_position (Some (opened_position signal)) ;;
        plog LInfo (OpenSucceeded signal))
       (fun error =>
          plog LError (OpenFailed signal error) ;;
          ProcM.throw error))%proc.

(* ------------------------------------------------------------------ *)
(** ** closePosition (lines 428-482) *)

(** The reduce-only order that unwinds one leg. *)
Definition closing_order (sym : string) (leg : number) : Order :=
  mkOrder sym (if (leg >? Fin 0)%num then SHORT else LONG) (Num.abs leg) true.

(** The [promises] array: one order per nonzero leg (lines 436-473). *)
Definition closing_orders (p : Position) : list Order :=
  (if Num.neqb (drift p) (Fin 0) then [closing_order "DRIFT" (drift p)] else [])
  ++ (if Num.neqb (kmno p) (Fin 0) then [closing_order "KMNO" (kmno p)] else []).

Definition closePosition (env : Env) : Proc unit := fun g =>
  match currentPosition g with
  | None => plog LDebug CloseNothing g
  | Some p =>
      (plog LInfo (CloseStarting p) ;;
       ProcM.catch
         (await_all (first_settled env) (map (placeOrder env) (closing_orders p)) ;;
          ProcM.set_position None ;;
          plog LInfo CloseSucceeded)
         (fun error =>
            plog LError (CloseFailed error) ;;
            ProcM.throw error))%proc g
  end.

(* ------------------------------------------------------------------ *)
(** ** executeTradingCycle (lines 485-549) *)

(** The guard and the bookkeeping before the [try] (lines 486-495); this
    part runs without suspension.  [None]: the invocation is skipped. *)
Definition cycle_enter (g : Globals) : option Globals * list Event :=
  if isCycleRunning g then
    (None, [Do (Log LWarn (CycleSkipped (cycleCount g + 1)))])
  else
    let g' := {| currentPosition := currentPosition g;
                 isCycleRunning := true;
                 cycleCount := (cycleCount g + 1)%Z |} in
    (Some g', [Do (Log LInfo (CycleStarting (cycleCount g')))]).

(** [currentPosition?.signal || 0] *)
Definition current_signal (g : Globals) : Signal :=
  match currentPosition g with
  | Some p => signal p
  | None => Flat
  end.

(** The trading logic (lines 526-535); [computed] is the cycle's [signal]. *)
Definition trade (env : Env) (computed : Signal) : Proc unit :=
  (g <- ProcM.get ;;
   match currentPosition g with
   | None =>
       if negb (Signal_eqb computed Flat) then
         plog LInfo (StrategyTransition Flat computed) ;;
         openPosition env computed
       else plog LInfo (StrategyHolding (current_signal g))
   | Some p =>
       if negb (Signal_eqb (signal p) computed) then
         plog LInfo (StrategyTransition (current_signal g) computed) ;;
         closePosition env ;;
         if negb (Signal_eqb computed Flat) then openPosition env computed
         else ProcM.ret tt
       else plog LInfo (StrategyHolding (current_signal g))
   end)%proc.

(** The body of the [try] (lines 498-543). *)
Definition cycle_try (env : Env) : Proc unit :=
  (fetched <- await_both (first_settled env)
                (fetchCandleData env "DRIFT-PERP")
                (fetchCandleData env "KMNO-PERP") ;;
   let '(driftCandles, kmnoCandles) := fetched in
   if (List.length driftCandles <? SIGNAL_LAG_PERIODS + 1)%nat
      || (List.length kmnoCandles <? SIGNAL_LAG_PERIODS + 1)%nat then
     plog LWarn (CycleInsufficientData (List.length driftCandles)
                   (List.length kmnoCandles))
   else
     match nth_error driftCandles SIGNAL_LAG_PERIODS,
           nth_error kmnoCandles SIGNAL_LAG_PERIODS with
     | Some driftCandle, Some kmnoCandle =>
         let driftPrice := oracleClose driftCandle in
         let kmnoPrice := oracleClose kmnoCandle in
         let spread := spread_of driftPrice kmnoPrice in
         let signal := signal_of_spread spread in
         plog LInfo (MarketSnapshot driftPrice kmnoPrice spread signal) ;;
         trade env signal ;;
         ProcM.emit (Report ActualPositions) ;;
         ProcM.emit (Report AccountState) ;;
         ProcM.emit (Report FundingCosts) ;;
         g <- ProcM.get ;;
         plog LInfo (CycleCompleted (cycleCount g))
     | _, _ => ProcM.throw (Thrown "TypeError")
     end)%proc.

(** [try { ... } catch { log } finally { isCycleRunning = false }]. *)
Definition cycle_run (env : Env) (g : Globals) : Globals * list Event :=
  let '(r, g1, t) := cycle_try env g in
  let failure :=
    match r with
    | Ok _ => []
    | Err e => [Do (Log LError (CycleFailed (cycleCount g1) e))]
    end in
  ({| currentPosition := currentPosition g1;
      isCycleRunning := false;
      cycleCount := cycleCount g1 |},
   t ++ failure).

Definition executeTradingCycle (env : Env) (g : Globals) : Globals * list Event :=
  match cycle_enter g with
  | (None, t) => (g, t)
  | (Some g1, t) => let '(g2, t') := cycle_run env g1 in (g2, t ++ t')
  end.

(* ------------------------------------------------------------------ *)
(** ** The scheduler: invocations that may overlap *)

(** A cycle suspends at every [await], and the timer may call
    [executeTradingCycle] again meanwhile.  [inFlight] lists the bodies that
    were entered and have not reached their [finally]; since a skipped
    invocation writes nothing, a body is run as one block when it ends. *)
Record System : Type := mkSystem {
  globals : Globals;
  inFlight : list Env;
  emitted : list Event
}.

Inductive Occurrence : Type :=
| Invoke (env : Env)        (* the bootstrap call or a timer tick *)
| Complete (i : nat).       (* the i-th body in flight runs to its end *)

Fixpoint remove_nth {A} (i : nat) (l : list A) : list A :=
  match l, i with
  | [], _ => []
  | _ :: rest, O => rest
  | x :: rest, S j => x :: remove_nth j rest
  end.

Definition occur (s : System) (o : Occurrence) : System :=
  match o with
  | Invoke env =>
      match cycle_enter (globals s) with
      | (None, t) =>
          {| globals := globals s; inFlight := inFlight s;
             emitted := emitted s ++ t |}
      | (Some g1, t) =>
          {| globals := g1; inFlight := inFlight s ++ [env];
             emitted := emitted s ++ t |}
      end
  | Complete i =>
      match nth_error (inFlight s) i with
      | None => s
      | Some env =>
          let '(g2, t) := cycle_run env (globals s) in
          {| globals := g2; inFlight := remove_nth i (inFlight s);
             emitted := emitted s ++ t |}
      end
  end.

Definition run_system (s : System) (os : list Occurrence) : System :=
  fold_left occur os s.

(** The process once [initializeSystem] has run: no cycle entered yet. *)
Definition started (ledger : option Position) : System :=
  {| globals := {| currentPosition := ledger; isCycleRunning := false;
                   cycleCount := 0 |};
     inFlight := [];
     emitted := [] |}.

(* ------------------------------------------------------------------ *)
(** ** Reading traces *)

Definition step_orders (s : Step) : list (Order * Result string) :=
  match s with
  | Submit o r => [(o, r)]
  | _ => []
  end.

(** Every order submission of an event, with its outcome. *)
Definition event_orders (e : Event) : list (Order * Result string) :=
  match e with
  | Do s => step_orders s
  | All legs => flat_map (flat_map step_orders) legs
  | Report _ => []
  end.

Definition submissions (t : list Event) : list (Order * Result string) :=
  flat_map event_orders t.

Definition is_confirmed (r : Result string) : bool :=
  match r with
  | Ok _ => true
  | Err _ => false
  end.

(** The sleeps of a task, in order. *)
Fixpoint sleeps (t : list Step) : list Z :=
  match t with
  | [] => []
  | Sleep ms :: rest => ms :: sleeps rest
  | _ :: rest => sleeps rest
  end.


(** The rational carried by a finite number (0 otherwise). *)
Definition fin_or_zero (n : number) : Q :=
  match n with
  | Fin q => q
  | _ => 0
  end.

(** The sum of the [fillSize] values logged level by level. *)
Fixpoint logged_fill (lines : list Step) : Q :=
  match lines with
  | [] => 0
  | Log _ (LiquidityLevel _ _ _ fillSize _) :: rest =>
      fin_or_zero fillSize + logged_fill rest
  | _ :: rest => logged_fill rest
  end.

(** The sum of [fillSize * levelPrice] over the logged levels. *)
Fixpoint logged_notional (lines : list Step) : Q :=
  match lines with
  | [] => 0
  | Log _ (LiquidityLevel _ levelPrice _ fillSize _) :: rest =>
      fin_or_zero fillSize * fin_or_zero levelPrice + logged_notional rest
  | _ :: rest => logged_notional rest
  end.

(** Every logged level contributes [min(levelSize, required - before)] and
    leaves the running total at or below [required]. *)
Fixpoint capped_walk (required before : Q) (lines : list Step) : Prop :=
  match lines with
  | [] => True
  | Log _ (LiquidityLevel _ _ levelSize fillSize cumulative) :: rest =>
      exists sz after : Q,
        levelSize = Fin sz
        /\ fillSize = Fin (Qmin sz (required - before))
        /\ cumulative = Fin after
        /\ after == before + Qmin sz (required - before)
        /\ after <= required
        /\ capped_walk required after rest
  | _ :: _ => False
  end.

Definition empty_fill : Fill := {| totalSize := Fin 0; totalValue := Fin 0 |}.

(* ------------------------------------------------------------------ *)
(** ** The PositionState invariant *)

(** [Math.sign] *)
Definition Math_sign (n : number) : number :=
  if (n >? Fin 0)%num then Fin 1
  else if (n <? Fin 0)%num then Fin (-1)
  else n.

(** [signal == 0] exactly when both legs are zero; a nonzero signal is the
    sign of the DRIFT leg and the opposite of the sign of the KMNO leg. *)
Definition PositionState_invariant (p : Position) : Prop :=
  (signal p = Flat <->
   (drift p =? Fin 0)%num = true /\ (kmno p =? Fin 0)%num = true)
  /\ (signal p <> Flat ->
      (Math_sign (drift p) =? signal_num (signal p))%num = true
      /\ (Math_sign (kmno p) =? - signal_num (signal p))%num = true).

(** The ledger is [null] when flat. *)
Definition ledger_invariant (ledger : option Position) : Prop :=
  match ledger with
  | None => True
  | Some p => PositionState_invariant p
  end.

(** What would make reconciliation surface an anomaly: it halts (rejects),
    or it force-flattens (submits orders), or it raises a warning or an
    error in the log. *)
Definition is_alarm (e : Event) : bool :=
  match e with
  | Do (Log (LWarn | LError) _) => true
  | _ => false
  end.

Definition surfaced (out : Result unit * Globals * list Event) : Prop :=
  (exists e, fst (fst out) = Err e)
  \/ submissions (snd out) <> []
  \/ existsb is_alarm (snd out) = true.

(* ------------------------------------------------------------------ *)
(** ** What the venue does to an order *)

(** The order submissions among the steps of a task. *)
Definition orders_of (t : list Step) : list (Order * Result string) :=
  flat_map step_orders t.

(** Some attempt within the retry budget is accepted, the earlier ones
    having been rejected. *)
Definition venue_confirms (env : Env) (o : Order) : Prop :=
  exists (k : nat) (tx : string),
    (1 <= k <= MAX_RETRIES)%nat
    /\ venue env o k = Ok tx
    /\ forall j : nat, (1 <= j < k)%nat -> exists e, venue env o j = Err e.

(** Every attempt within the retry budget is rejected. *)
Definition venue_exhausts (env : Env) (o : Order) : Prop :=
  forall k : nat, (1 <= k <= MAX_RETRIES)%nat -> exists e, venue env o k = Err e.

(** An order appears in a trace with a confirmation. *)
Definition confirmed_in (t : list Event) (o : Order) : Prop :=
  exists tx : string, In (o, Ok tx) (submissions t).

(** What a retried order leaves in its trace: submissions of that order
    only; a confirmation when it fulfils; none when it rejects. *)
Definition placed_well (o : Order) (r : Result string) (t : list Step) : Prop :=
  (forall x, In x (orders_of t) -> fst x = o)
  /\ (forall tx, r = Ok tx -> In (o, Ok tx) (orders_of t))
  /\ (forall e, r = Err e -> forall x, In x (orders_of t) -> is_confirmed (snd x) = false).

(* ------------------------------------------------------------------ *)
(** ** The shape of a cycle's trace *)

(** The globals once the [finally] of a cycle has run. *)
Definition settle (g : Globals) : Globals :=
  {| currentPosition := currentPosition g;
     isCycleRunning := false;
     cycleCount := cycleCount g |}.

(** The globals of a cycle that has just been entered. *)
Definition entered (g : Globals) : Globals :=
  {| currentPosition := currentPosition g;
     isCycleRunning := true;
     cycleCount := (cycleCount g + 1)%Z |}.

(** What a cycle emits up to the transition it announces. *)
Definition cycle_prelude (env : Env) (g : Globals) (driftBar kmnoBar : CandleData)
  (from to : Signal) : list Event :=
  [Do (Log LInfo (CycleStarting (cycleCount g + 1)));
   All [snd (fetchCandleData env "DRIFT-PERP");
        snd (fetchCandleData env "KMNO-PERP")];
   Do (Log LInfo (MarketSnapshot (oracleClose driftBar) (oracleClose kmnoBar)
                    (spread_of (oracleClose driftBar) (oracleClose kmnoBar)) to));
   Do (Log LInfo (StrategyTransition from to))].

(** What a cycle emits after a successful trading step. *)
Definition cycle_reports (cycle : Z) : list Event :=
  [Report ActualPositions; Report AccountState; Report FundingCosts;
   Do (Log LInfo (CycleCompleted cycle))].

(** The join of the closing orders of a position. *)
Definition closing_join (env : Env) (p : Position) : Event :=
  All (map snd (map (placeOrder env) (closing_orders p))).

(** The join of the opening orders for a signal. *)
Definition opening_join (env : Env) (s : Signal) : Event :=
  All (map snd (map (placeOrder env) (opening_orders s))).

(** The bar that is [lag] periods older than the newest of a sequence
    ordered oldest first. *)
Definition lagged_bar (lag : nat) (bars : list CandleData) : option CandleData :=
  nth_error (rev bars) lag.

(** No cycle in flight and the flag down, or one cycle in flight and the
    flag up. *)
Definition single_flight (s : System) : Prop :=
  (isCycleRunning (globals s) = false /\ inFlight s = [])
  \/ (isCycleRunning (globals s) = true /\ exists env, inFlight s = [env]).

(* ------------------------------------------------------------------ *)
(** ** Sample data *)

(** The book [{price: 1.00, size: 5}, {price: 1.01, size: 5}] as the DLOB
    API serves it: prices in 10^-6 and sizes in 10^-9 units. *)
Definition two_level_book : L2Data :=
  {| bids := [];
     asks := [ {| price := 1000000; size := 5000000000 |};
               {| price := 1010000; size := 5000000000 |} ];
     oracle := 1000000 |}.

(** A world in which every request succeeds: the two markets are listed,
    the venue holds [held], the API serves [driftBars] and [kmnoBars] and
    the book [book] for both markets, and every order confirms. *)
Definition calm_env (held : list PerpPosition)
  (driftBars kmnoBars : list CandleData) (book : L2Data) : Env :=
  {| marketMap := [("DRIFT"%string, mkMarket 0 "DRIFT");
                   ("KMNO"%string, mkMarket 28 "KMNO")];
     perpPositions := Ok held;
     candles := fun symbol _ =>
                  if String.eqb symbol "DRIFT-PERP" then Body driftBars
                  else Body kmnoBars;
     l2 := fun _ => Body book;
     venue := fun _ _ => Ok "signature"%string;
     first_settled := 0 |}.

(** Globals of a process with no cycle running. *)
Definition idle (ledger : option Position) (cycles : Z) : Globals :=
  {| currentPosition := ledger; isCycleRunning := false; cycleCount := cycles |}.

(** Venue legs {DRIFT: +10, KMNO: +100}, in base units. *)
Definition same_sign_legs : list PerpPosition :=
  [ {| perpMarketIndex := 0; baseAssetAmount := 10000000000 |};
    {| perpMarketIndex := 28; baseAssetAmount := 100000000000 |} ].

(** Venue legs {DRIFT: +10, KMNO: -100}, in base units. *)
Definition long_spread_legs : list PerpPosition :=
  [ {| perpMarketIndex := 0; baseAssetAmount := 10000000000 |};
    {| perpMarketIndex := 28; baseAssetAmount := -100000000000 |} ].

(** Three bars per instrument, oldest first: DRIFT closes 1, 3, 3 and KMNO
    closes 0.2 throughout.  The bar two periods behind the newest has a
    negative spread; the newest has a positive one. *)
Definition drift_bars : list CandleData :=
  [mkCandle (Fin 1); mkCandle (Fin 3); mkCandle (Fin 3)].
Definition kmno_bars : list CandleData :=
  [mkCandle (Fin 0.2); mkCandle (Fin 0.2); mkCandle (Fin 0.2)].

(** A world like [calm_env] in which the venue rejects every reduce-only
    KMNO order and confirms every other order. *)
Definition one_leg_env (driftBars kmnoBars : list CandleData) (book : L2Data) : Env :=
  {| marketMap := [("DRIFT"%string, mkMarket 0 "DRIFT");
                   ("KMNO"%string, mkMarket 28 "KMNO")];
     perpPositions := Ok [];
     candles := fun symbol _ =>
                  if String.eqb symbol "DRIFT-PERP" then Body driftBars
                  else Body kmnoBars;
     l2 := fun _ => Body book;
     venue := fun o _ =>
                if String.eqb (market o) "KMNO" && reduceOnly o
                then Err (Thrown "venue rejected")
                else Ok "signature"%string;
     first_settled := 0 |}.

(** A wrapped function that fails twice and then succeeds. *)
Definition third_time_lucky (attempt : nat) : Task string :=
  match attempt with
  | 3%nat => (Ok "result"%string, [])
  | _ => (Err (Thrown "unavailable"), [])
  end.

(** A book with one deep level at price 1.00 on each side. *)
Definition deep_book : L2Data :=
  {| bids := [ {| price := 1000000; size := 1000000000000 |} ];
     asks := [ {| price := 1000000; size := 1000000000000 |} ];
     oracle := 1000000 |}.

(* ------------------------------------------------------------------ *)
(** ** Reading the backoff of a retried task *)

(** The delay slept after the failure of [attempt] (line 64). *)
Definition backoff_delay (attempt : nat) : Z :=
  (RETRY_DELAY_MS * 2 ^ (Z.of_nat attempt - 1))%Z.

(** The delays slept when the first [failures] attempts fail. *)
Definition backoff_schedule (failures : nat) : list Z :=
  map backoff_delay (seq 1 failures).

(** What one iteration of the loop leaves in the trace when its attempt
    rejects and another iteration follows (lines 61-68). *)
Definition failed_attempt {T} (fn : nat -> Task T) (maxRetries attempt : nat)
  : list Step :=
  snd (fn attempt) ++
  match fst (fn attempt) with
  | Err e => [Log LWarn (RetryAttemptFailed attempt maxRetries (backoff_delay attempt) e);
              Sleep (backoff_delay attempt)]
  | Ok _ => []
  end.

Definition total (delays : list Z) : Z := fold_right Z.add 0%Z delays.

(** The HTTP requests of a task, in order. *)
Fixpoint requests (t : list Step) : list Request :=
  match t with
  | [] => []
  | HttpGet r :: rest => r :: requests rest
  | _ :: rest => requests rest
  end.

(** [response.ok] followed by a body. *)
Definition is_body {A} (r : Reply A) : bool :=
  match r with
  | Body _ => true
  | _ => false
  end.

(** A step that only writes to the log. *)
Definition is_log (s : Step) : bool :=
  match s with
  | Log _ _ => true
  | _ => false
  end.

(** The size resting on one side of a book, in whole units. *)
Definition depth_of (orders : list L2Level) : Q :=
  fold_right (fun order acc => size order / 1000000000 + acc) 0 orders.

(** A submission of [o] that the venue rejected with [e]. *)
Definition rejected_submission (o : Order) (e : Exn) : Order * Result string :=
  (o, Err e).

(* ------------------------------------------------------------------ *)
(** ** Reading what opening and closing do *)

(** The liquidity check that [openPosition] runs for one of its orders:
    the perp market of the order's symbol, the side the order would take,
    and the order's quantity (lines 366-378). *)
Definition liquidity_of (env : Env) (o : Order) : Task Liquidity :=
  checkLiquidity env (market o ++ "-PERP") (book_side_for (direction o)) (quantity o).

Definition opposite (d : PositionDirection) : PositionDirection :=
  match d with
  | LONG => SHORT
  | SHORT => LONG
  end.

(** The reduce-only order that takes back what [o] bought or sold. *)
Definition unwinding (o : Order) : Order :=
  mkOrder (market o) (opposite (direction o)) (quantity o) true.

(** A world like [calm_env] in which the venue rejects every KMNO order
    and confirms every other order. *)
Definition kmno_rejecting_env (book : L2Data) : Env :=
  {| marketMap := [("DRIFT"%string, mkMarket 0 "DRIFT");
                   ("KMNO"%string, mkMarket 28 "KMNO")];
     perpPositions := Ok [];
     candles := fun _ _ => Body [];
     l2 := fun _ => Body book;
     venue := fun o _ =>
                if String.eqb (market o) "KMNO"
                then Err (Thrown "venue rejected")
                else Ok "signature"%string;
     first_settled := 0 |}.

(** An operation that may write the ledger and nothing else among the
    globals. *)
Definition only_ledger_changes (g g' : Globals) : Prop :=
  isCycleRunning g' = isCycleRunning g /\ cycleCount g' = cycleCount g.

(** The orders a cycle that starts from [g] may submit: an order closing a
    leg of the ledger it starts with, or an opening order of a nonzero
    signal. *)
Definition cycle_order (g : Globals) (x : Order * Result string) : Prop :=
  (exists p, currentPosition g = Some p /\ In (fst x) (closing_orders p))
  \/ (exists s, s <> Flat /\ In (fst x) (opening_orders s)).

(** The ledgers a cycle that starts from [g] may leave. *)
Definition cycle_ledger (g : Globals) (ledger : option Position) : Prop :=
  ledger = currentPosition g
  \/ ledger = None
  \/ exists s, s <> Flat /\ ledger = Some (opened_position s).

(* ------------------------------------------------------------------ *)
(** ** Reading what reconciliation finds *)

(** A perp position that the loop of lines 83-97 takes as the leg of
    [sym]: its amount is not zero and its market is listed under that
    symbol. *)
Definition is_leg (m : list (string * MarketConfig)) (sym : string)
  (pos : PerpPosition) : bool :=
  negb (baseAssetAmount pos =? 0)%Z
  && match market_by_index m (perpMarketIndex pos) with
     | Some mk => String.eqb (baseAssetSymbol mk) sym
     | None => false
     end.

(** The size of the last position of the list that is a leg of [sym], in
    whole units; [otherwise] when there is none. *)
Definition leg_of (m : list (string * MarketConfig)) (sym : string)
  (positions : list PerpPosition) (otherwise : number) : number :=
  match find (is_leg m sym) (rev positions) with
  | Some pos => (Num.of_Z (baseAssetAmount pos) / BASE_PRECISION)%num
  | None => otherwise
  end.

(** The venue's eight perp slots with a DRIFT and a KMNO position among
    idle slots and a position in a third market. *)
Definition eight_slots : list PerpPosition :=
  [ {| perpMarketIndex := 0; baseAssetAmount := 0 |};
    {| perpMarketIndex := 28; baseAssetAmount := -100000000000 |};
    {| perpMarketIndex := 1; baseAssetAmount := 5000000000 |};
    {| perpMarketIndex := 0; baseAssetAmount := 10000000000 |};
    {| perpMarketIndex := 0; baseAssetAmount := 0 |};
    {| perpMarketIndex := 0; baseAssetAmount := 0 |};
    {| perpMarketIndex := 0; baseAssetAmount := 0 |};
    {| perpMarketIndex := 0; baseAssetAmount := 0 |} ].

(* ------------------------------------------------------------------ *)
(** ** shutdownSystem (lines 626-664) *)

(** The module-level variables that only start-up and shutdown write
    (lines 49 and 627); [cycleInterval] tells whether a timer is stored. *)
Record Lifecycle : Type := mkLifecycle {
  isShuttingDown : bool;
  cycleInterval : bool
}.

(** One constructor per [logger] call site of [shutdownSystem]. *)
Inductive ShutdownMsg : Type :=
| ShutdownIgnored          (* "Shutdown already in progress, ignoring signal" *)
| ShutdownInitiated        (* "Initiating graceful shutdown" *)
| ShutdownTimerStopped     (* "Stopped cycle timer" *)
| ShutdownWaiting          (* "Waiting for current cycle to complete..." *)
| ShutdownClosing          (* "Closing open position before shutdown" *)
| ShutdownUnsubscribing    (* "Unsubscribing from Drift client" *)
| ShutdownCompleted (cycles : Z)
| ShutdownDone             (* "System shutdown complete" *)
| ShutdownError (e : Exn). (* "Error during shutdown: ..." *)

(** What a shutdown does, in program order. *)
Inductive Act : Type :=
| Note (lvl : Level) (m : ShutdownMsg)
| ClearInterval
| Nap (ms : Z)                      (* [await sleep(ms)] in the waiting loop *)
| Trading (t : list Event)          (* the events of [closePosition] *)
| Unsubscribe (outcome : Result unit)
| Exit (code : Z).                  (* [process.exit(code)] *)

(** The loop [while (isCycleRunning) { log; await sleep(1000) }] (lines
    644-647).  The loop lowers nothing itself: it ends once the cycle in
    flight has reached its [finally] during one of the sleeps.  [polls] is
    the number of polls after the first that still find the flag up.  No
    timer tick is taken to arrive between the signal and the exit: the
    timer is cleared first (line 638), and one that [main] sets after a
    bootstrap cycle fires 15 minutes later.  With the flag up and no body
    in flight the loop does not end ([None]). *)
Definition await_cycle (polls : nat) (s : System) : option (System * list Act) :=
  if isCycleRunning (globals s) then
    match inFlight s with
    | [] => None
    | _ :: _ =>
        Some (occur s (Complete 0),
              List.concat (repeat [Note LInfo ShutdownWaiting; Nap 1000%Z] (S polls)))
    end
  else Some (s, []).

(** The rest of the [try] block and its [catch] (lines 649-661);
    [unsubscribe] is how [driftClient.unsubscribe()] settles. *)
Definition shutdown_finish (env : Env) (unsubscribe : Result unit) (g : Globals)
  : Globals * list Act :=
  let '(closed, g1, closing) :=
    match currentPosition g with
    | Some _ =>
        let '(r, g1, t) := closePosition env g in
        (r, g1, [Note LInfo ShutdownClosing; Trading t])
    | None => (Ok tt, g, [])
    end in
  match closed with
  | Err e => (g1, closing ++ [Note LError (ShutdownError e)])
  | Ok _ =>
      match unsubscribe with
      | Err e =>
          (g1, closing ++ [Note LInfo ShutdownUnsubscribing; Unsubscribe (Err e);
                           Note LError (ShutdownError e)])
      | Ok _ =>
          (g1, closing ++ [Note LInfo ShutdownUnsubscribing; Unsubscribe (Ok tt);
                           Note LInfo (ShutdownCompleted (cycleCount g1));
                           Note LInfo ShutdownDone])
      end
  end.

(** A call of the signal handler.  [None]: the call never returns. *)
Definition shutdownSystem (env : Env) (unsubscribe : Result unit) (polls : nat)
  (l : Lifecycle) (s : System) : option (Lifecycle * System * list Act) :=
  if isShuttingDown l then Some (l, s, [Note LInfo ShutdownIgnored])
  else
    let timer :=
      if cycleInterval l then [ClearInterval; Note LInfo ShutdownTimerStopped]
      else [] in
    match await_cycle polls s with
    | None => None
    | Some (s1, waits) =>
        let '(g2, acts) := shutdown_finish env unsubscribe (globals s1) in
        Some ({| isShuttingDown := true; cycleInterval := false |},
              {| globals := g2; inFlight := inFlight s1; emitted := emitted s1 |},
              Note LInfo ShutdownInitiated :: timer ++ waits ++ acts ++ [Exit 0%Z])
    end.

(** The order submissions of a shutdown. *)
Definition act_orders (a : Act) : list (Order * Result string) :=
  match a with
  | Trading t => submissions t
  | _ => []
  end.

Definition is_exit (a : Act) : bool :=
  match a with
  | Exit _ => true
  | _ => false
  end.

Definition is_unsubscribe (a : Act) : bool :=
  match a with
  | Unsubscribe _ => true
  | _ => false
  end.

(** A process with a timer armed and no shutdown under way. *)
Definition running : Lifecycle := {| isShuttingDown := false; cycleInterval := true |}.

(* ================================================================== *)
(** * Properties *)

(* ------------------------------------------------------------------ *)
(** ** Comparisons of finite numbers *)

Lemma ltb_fin (x y : Q) : (Fin x <? Fin y)%num = true <-> x < y.
Proof.
  unfold Num.ltb; simpl. rewrite Qlt_alt.
  destruct (x ?= y); split; intro H; congruence.
Qed.

Lemma gtb_fin (x y : Q) : (Fin x >? Fin y)%num = true <-> y < x.
Proof. unfold Num.gtb. apply ltb_fin. Qed.

Lemma geb_fin (x y : Q) : (Fin x >=? Fin y)%num = true <-> y <= x.
Proof.
  unfold Num.geb; simpl. rewrite Qge_alt.
  destruct (x ?= y); split; intro H; congruence.
Qed.

Lemma eqb_fin (x y : Q) : (Fin x =? Fin y)%num = true <-> x == y.
Proof.
  unfold Num.eqb; simpl. rewrite Qeq_alt.
  destruct (x ?= y); split; intro H; congruence.
Qed.

Lemma ltb_fin_false (x y : Q) : (Fin x <? Fin y)%num = false <-> y <= x.
Proof.
  rewrite <- not_true_iff_false, ltb_fin. split; intro H.
  - apply Qnot_lt_le; exact H.
  - apply Qle_not_lt; exact H.
Qed.

Lemma geb_fin_false (x y : Q) : (Fin x >=? Fin y)%num = false <-> x < y.
Proof.
  rewrite <- not_true_iff_false, geb_fin. split; intro H.
  - apply Qnot_le_lt; exact H.
  - apply Qlt_not_le; exact H.
Qed.

Lemma neqb_fin_false (x y : Q) : Num.neqb (Fin x) (Fin y) = false <-> x == y.
Proof. unfold Num.neqb. rewrite negb_false_iff. apply eqb_fin. Qed.

Lemma neqb_fin (x y : Q) : Num.neqb (Fin x) (Fin y) = true <-> ~ x == y.
Proof.
  unfold Num.neqb. rewrite negb_true_iff, <- not_true_iff_false, eqb_fin.
  reflexivity.
Qed.

(* ------------------------------------------------------------------ *)
(** ** The signal *)

Lemma spread_of_fin (a b : Q) : spread_of (Fin a) (Fin b) = Fin (a - 10 * b).
Proof. reflexivity. Qed.

Lemma logger_spread_fin (a b : Q) : logger_spread (Fin a) (Fin b) = Fin (a - 10 * b).
Proof. reflexivity. Qed.

Lemma signal_of_spread_cases (s : Q) :
  (s < 0 /\ signal_of_spread (Fin s) = Long)
  \/ (0 < s /\ signal_of_spread (Fin s) = Short)
  \/ (s == 0 /\ signal_of_spread (Fin s) = Flat).
Proof.
  unfold signal_of_spread.
  destruct (Fin s <? Fin 0)%num eqn:Hlt.
  - left. split; [apply ltb_fin; exact Hlt | reflexivity].
  - destruct (Fin s >? Fin 0)%num eqn:Hgt.
    + right; left. split; [apply gtb_fin; exact Hgt | reflexivity].
    + right; right. split; [| reflexivity].
      apply ltb_fin_false in Hlt. unfold Num.gtb in Hgt.
      apply ltb_fin_false in Hgt. apply Qle_antisym; assumption.
Qed.

Lemma logger_signal_cases (s : Q) :
  (s < 0 /\ logger_signal (Fin s) = Long)
  \/ (0 < s /\ logger_signal (Fin s) = Short)
  \/ (s == 0 /\ logger_signal (Fin s) = Flat).
Proof.
  unfold logger_signal.
  destruct (Fin s <? Fin 0)%num eqn:Hlt.
  - left. split; [apply ltb_fin; exact Hlt | reflexivity].
  - destruct (Fin s =? Fin 0)%num eqn:Heq.
    + right; right. split; [apply eqb_fin; exact Heq | reflexivity].
    + right; left. split; [| reflexivity].
      apply ltb_fin_false in Hlt.
      apply not_true_iff_false in Heq. rewrite eqb_fin in Heq.
      apply Qle_lt_or_eq in Hlt. destruct Hlt as [H | H]; [exact H |].
      exfalso. apply Heq. symmetry. exact H.
Qed.

(** A sign trichotomy read backwards: a three-way case split whose
    branches give distinct signals determines each signal exactly. *)
Lemma sign_cases_iff (f : Signal) (s : Q) :
  (s < 0 /\ f = Long) \/ (0 < s /\ f = Short) \/ (s == 0 /\ f = Flat) ->
  (f = Long <-> s < 0) /\ (f = Short <-> 0 < s) /\ (f = Flat <-> s == 0).
Proof.
  intros [[H E] | [[H E] | [H E]]]; rewrite E;
    (repeat split; intro K; try reflexivity; try discriminate; try exact H);
    exfalso.
  - apply (Qlt_irrefl 0). apply Qlt_trans with s; assumption.
  - rewrite K in H. apply (Qlt_irrefl 0); exact H.
  - apply (Qlt_irrefl 0). apply Qlt_trans with s; assumption.
  - rewrite K in H. apply (Qlt_irrefl 0); exact H.
  - rewrite H in K. apply (Qlt_irrefl 0); exact K.
  - rewrite H in K. apply (Qlt_irrefl 0); exact K.
Qed.


(** Outside the finite prices the two computations part: a NaN spread is
    read as 0 by the trading cycle and as -1 by the price logger. *)
Remark signal_of_nan_spread :
  spread_of PosInf PosInf = NaN
  /\ signal_of_spread NaN = Flat
  /\ logger_signal NaN = Short.
Proof. repeat split. Qed.

(* ------------------------------------------------------------------ *)
(** ** Retry with backoff *)

(** What the loop does between a failed attempt and the next one. *)
Lemma retry_from_failed T (fn : nat -> Task T) maxRetries attempt remaining e t :
  fn attempt = (Err e, t) ->
  attempt <> maxRetries ->
  retry_from fn maxRetries attempt (S remaining) =
    let delay := (RETRY_DELAY_MS * 2 ^ (Z.of_nat attempt - 1))%Z in
    let '(r, t') := retry_from fn maxRetries (S attempt) remaining in
    (r, t ++ Log LWarn (RetryAttemptFailed attempt maxRetries delay e)
          :: Sleep delay :: t').
Proof.
  intros Hfn Hne. simpl. rewrite Hfn. unfold TaskM.catch.
  apply Nat.eqb_neq in Hne. rewrite Hne.
  unfold log, sleep, TaskM.bind, TaskM.emit.
  destruct (retry_from fn maxRetries (S attempt) remaining) as [r t'].
  reflexivity.
Qed.

Lemma retry_from_fulfilled T (fn : nat -> Task T) maxRetries attempt remaining v t :
  fn attempt = (Ok v, t) ->
  retry_from fn maxRetries attempt (S remaining) = (Ok v, t).
Proof. intros Hfn. simpl. rewrite Hfn. reflexivity. Qed.

Lemma retry_from_last T (fn : nat -> Task T) maxRetries remaining r t :
  fn maxRetries = (r, t) ->
  retry_from fn maxRetries maxRetries (S remaining) = (r, t).
Proof.
  intros Hfn. simpl. rewrite Hfn. unfold TaskM.catch.
  destruct r as [v | e]; [reflexivity |].
  rewrite Nat.eqb_refl. unfold TaskM.throw. rewrite app_nil_r. reflexivity.
Qed.

(** C7. With three attempts, a base delay of 1000 ms and a doubling
    backoff: the failure of attempt 1 is followed by a sleep of 1000 ms and
    the failure of attempt 2 by a sleep of 2000 ms before the next attempt;
    whatever attempt 3 settles with (its value, or its error unchanged) is
    the outcome of the whole, with no further sleep. *)
Theorem retry_backoff_three_attempts T (fn : nat -> Task T)
  (e1 : Exn) (t1 : list Step) (r2 : Result T) (t2 : list Step)
  (r3 : Result T) (t3 : list Step) :
  fn 1%nat = (Err e1, t1) ->
  fn 2%nat = (r2, t2) ->
  fn 3%nat = (r3, t3) ->
  retryWithBackoff fn MAX_RETRIES =
    match r2 with
    | Ok v =>
        (Ok v,
         t1 ++ Log LWarn (RetryAttemptFailed 1 3 1000 e1) :: Sleep 1000 :: t2)
    | Err e2 =>
        (r3,
         t1 ++ Log LWarn (RetryAttemptFailed 1 3 1000 e1) :: Sleep 1000 ::
         t2 ++ Log LWarn (RetryAttemptFailed 2 3 2000 e2) :: Sleep 2000 :: t3)
    end.
Proof.
  intros H1 H2 H3. unfold retryWithBackoff, MAX_RETRIES.
  rewrite (@retry_from_failed _ fn 3 1 2 e1 t1 H1) by discriminate.
  destruct r2 as [v | e2].
  - rewrite (@retry_from_fulfilled _ fn 3 2 1 v t2 H2). reflexivity.
  - rewrite (@retry_from_failed _ fn 3 2 1 e2 t2 H2) by discriminate.
    rewrite (@retry_from_last _ fn 3 0 r3 t3 H3). reflexivity.
Qed.

(* ------------------------------------------------------------------ *)
(** ** The liquidity depth walk *)

Lemma levelPrice_fin (o : L2Level) : levelPrice_of o = Fin (price o / 1000000).
Proof. reflexivity. Qed.

Lemma levelSize_fin (o : L2Level) : levelSize_of o = Fin (size o / 1000000000).
Proof. reflexivity. Qed.

Lemma min_fin (a b : Q) : Num.min (Fin a) (Fin b) = Fin (Qmin a b).
Proof.
  unfold Num.min, Num.ltb, Num.compare.
  unfold Qmin, GenericMinMax.gmin. rewrite <- (Qcompare_antisym a b).
  destruct (a ?= b); reflexivity.
Qed.

(** On finite accumulators one iteration stays finite. *)
Lemma fill_level_fin (required ts tv : Q) (o : L2Level) :
  fill_level (Fin required) {| totalSize := Fin ts; totalValue := Fin tv |} o =
  let fillSize := Qmin (size o / 1000000000) (required - ts) in
  {| totalSize := Fin (ts + fillSize);
     totalValue := Fin (tv + fillSize * (price o / 1000000)) |}.
Proof.
  unfold fill_level. cbn [totalSize totalValue].
  rewrite levelSize_fin, levelPrice_fin.
  change (Fin required - Fin ts)%num with (Fin (required - ts)).
  rewrite min_fin. reflexivity.
Qed.

Lemma walk_depth_capped (sym : string) (required : Q) (orders : list L2Level) :
  forall ts tv : Q,
    ts <= required ->
    exists filled notional : Q,
      fst (walk_depth sym (Fin required) orders
             {| totalSize := Fin ts; totalValue := Fin tv |})
        = {| totalSize := Fin filled; totalValue := Fin notional |}
      /\ filled <= required
      /\ capped_walk required ts
           (snd (walk_depth sym (Fin required) orders
                   {| totalSize := Fin ts; totalValue := Fin tv |}))
      /\ filled == ts + logged_fill
           (snd (walk_depth sym (Fin required) orders
                   {| totalSize := Fin ts; totalValue := Fin tv |}))
      /\ notional == tv + logged_notional
           (snd (walk_depth sym (Fin required) orders
                   {| totalSize := Fin ts; totalValue := Fin tv |})).
Proof.
  induction orders as [| o rest IH]; intros ts tv Hts.
  - exists ts, tv. simpl. repeat split; try exact Hts; ring.
  - cbn [walk_depth]. rewrite fill_level_fin. cbn zeta. cbn [totalSize].
    rewrite levelSize_fin, levelPrice_fin.
    change (Fin required - Fin ts)%num with (Fin (required - ts)).
    rewrite min_fin.
    set (f := Qmin (size o / 1000000000) (required - ts)).
    assert (Hf : f <= required - ts) by apply Q.le_min_r.
    assert (Hcap : ts + f <= required) by lra.
    destruct (Fin (ts + f) >=? Fin required)%num eqn:Hge.
    + exists (ts + f), (tv + f * (price o / 1000000)).
      cbn [fst snd capped_walk logged_fill logged_notional fin_or_zero].
      split; [reflexivity |]. split; [exact Hcap |].
      split.
      * exists (size o / 1000000000), (ts + f).
        repeat split; try reflexivity; exact Hcap.
      * split; ring.
    + destruct (IH (ts + f) (tv + f * (price o / 1000000)) Hcap)
        as (filled & notional & Hfinal & Hle & Hwalk & Hfill & Hnot).
      destruct (walk_depth sym (Fin required) rest
                  {| totalSize := Fin (ts + f);
                     totalValue := Fin (tv + f * (price o / 1000000)) |})
        as [final lines] eqn:Hw.
      cbn [fst snd] in *.
      exists filled, notional.
      cbn [capped_walk logged_fill logged_notional fin_or_zero].
      split; [exact Hfinal |]. split; [exact Hle |].
      split.
      * exists (size o / 1000000000), (ts + f).
        repeat split; try reflexivity; assumption.
      * split; [rewrite Hfill | rewrite Hnot]; ring.
Qed.

(** [canFill] is decided by the comparison that follows the loop. *)
Lemma assess_book_canFill (sym : string) (side : Side) (orderSize : number)
  (data : L2Data) :
  canFill (fst (assess_book sym side orderSize data)) =
  negb (totalSize (fst (walk_depth sym orderSize (book_side data side) empty_fill))
        <? orderSize)%num.
Proof.
  unfold assess_book, empty_fill.
  destruct (walk_depth sym orderSize (book_side data side)
              {| totalSize := Fin 0; totalValue := Fin 0 |}) as [final lines].
  cbn [fst]. destruct (totalSize final <? orderSize)%num; reflexivity.
Qed.


(** The loop visits the shortest nonempty prefix of the book after which
    the accumulated size reaches the required size, or the whole book. *)
Lemma walk_depth_prefix (sym : string) (orderSize : number) (orders : list L2Level) :
  forall acc : Fill,
  exists n : nat,
    (n <= List.length orders)%nat
    /\ fst (walk_depth sym orderSize orders acc)
       = fold_left (fill_level orderSize) (firstn n orders) acc
    /\ (n = List.length orders
        \/ (totalSize (fst (walk_depth sym orderSize orders acc)) >=? orderSize)%num
           = true)
    /\ (forall m : nat, (0 < m < n)%nat ->
          (totalSize (fold_left (fill_level orderSize) (firstn m orders) acc)
           >=? orderSize)%num = false).
Proof.
  induction orders as [| o rest IH]; intros acc.
  - exists 0%nat. simpl. repeat split; auto. intros m Hm. lia.
  - cbn [walk_depth]. cbn zeta.
    destruct (totalSize (fill_level orderSize acc o) >=? orderSize)%num eqn:Hge.
    + exists 1%nat. cbn [fst List.length firstn fold_left].
      split; [lia |]. split; [reflexivity |]. split; [right; exact Hge |].
      intros m Hm. lia.
    + destruct (IH (fill_level orderSize acc o)) as (n & Hn & Hfold & Hstop & Hbefore).
      destruct (walk_depth sym orderSize rest (fill_level orderSize acc o))
        as [final lines] eqn:Hw.
      cbn [fst] in *.
      exists (S n). cbn [List.length firstn fold_left].
      split; [lia |]. split; [exact Hfold |].
      split.
      * destruct Hstop as [Hall | Hmet]; [left; lia | right; exact Hmet].
      * intros m Hm. destruct m as [| m']; [lia |].
        cbn [firstn fold_left].
        destruct m' as [| m''].
        -- destruct rest; exact Hge.
        -- apply Hbefore. lia.
Qed.

Lemma abs_signed_inf (q : Q) : Num.abs (Num.signed_inf q) = Num.signed_inf (Qabs q).
Proof.
  unfold Num.signed_inf.
  destruct (Qcompare_spec q 0) as [H | H | H].
  - assert (E : Qabs q == 0) by (rewrite H; reflexivity).
    apply Qeq_alt in E. rewrite E. reflexivity.
  - assert (E : 0 < Qabs q) by (rewrite Qabs_neg; lra).
    apply Qgt_alt in E. rewrite E. reflexivity.
  - assert (E : 0 < Qabs q) by (rewrite Qabs_pos; lra).
    apply Qgt_alt in E. rewrite E. reflexivity.
Qed.

(** [Math.abs((a - b) / b)] is [|a - b| / b] when [b] is not negative. *)
Lemma slippage_from_nonneg (a : number) (b : Q) :
  0 <= b ->
  slippage_from a (Fin b) =n= (Num.abs (a - Fin b) / Fin b)%num.
Proof.
  intros Hb. unfold slippage_from.
  destruct a as [x | | |].
  - change (Fin x - Fin b)%num with (Fin (x - b)).
    cbn [Num.abs Num.div].
    destruct (Num.is_zero b) eqn:Hz.
    + rewrite abs_signed_inf. destruct (Num.signed_inf (Qabs (x - b))); simpl; auto.
      reflexivity.
    + cbn [Num.abs Num.same].
      assert (Hpos : 0 < b).
      { apply not_true_iff_false in Hz. unfold Num.is_zero in Hz.
        rewrite Qeq_bool_iff in Hz. apply Qle_lt_or_eq in Hb.
        destruct Hb as [H | H]; [exact H |]. exfalso. apply Hz. symmetry. exact H. }
      unfold Qdiv. rewrite Qabs_Qmult, Qabs_Qinv.
      rewrite (Qabs_pos b) by lra. reflexivity.
  - cbn [Num.sub Num.opp Num.add Num.div Num.abs].
    destruct (Qcompare_spec b 0) as [H | H | H]; simpl; auto. lra.
  - cbn [Num.sub Num.opp Num.add Num.div Num.abs].
    destruct (Qcompare_spec b 0) as [H | H | H]; simpl; auto. lra.
  - simpl. exact I.
Qed.

Lemma bestPrice_fin (orders : list L2Level) :
  exists b : Q, bestPrice_of orders = Fin b.
Proof.
  destruct orders as [| top rest]; simpl.
  - exists 0. reflexivity.
  - exists (price top / 1000000). apply levelPrice_fin.
Qed.

Lemma walk_depth_finite (sym : string) (required : Q) (orders : list L2Level) :
  forall ts tv : Q,
  exists filled notional : Q,
    fst (walk_depth sym (Fin required) orders
           {| totalSize := Fin ts; totalValue := Fin tv |})
    = {| totalSize := Fin filled; totalValue := Fin notional |}.
Proof.
  induction orders as [| o rest IH]; intros ts tv.
  - exists ts, tv. reflexivity.
  - cbn [walk_depth]. cbn zeta. rewrite fill_level_fin. cbn zeta.
    destruct (totalSize _ >=? Fin required)%num.
    + eexists _, _. reflexivity.
    + destruct (IH (ts + Qmin (size o / 1000000000) (required - ts))
                   (tv + Qmin (size o / 1000000000) (required - ts)
                         * (price o / 1000000)))
        as (filled & notional & H).
      destruct (walk_depth sym (Fin required) rest _) as [final lines].
      exists filled, notional. exact H.
Qed.


(* ------------------------------------------------------------------ *)
(** ** Orders in traces *)

Lemma orders_of_app (a b : list Step) : orders_of (a ++ b) = orders_of a ++ orders_of b.
Proof. unfold orders_of. apply flat_map_app. Qed.

Lemma submissions_app (a b : list Event) :
  submissions (a ++ b) = submissions a ++ submissions b.
Proof. unfold submissions. apply flat_map_app. Qed.

Lemma submissions_cons (e : Event) (t : list Event) :
  submissions (e :: t) = event_orders e ++ submissions t.
Proof. reflexivity. Qed.

Lemma walk_depth_no_orders (sym : string) (orderSize : number) (orders : list L2Level) :
  forall acc, orders_of (snd (walk_depth sym orderSize orders acc)) = [].
Proof.
  induction orders as [| o rest IH]; intros acc; [reflexivity |].
  cbn [walk_depth]. cbv zeta.
  destruct (totalSize (fill_level orderSize acc o) >=? orderSize)%num; [reflexivity |].
  specialize (IH (fill_level orderSize acc o)).
  destruct (walk_depth sym orderSize rest (fill_level orderSize acc o)) as [final lines].
  cbn [snd] in *. exact IH.
Qed.

Lemma assess_book_no_orders (sym : string) (side : Side) (orderSize : number)
  (data : L2Data) :
  orders_of (snd (assess_book sym side orderSize data)) = [].
Proof.
  unfold assess_book.
  pose proof (walk_depth_no_orders sym orderSize (book_side data side)
                {| totalSize := Fin 0; totalValue := Fin 0 |}) as H.
  destruct (walk_depth sym orderSize (book_side data side) _) as [final lines].
  cbn [snd] in H.
  destruct (totalSize final <? orderSize)%num; cbn [snd];
    change (orders_of (?x :: ?l)) with (step_orders x ++ orders_of l);
    rewrite orders_of_app, H; reflexivity.
Qed.

(** The liquidity check always resolves, and submits nothing. *)
Lemma checkLiquidity_resolves (env : Env) (sym : string) (side : Side)
  (orderSize : number) :
  exists r t, checkLiquidity env sym side orderSize = (Ok r, t) /\ orders_of t = [].
Proof.
  unfold checkLiquidity. destruct (l2 env sym) as [e | status | data].
  - eexists _, _; split; reflexivity.
  - eexists _, _; split; reflexivity.
  - pose proof (assess_book_no_orders sym side orderSize data) as H.
    destruct (assess_book sym side orderSize data) as [result steps].
    eexists _, _; split; [reflexivity | exact H].
Qed.

(** One attempt at an order, spelled out. *)
Lemma place_attempt_run (env : Env) (o : Order) (k : nat) :
  place_attempt env o k =
  match market_get (marketMap env) (market o) with
  | None =>
      (Err (MarketConfigNotFound (market o)),
       [Log LError (OrderFailed (action_of o) o (MarketConfigNotFound (market o)))])
  | Some _ =>
      match venue env o k with
      | Ok tx =>
          (Ok tx,
           [Submit o (Ok tx); Log LInfo (OrderSignature tx);
            Log LInfo (OrderExplorerLink tx);
            Log LInfo (OrderCompleted (action_of o) o)])
      | Err e =>
          (Err e, [Submit o (Err e); Log LError (OrderFailed (action_of o) o e)])
      end
  end.
Proof.
  unfold place_attempt.
  destruct (market_get (marketMap env) (market o)); [| reflexivity].
  destruct (venue env o k); reflexivity.
Qed.

Lemma place_attempt_well (env : Env) (o : Order) (k : nat) :
  placed_well o (fst (place_attempt env o k)) (snd (place_attempt env o k)).
Proof.
  rewrite place_attempt_run.
  destruct (market_get (marketMap env) (market o)).
  - destruct (venue env o k) as [tx | e]; cbn [fst snd]; repeat split.
    + intros x [H | []]. subst x. reflexivity.
    + intros tx' H. injection H as <-. left. reflexivity.
    + intros e H. discriminate.
    + intros x [H | []]. subst x. reflexivity.
    + intros tx H. discriminate.
    + intros e' _ x [H | []]. subst x. reflexivity.
  - cbn [fst snd]. repeat split.
    + intros x [].
    + intros tx H. discriminate.
    + intros e _ x [].
Qed.

Lemma retry_place_well (env : Env) (o : Order) (maxRetries : nat) :
  forall remaining attempt,
    placed_well o
      (fst (retry_from (place_attempt env o) maxRetries attempt remaining))
      (snd (retry_from (place_attempt env o) maxRetries attempt remaining)).
Proof.
  induction remaining as [| remaining IH]; intros attempt.
  - cbn. repeat split.
    + intros x [].
    + intros tx H. discriminate.
    + intros e _ x [].
  - pose proof (place_attempt_well env o attempt) as (A1 & A2 & A3).
    cbn [retry_from]. unfold TaskM.catch.
    destruct (place_attempt env o attempt) as [[tx | e] t]; cbn [fst snd] in *.
    + repeat split; [exact A1 | exact A2 | exact A3].
    + destruct (Nat.eqb attempt maxRetries).
      * unfold TaskM.throw. rewrite app_nil_r. cbn [fst snd].
        repeat split; [exact A1 | exact A2 | exact A3].
      * specialize (IH (S attempt)). destruct IH as (B1 & B2 & B3).
        unfold log, sleep, TaskM.bind, TaskM.emit.
        destruct (retry_from (place_attempt env o) maxRetries (S attempt) remaining)
          as [r t'].
        cbn [fst snd] in *.
        assert (E : forall a b c, orders_of (t ++ (Log LWarn a :: Sleep b :: c))
                                   = orders_of t ++ orders_of c).
        { intros a b c. rewrite orders_of_app. reflexivity. }
        cbn [app]. unfold placed_well. rewrite E. repeat split.
        -- intros x Hx. apply in_app_or in Hx. destruct Hx; auto.
        -- intros tx Hr. apply in_or_app. right. auto.
        -- intros e' Hr x Hx. apply in_app_or in Hx. destruct Hx as [Hx | Hx].
           ++ apply (A3 e eq_refl x Hx).
           ++ apply (B3 e' Hr x Hx).
Qed.

Lemma placeOrder_well (env : Env) (o : Order) :
  (forall x, In x (orders_of (snd (placeOrder env o))) -> fst x = o)
  /\ (forall v, fst (placeOrder env o) = Ok v ->
        exists tx, In (o, Ok tx) (orders_of (snd (placeOrder env o))))
  /\ (forall e, fst (placeOrder env o) = Err e ->
        forall x, In x (orders_of (snd (placeOrder env o))) ->
                  is_confirmed (snd x) = false).
Proof.
  pose proof (retry_place_well env o MAX_RETRIES MAX_RETRIES 1) as (A1 & A2 & A3).
  unfold placeOrder, retryWithBackoff, log, TaskM.bind, TaskM.emit, TaskM.ret.
  cbn [SIMULATION_MODE].
  destruct (retry_from (place_attempt env o) MAX_RETRIES 1 MAX_RETRIES) as [[tx | e] t];
    cbn [fst snd] in *.
  - rewrite app_nil_r. repeat split.
    + exact A1.
    + intros v _. exists tx. apply A2. reflexivity.
    + intros e H. discriminate.
  - repeat split.
    + exact A1.
    + intros v H. discriminate.
    + intros e' _. apply (A3 e eq_refl).
Qed.

(** An order whose every attempt the venue rejects exhausts its retries:
    the promise of [placeOrder] rejects. *)
Lemma placeOrder_exhausted (env : Env) (o : Order) :
  venue_exhausts env o -> exists e, fst (placeOrder env o) = Err e.
Proof.
  intros H.
  destruct (H 1%nat) as (e1 & H1); [unfold MAX_RETRIES; lia |].
  destruct (H 2%nat) as (e2 & H2); [unfold MAX_RETRIES; lia |].
  destruct (H 3%nat) as (e3 & H3); [unfold MAX_RETRIES; lia |].
  unfold placeOrder, retryWithBackoff, MAX_RETRIES, log, TaskM.bind, TaskM.emit.
  cbn [SIMULATION_MODE retry_from]. rewrite !place_attempt_run.
  destruct (market_get (marketMap env) (market o)).
  - rewrite H1, H2, H3. cbn. eexists. reflexivity.
  - cbn. eexists. reflexivity.
Qed.

(** An order the venue accepts within the retry budget, on a listed
    market, fulfils. *)
Lemma placeOrder_confirmed (env : Env) (o : Order) (mk : MarketConfig) :
  market_get (marketMap env) (market o) = Some mk ->
  venue_confirms env o ->
  exists tx, fst (placeOrder env o) = Ok (Some tx).
Proof.
  intros Hm (k & tx & Hk & Hok & Hbefore).
  unfold placeOrder, retryWithBackoff, MAX_RETRIES, log, TaskM.bind, TaskM.emit in *.
  cbn [SIMULATION_MODE retry_from]. rewrite !place_attempt_run, Hm.
  destruct k as [| [| [| [| k]]]]; try lia.
  - rewrite Hok. cbn. eexists. reflexivity.
  - destruct (Hbefore 1%nat) as (e1 & H1); [lia |].
    rewrite H1, Hok. cbn. eexists. reflexivity.
  - destruct (Hbefore 1%nat) as (e1 & H1); [lia |].
    destruct (Hbefore 2%nat) as (e2 & H2); [lia |].
    rewrite H1, H2, Hok. cbn. eexists. reflexivity.
Qed.

(* ------------------------------------------------------------------ *)
(** ** Joins *)

Lemma rejected_nil_iff A (settled : list (Result A)) :
  rejected settled = [] <-> forall r, In r settled -> exists v, r = Ok v.
Proof.
  induction settled as [| [v | e] rest IH]; cbn [rejected].
  - split; [intros _ r [] | reflexivity].
  - rewrite IH. split.
    + intros H r [<- | Hr]; [eexists; reflexivity | auto].
    + intros H r Hr. apply H. right. exact Hr.
  - split; [discriminate |].
    intros H. destruct (H (Err e)) as (v & Hv); [left; reflexivity | discriminate].
Qed.

(** A join fulfils exactly when every leg fulfils. *)
Lemma Promise_all_fulfils A (first : nat) (legs : list (Task A)) :
  (exists vs, Promise_all first legs = Ok vs)
  <-> forall leg, In leg legs -> exists v, fst leg = Ok v.
Proof.
  unfold Promise_all.
  pose proof (rejected_nil_iff A (map fst legs)) as H.
  destruct (rejected (map fst legs)) as [| e more].
  - split; [| intros _; eexists; reflexivity].
    intros _ leg Hleg. apply (proj1 H eq_refl). apply in_map. exact Hleg.
  - split; [intros (vs & Hvs); discriminate |].
    intros Hall. exfalso.
    assert (K : e :: more = []); [| discriminate].
    apply H. intros r Hr. apply in_map_iff in Hr. destruct Hr as (leg & <- & Hleg).
    apply Hall. exact Hleg.
Qed.

Lemma Promise_all_rejects A (first : nat) (legs : list (Task A)) (leg : Task A) (e : Exn) :
  In leg legs -> fst leg = Err e -> exists e', Promise_all first legs = Err e'.
Proof.
  intros Hin Herr.
  destruct (Promise_all first legs) as [vs | e'] eqn:E; [| eexists; reflexivity].
  exfalso.
  destruct (proj1 (Promise_all_fulfils A first legs) (ex_intro _ vs E) leg Hin) as (v & Hv).
  congruence.
Qed.

(* ------------------------------------------------------------------ *)
(** ** Closing and opening, spelled out *)

Lemma closePosition_run (env : Env) (g : Globals) (p : Position) :
  currentPosition g = Some p ->
  let legs := map (placeOrder env) (closing_orders p) in
  closePosition env g =
  match Promise_all (first_settled env) legs with
  | Ok _ =>
      (Ok tt, with_position g None,
       [Do (Log LInfo (CloseStarting p)); All (map snd legs);
        Do (Log LInfo CloseSucceeded)])
  | Err e =>
      (Err e, g,
       [Do (Log LInfo (CloseStarting p)); All (map snd legs);
        Do (Log LError (CloseFailed e))])
  end.
Proof.
  intros Hp legs. unfold closePosition. rewrite Hp.
  unfold ProcM.bind, ProcM.catch, plog, ProcM.emit, await_all, ProcM.set_position,
    ProcM.throw.
  fold legs. destruct (Promise_all (first_settled env) legs); reflexivity.
Qed.

Lemma validate_liquidity_run (env : Env) (ds ks : Side) (g : Globals) :
  exists r pre, validate_liquidity env ds ks g = (r, g, pre) /\ submissions pre = [].
Proof.
  unfold validate_liquidity.
  destruct (checkLiquidity_resolves env "DRIFT-PERP" ds DRIFT_QUANTITY)
    as (rd & td & Hd & Sd).
  destruct (checkLiquidity_resolves env "KMNO-PERP" ks KMNO_QUANTITY)
    as (rk & tk & Hk & Sk).
  unfold ProcM.bind, plog, ProcM.emit, await_both, await_all, ProcM.throw, ProcM.ret,
    ProcM.bind.
  rewrite Hd, Hk. unfold Promise_all. cbn [map fst snd rejected fulfilled].
  unfold orders_of in Sd, Sk.
  destruct (canFill rd), (canFill rk),
    (estimatedSlippage rd >? MAX_SLIPPAGE_BPS / Fin 10000)%num,
    (estimatedSlippage rk >? MAX_SLIPPAGE_BPS / Fin 10000)%num;
    eexists _, _; (split; [reflexivity |]);
    unfold submissions; cbn [flat_map event_orders step_orders app];
    rewrite Sd, Sk; reflexivity.
Qed.

(** Opening for a nonzero signal: either the validation rejects before any
    order, or the two orders are joined and the ledger is written only when
    the join fulfils. *)
Lemma openPosition_run (env : Env) (s : Signal) (g : Globals) :
  s <> Flat ->
  let legs := map (placeOrder env) (opening_orders s) in
  exists pre : list Event,
    submissions pre = []
    /\ ((exists e, openPosition env s g
                   = (Err e, g, pre ++ [Do (Log LError (OpenFailed s e))]))
        \/ openPosition env s g =
           match Promise_all (first_settled env) legs with
           | Ok _ => (Ok tt, with_position g (Some (opened_position s)),
                      pre ++ [All (map snd legs); Do (Log LInfo (OpenSucceeded s))])
           | Err e => (Err e, g,
                       pre ++ [All (map snd legs); Do (Log LError (OpenFailed s e))])
           end).
Proof.
  intros Hs legs. unfold openPosition.
  replace (Signal_eqb s Flat) with false by (destruct s; try reflexivity; congruence).
  cbv zeta.
  set (ds := book_side_for _). set (ks := book_side_for _).
  destruct (validate_liquidity_run env ds ks g) as (r & pre & Hv & Hsub).
  unfold ProcM.bind, ProcM.catch, await_all, ProcM.set_position, plog,
    ProcM.emit, ProcM.throw.
  rewrite Hv. fold legs.
  exists (Do (Log LInfo (OpenStarting s)) :: pre).
  split; [exact Hsub |].
  destruct r as [[] | e].
  - right. destruct (Promise_all (first_settled env) legs); cbn [app];
      rewrite ?app_nil_r, <- ?app_assoc; reflexivity.
  - left. exists e. cbn [app]. rewrite ?app_nil_r. reflexivity.
Qed.

(** The orders found in a join of placed orders. *)
Lemma join_orders_in (env : Env) (os : list Order) (x : Order * Result string) :
  In x (event_orders (All (map snd (map (placeOrder env) os)))) -> In (fst x) os.
Proof.
  cbn [event_orders]. rewrite map_map. intros H.
  apply in_flat_map in H. destruct H as (t & Ht & Hx).
  apply in_map_iff in Ht. destruct Ht as (o & <- & Ho).
  destruct (placeOrder_well env o) as (A1 & _ & _).
  rewrite (A1 x Hx). exact Ho.
Qed.

Lemma join_orders_confirmed (env : Env) (os : list Order) (o : Order) :
  In o os ->
  (exists v, fst (placeOrder env o) = Ok v) ->
  exists tx, In (o, Ok tx) (event_orders (All (map snd (map (placeOrder env) os)))).
Proof.
  intros Ho (v & Hv).
  destruct (placeOrder_well env o) as (_ & A2 & _).
  destruct (A2 v Hv) as (tx & Htx). exists tx.
  cbn [event_orders]. rewrite map_map. apply in_flat_map.
  exists (snd (placeOrder env o)). split; [| exact Htx].
  apply in_map_iff. exists o. split; [reflexivity | exact Ho].
Qed.

(** A joined order with a confirmation in the trace fulfilled. *)
Lemma join_confirmed_fulfilled (env : Env) (os : list Order) (o : Order) (tx : string) :
  In (o, Ok tx) (event_orders (All (map snd (map (placeOrder env) os)))) ->
  exists v, fst (placeOrder env o) = Ok v.
Proof.
  cbn [event_orders]. rewrite map_map. intros H.
  apply in_flat_map in H. destruct H as (t & Ht & Hx).
  apply in_map_iff in Ht. destruct Ht as (o' & <- & Ho').
  destruct (placeOrder_well env o') as (A1 & _ & A3).
  pose proof (A1 _ Hx) as E. cbn [fst] in E. subst o'.
  destruct (fst (placeOrder env o)) as [v | e] eqn:F; [eexists; reflexivity |].
  specialize (A3 e eq_refl _ Hx). discriminate.
Qed.

(* ------------------------------------------------------------------ *)
(** ** The ledger and its invariant *)

(** The sign of a rational decides every comparison with zero. *)
Lemma sign_bools (a : Q) :
  (a < 0 /\ (Fin a <? Fin 0)%num = true /\ (Fin a >? Fin 0)%num = false
   /\ (Fin a =? Fin 0)%num = false)
  \/ (a == 0 /\ (Fin a <? Fin 0)%num = false /\ (Fin a >? Fin 0)%num = false
      /\ (Fin a =? Fin 0)%num = true)
  \/ (0 < a /\ (Fin a <? Fin 0)%num = false /\ (Fin a >? Fin 0)%num = true
      /\ (Fin a =? Fin 0)%num = false).
Proof.
  destruct (Qcompare_spec a 0) as [H | H | H].
  - right; left. split; [exact H |]. split; [apply ltb_fin_false; lra |].
    split; [apply ltb_fin_false; lra | apply eqb_fin; exact H].
  - left. split; [exact H |]. split; [apply ltb_fin; exact H |].
    split; [apply ltb_fin_false; lra |].
    apply not_true_iff_false. rewrite eqb_fin. lra.
  - right; right. split; [exact H |]. split; [apply ltb_fin_false; lra |].
    split; [apply gtb_fin; exact H |].
    apply not_true_iff_false. rewrite eqb_fin. lra.
Qed.

(** Reconciliation writes a ledger that satisfies the invariant exactly
    when the venue legs are both zero or strictly opposite-signed. *)
Lemma reconciled_ledger_invariant (a b : Q) :
  ledger_invariant (reconciled_ledger (Fin a) (Fin b)) <->
  (a == 0 /\ b == 0) \/ (0 < a /\ b < 0) \/ (a < 0 /\ 0 < b).
Proof.
  unfold reconciled_ledger, reconciled_signal, Num.neqb.
  destruct (sign_bools a)
    as [(Ha & La & Ga & Ea) | [(Ha & La & Ga & Ea) | (Ha & La & Ga & Ea)]];
  destruct (sign_bools b)
    as [(Hb & Lb & Gb & Eb) | [(Hb & Lb & Gb & Eb) | (Hb & Lb & Gb & Eb)]];
  rewrite ?La, ?Ga, ?Ea, ?Lb, ?Gb, ?Eb; cbn [negb orb andb ledger_invariant];
  unfold PositionState_invariant, Math_sign; cbn [drift kmno signal signal_num];
  rewrite ?La, ?Ga, ?Ea, ?Lb, ?Gb, ?Eb.
  all: try (split; [intros [H1 H2] | intros H]).
  all: try solve [intuition (try discriminate; try congruence; try lra)].
Qed.

(** The position written by a successful open satisfies the invariant. *)
Lemma opened_position_invariant (s : Signal) :
  s <> Flat -> PositionState_invariant (opened_position s).
Proof.
  intros Hs. destruct s; [| congruence |]; split; cbn;
    intuition (try discriminate; try congruence).
Qed.

(** A position with a nonzero signal that satisfies the invariant has two
    nonzero legs, hence two closing orders. *)
Lemma invariant_two_closing_orders (p : Position) :
  signal p <> Flat ->
  PositionState_invariant p ->
  closing_orders p =
    [closing_order "DRIFT" (drift p); closing_order "KMNO" (kmno p)].
Proof.
  intros Hs (_ & Hsign). destruct (Hsign Hs) as (Hd & Hk). clear Hsign.
  assert (Nd : Num.neqb (drift p) (Fin 0) = true).
  { destruct (drift p) as [x | | |]; try reflexivity.
    unfold Num.neqb. apply negb_true_iff. unfold Math_sign in Hd.
    destruct (sign_bools x)
      as [(Hx & L & G & E) | [(Hx & L & G & E) | (Hx & L & G & E)]];
      try exact E.
    rewrite L, G in Hd. destruct (signal p); cbn [signal_num] in Hd;
      try congruence; apply eqb_fin in Hd; lra. }
  assert (Nk : Num.neqb (kmno p) (Fin 0) = true).
  { destruct (kmno p) as [x | | |]; try reflexivity.
    unfold Num.neqb. apply negb_true_iff. unfold Math_sign in Hk.
    destruct (sign_bools x)
      as [(Hx & L & G & E) | [(Hx & L & G & E) | (Hx & L & G & E)]];
      try exact E.
    rewrite L, G in Hk. destruct (signal p); cbn [signal_num Num.opp] in Hk;
      try congruence; apply eqb_fin in Hk; lra. }
  unfold closing_orders. rewrite Nd, Nk. reflexivity.
Qed.

(* ------------------------------------------------------------------ *)
(** ** A cycle that finds a position and a different signal *)

Lemma retry_from_no_orders T (fn : nat -> Task T) :
  (forall k, orders_of (snd (fn k)) = []) ->
  forall remaining attempt maxRetries,
    orders_of (snd (retry_from fn maxRetries attempt remaining)) = [].
Proof.
  intros Hfn. induction remaining as [| remaining IH]; intros attempt maxRetries.
  - reflexivity.
  - cbn [retry_from]. unfold TaskM.catch. specialize (Hfn attempt).
    destruct (fn attempt) as [[v | e] t]; cbn [snd] in *; [exact Hfn |].
    destruct (Nat.eqb attempt maxRetries).
    + unfold TaskM.throw. rewrite app_nil_r. exact Hfn.
    + specialize (IH (S attempt) maxRetries).
      unfold log, sleep, TaskM.bind, TaskM.emit.
      destruct (retry_from fn maxRetries (S attempt) remaining) as [r t'].
      cbn [snd app] in *. rewrite orders_of_app, Hfn. exact IH.
Qed.

Lemma fetchCandleData_no_orders (env : Env) (symbol : string) :
  orders_of (snd (fetchCandleData env symbol)) = [].
Proof.
  unfold fetchCandleData, retryWithBackoff. apply retry_from_no_orders.
  intros k. unfold TaskM.bind, TaskM.emit, TaskM.throw, TaskM.ret, log.
  destruct (candles env symbol k); reflexivity.
Qed.

Lemma cycle_prelude_no_orders env g driftBar kmnoBar from to :
  submissions (cycle_prelude env g driftBar kmnoBar from to) = [].
Proof.
  unfold cycle_prelude, submissions. cbn [flat_map event_orders step_orders app].
  fold (orders_of (snd (fetchCandleData env "DRIFT-PERP"))).
  fold (orders_of (snd (fetchCandleData env "KMNO-PERP"))).
  rewrite !fetchCandleData_no_orders. reflexivity.
Qed.

Lemma cycle_reports_no_orders n : submissions (cycle_reports n) = [].
Proof. reflexivity. Qed.

Lemma closing_orders_reduceOnly (p : Position) (o : Order) :
  In o (closing_orders p) -> reduceOnly o = true.
Proof.
  unfold closing_orders. intros H. apply in_app_or in H.
  destruct H as [H | H].
  - destruct (Num.neqb (drift p) (Fin 0)); [| destruct H].
    destruct H as [<- | []]. reflexivity.
  - destruct (Num.neqb (kmno p) (Fin 0)); [| destruct H].
    destruct H as [<- | []]. reflexivity.
Qed.

Lemma opening_orders_not_reduceOnly (s : Signal) (o : Order) :
  In o (opening_orders s) -> reduceOnly o = false.
Proof.
  unfold opening_orders. cbv zeta. intros [<- | [<- | []]]; reflexivity.
Qed.

Section FlipCycle.

Variables (env : Env) (g : Globals) (p : Position) (s : Signal).
Variables (driftCandles kmnoCandles : list CandleData).
Variables (driftBar kmnoBar : CandleData).

Hypothesis Hidle : isCycleRunning g = false.
Hypothesis Hledger : currentPosition g = Some p.
Hypothesis Hdrift : fst (fetchCandleData env "DRIFT-PERP") = Ok driftCandles.
Hypothesis Hkmno : fst (fetchCandleData env "KMNO-PERP") = Ok kmnoCandles.
Hypothesis HdriftBar : nth_error driftCandles SIGNAL_LAG_PERIODS = Some driftBar.
Hypothesis HkmnoBar : nth_error kmnoCandles SIGNAL_LAG_PERIODS = Some kmnoBar.
Hypothesis Hsignal :
  signal_of_spread (spread_of (oracleClose driftBar) (oracleClose kmnoBar)) = s.
Hypothesis Hflip : signal p <> s.

Lemma flip_cycle_run :
  executeTradingCycle env g =
  let prelude := cycle_prelude env g driftBar kmnoBar (signal p) s in
  let '(rc, gc, tc) := closePosition env (entered g) in
  match rc with
  | Err e =>
      (settle gc, prelude ++ tc ++ [Do (Log LError (CycleFailed (cycleCount gc) e))])
  | Ok _ =>
      if Signal_eqb s Flat then
        (settle gc, prelude ++ tc ++ cycle_reports (cycleCount gc))
      else
        let '(ro, go, to) := openPosition env s gc in
        match ro with
        | Err e =>
            (settle go,
             prelude ++ tc ++ to ++ [Do (Log LError (CycleFailed (cycleCount go) e))])
        | Ok _ => (settle go, prelude ++ tc ++ to ++ cycle_reports (cycleCount go))
        end
  end.
Proof.
  unfold executeTradingCycle, cycle_enter. rewrite Hidle.
  unfold cycle_run, cycle_try.
  unfold ProcM.bind at 1. unfold await_both. unfold ProcM.bind at 1.
  unfold await_all, Promise_all. cbn [map].
  destruct (fetchCandleData env "DRIFT-PERP") as [rd td] eqn:Ed.
  destruct (fetchCandleData env "KMNO-PERP") as [rk tk] eqn:Ek.
  cbn [fst snd] in *. subst rd rk. cbn [rejected fulfilled].
  unfold ProcM.ret at 1.
  assert (Hlen : ((List.length driftCandles <? SIGNAL_LAG_PERIODS + 1)%nat
                  || (List.length kmnoCandles <? SIGNAL_LAG_PERIODS + 1)%nat) = false).
  { apply orb_false_iff. split; apply Nat.ltb_ge.
    - assert (K : (SIGNAL_LAG_PERIODS < List.length driftCandles)%nat)
        by (apply nth_error_Some; rewrite HdriftBar; discriminate). lia.
    - assert (K : (SIGNAL_LAG_PERIODS < List.length kmnoCandles)%nat)
        by (apply nth_error_Some; rewrite HkmnoBar; discriminate). lia. }
  rewrite Hlen, HdriftBar, HkmnoBar, Hsignal.
  unfold trade. unfold ProcM.bind, plog, ProcM.emit, ProcM.get, ProcM.ret.
  unfold entered, current_signal. cbn [currentPosition]. rewrite ?Hledger.
  replace (Signal_eqb (signal p) s) with false
    by (destruct (signal p), s; try reflexivity; congruence).
  cbn [negb]. cbv zeta.
  destruct (closePosition env _) as [[rc gc] tc].
  unfold cycle_prelude. rewrite Ed, Ek. cbn [snd].
  destruct rc as [[] | e].
  - destruct (Signal_eqb s Flat); cbn [negb].
    + unfold settle, cycle_reports. cbn [app].
      rewrite ?app_nil_r, <- ?app_assoc. reflexivity.
    + destruct (openPosition env s gc) as [[ro go] to].
      destruct ro as [[] | e]; unfold settle, cycle_reports; cbn [app];
        rewrite ?app_nil_r, <- ?app_assoc; cbn [app]; reflexivity.
  - unfold settle. cbn [app].
    rewrite ?app_nil_r, <- ?app_assoc. reflexivity.
Qed.

(** The four ways such a cycle can end. *)
Lemma flip_cycle_cases :
  let prelude := cycle_prelude env g driftBar kmnoBar (signal p) s in
  let legs := map (placeOrder env) (closing_orders p) in
  let n := (cycleCount g + 1)%Z in
  (exists e,
      Promise_all (first_settled env) legs = Err e
      /\ executeTradingCycle env g =
         (settle (entered g),
          prelude ++ [Do (Log LInfo (CloseStarting p)); closing_join env p;
                      Do (Log LError (CloseFailed e));
                      Do (Log LError (CycleFailed n e))]))
  \/ (exists vs,
         Promise_all (first_settled env) legs = Ok vs
         /\ s = Flat
         /\ executeTradingCycle env g =
            (settle (with_position (entered g) None),
             prelude ++ [Do (Log LInfo (CloseStarting p)); closing_join env p;
                         Do (Log LInfo CloseSucceeded)] ++ cycle_reports n))
  \/ (exists vs e opening,
         Promise_all (first_settled env) legs = Ok vs
         /\ s <> Flat
         /\ openPosition env s (with_position (entered g) None)
            = (Err e, with_position (entered g) None, opening)
         /\ (forall x, In x (submissions opening) -> In (fst x) (opening_orders s))
         /\ executeTradingCycle env g =
            (settle (with_position (entered g) None),
             prelude ++ [Do (Log LInfo (CloseStarting p)); closing_join env p;
                         Do (Log LInfo CloseSucceeded)]
                     ++ opening ++ [Do (Log LError (CycleFailed n e))]))
  \/ (exists vs ws checks,
         Promise_all (first_settled env) legs = Ok vs
         /\ s <> Flat
         /\ Promise_all (first_settled env) (map (placeOrder env) (opening_orders s))
            = Ok ws
         /\ submissions checks = []
         /\ fst (fst (openPosition env s (with_position (entered g) None))) = Ok tt
         /\ executeTradingCycle env g =
            (settle (with_position (entered g) (Some (opened_position s))),
             prelude ++ [Do (Log LInfo (CloseStarting p)); closing_join env p;
                         Do (Log LInfo CloseSucceeded)]
                     ++ checks
                     ++ [opening_join env s; Do (Log LInfo (OpenSucceeded s))]
                     ++ cycle_reports n)).
Proof.
  intros prelude legs n. rewrite flip_cycle_run. fold prelude.
  assert (Hadm : currentPosition (entered g) = Some p) by exact Hledger.
  rewrite (closePosition_run env (entered g) p Hadm). fold legs. cbv zeta.
  destruct (Promise_all (first_settled env) legs) as [vs | e] eqn:Hclose.
  - destruct (Signal_eqb s Flat) eqn:Hs.
    + right; left. exists vs. split; [reflexivity |].
      split; [destruct s; try discriminate; reflexivity |]. reflexivity.
    + assert (Hne : s <> Flat) by (intro K; rewrite K in Hs; discriminate).
      destruct (openPosition_run env s (with_position (entered g) None) Hne)
        as (pre & Hpre & [(e & Hopen) | Hopen]).
      * right; right; left. exists vs, e, (pre ++ [Do (Log LError (OpenFailed s e))]).
        split; [reflexivity |]. split; [exact Hne |]. split; [exact Hopen |].
        split.
        { intros x Hx. rewrite submissions_app, Hpre in Hx. destruct Hx. }
        rewrite Hopen. reflexivity.
      * destruct (Promise_all (first_settled env)
                    (map (placeOrder env) (opening_orders s))) as [ws | e] eqn:Hjoin.
        -- right; right; right. exists vs, ws, pre.
           split; [reflexivity |]. split; [exact Hne |]. split; [reflexivity |].
           split; [exact Hpre |]. split; [rewrite Hopen; reflexivity |].
           rewrite Hopen. unfold opening_join.
           rewrite <- !app_assoc. reflexivity.
        -- right; right; left.
           exists vs, e,
             (pre ++ [opening_join env s; Do (Log LError (OpenFailed s e))]).
           split; [reflexivity |]. split; [exact Hne |]. split; [exact Hopen |].
           split.
           { intros x Hx. rewrite submissions_app, Hpre in Hx. cbn [app] in Hx.
             rewrite submissions_cons in Hx. cbn [submissions flat_map event_orders
               step_orders] in Hx. rewrite !app_nil_r in Hx.
             apply (join_orders_in env (opening_orders s) x Hx). }
           rewrite Hopen. reflexivity.
  - left. exists e. split; reflexivity.
Qed.


Lemma join_rejected_unconfirmed (os : list Order) (o : Order) (e : Exn)
  (x : Order * Result string) :
  fst (placeOrder env o) = Err e ->
  In x (event_orders (All (map snd (map (placeOrder env) os)))) ->
  fst x = o ->
  is_confirmed (snd x) = false.
Proof.
  intros Herr Hx Hfst. cbn [event_orders] in Hx. rewrite map_map in Hx.
  apply in_flat_map in Hx. destruct Hx as (t & Ht & Hx).
  apply in_map_iff in Ht. destruct Ht as (o' & <- & Ho').
  destruct (placeOrder_well env o') as (A1 & _ & A3).
  pose proof (A1 _ Hx) as E. rewrite Hfst in E. subst o'.
  apply (A3 e Herr x Hx).
Qed.

(** The submissions of a cycle that stops at a failed close are those of
    the closing join. *)
Lemma failed_close_submissions (e : Exn) :
  submissions
    (cycle_prelude env g driftBar kmnoBar (signal p) s
     ++ [Do (Log LInfo (CloseStarting p)); closing_join env p;
         Do (Log LError (CloseFailed e));
         Do (Log LError (CycleFailed (cycleCount g + 1) e))])
  = event_orders (closing_join env p).
Proof.
  rewrite submissions_app, cycle_prelude_no_orders.
  cbn [app submissions flat_map event_orders step_orders].
  rewrite !app_nil_r. reflexivity.
Qed.

(** C1. In a cycle that must close the recorded position, when one closing
    order confirms and the other exhausts its retries, the close rejects and
    the cycle fails: the ledger is left in its last confirmed state, the
    position recorded before the cycle, and nothing is written to it; every
    order submitted in the cycle is a reduce-only closing order, and the
    open step for the new signal is never entered.  The same rejection,
    with the globals untouched, is what any caller of closePosition sees. *)
Theorem partial_close_leaves_ledger_unadvanced
  (confirmedLeg failedLeg : Order) (mk : MarketConfig) :
  In confirmedLeg (closing_orders p) ->
  In failedLeg (closing_orders p) ->
  market_get (marketMap env) (market confirmedLeg) = Some mk ->
  venue_confirms env confirmedLeg ->
  venue_exhausts env failedLeg ->
  exists e : Exn,
    executeTradingCycle env g =
      ({| currentPosition := Some p;
          isCycleRunning := false;
          cycleCount := cycleCount g + 1 |},
       cycle_prelude env g driftBar kmnoBar (signal p) s
       ++ [Do (Log LInfo (CloseStarting p)); closing_join env p;
           Do (Log LError (CloseFailed e));
           Do (Log LError (CycleFailed (cycleCount g + 1) e))])
    /\ confirmed_in (snd (executeTradingCycle env g)) confirmedLeg
    /\ (forall x, In x (submissions (snd (executeTradingCycle env g))) ->
                  fst x = failedLeg -> is_confirmed (snd x) = false)
    /\ (forall x, In x (submissions (snd (executeTradingCycle env g))) ->
                  reduceOnly (fst x) = true /\ In (fst x) (closing_orders p))
    /\ (forall m, ~ In (Do (Log LInfo (OpenStarting m)))
                       (snd (executeTradingCycle env g)))
    /\ (forall g0, currentPosition g0 = Some p ->
                   fst (closePosition env g0) = (Err e, g0)).
Proof.
  intros HinA HinB Hlisted HA HB.
  destruct (placeOrder_exhausted env failedLeg HB) as (eB & HeB).
  destruct (placeOrder_confirmed env confirmedLeg mk Hlisted HA) as (txA & HtxA).
  assert (Hrej : exists e, Promise_all (first_settled env)
                             (map (placeOrder env) (closing_orders p)) = Err e).
  { apply Promise_all_rejects with (leg := placeOrder env failedLeg) (e := eB);
      [apply in_map; exact HinB | exact HeB]. }
  destruct Hrej as (e0 & He0).
  destruct flip_cycle_cases
    as [(e & Hjoin & Hrun) | [(vs & Hjoin & _) | [(vs & e & o & Hjoin & _)
       | (vs & ws & c & Hjoin & _)]]];
    try (rewrite Hjoin in He0; discriminate).
  exists e. rewrite Hrun. cbn [fst snd].
  split.
  { unfold settle, entered. cbn [currentPosition cycleCount]. rewrite Hledger.
    reflexivity. }
  unfold confirmed_in. rewrite failed_close_submissions.
  split.
  { apply join_orders_confirmed; [exact HinA | eexists; exact HtxA]. }
  split.
  { intros x Hx Hfst.
    apply (join_rejected_unconfirmed (closing_orders p) failedLeg eB x HeB Hx Hfst). }
  split.
  { intros x Hx. pose proof (join_orders_in env (closing_orders p) x Hx) as Hin.
    split; [apply (closing_orders_reduceOnly p); exact Hin | exact Hin]. }
  split.
  { intros m Hin. apply in_app_or in Hin. destruct Hin as [Hin | Hin].
    - unfold cycle_prelude in Hin. cbn [In] in Hin.
      destruct Hin as [K | [K | [K | [K | []]]]]; discriminate.
    - cbn [In] in Hin. unfold closing_join in Hin.
      destruct Hin as [K | [K | [K | [K | []]]]]; discriminate. }
  intros g0 Hg0. rewrite (closePosition_run env g0 p Hg0). cbv zeta.
  rewrite Hjoin. reflexivity.
Qed.

(** Every closing order confirmed inside the closing join. *)
Lemma close_join_confirms (vs : list (option string)) :
  Promise_all (first_settled env) (map (placeOrder env) (closing_orders p)) = Ok vs ->
  forall o, In o (closing_orders p) ->
    exists tx, In (o, Ok tx) (event_orders (closing_join env p)).
Proof.
  intros Hjoin o Ho. apply join_orders_confirmed; [exact Ho |].
  apply (proj1 (Promise_all_fulfils _ (first_settled env)
                  (map (placeOrder env) (closing_orders p)))
           (ex_intro _ vs Hjoin)).
  apply in_map. exact Ho.
Qed.

(** C2. In a cycle that finds a nonzero position and a different signal:
    the two closing orders are joined before anything else is submitted;
    every later submission is an opening order for the new signal, and there
    is one only if both closing orders confirmed in that join.  The ledger
    ends flat (null) only if both closing orders confirmed, and ends with
    the new direction only if, after that, both opening orders confirmed.
    If the close succeeds and the open fails, the ledger ends flat. *)
Theorem flip_closes_before_opening :
  signal p <> Flat ->
  PositionState_invariant p ->
  let t := snd (executeTradingCycle env g) in
  let ledger := currentPosition (fst (executeTradingCycle env g)) in
  let closes_confirmed :=
    forall o, In o (closing_orders p) ->
      exists tx, In (o, Ok tx) (event_orders (closing_join env p)) in
  closing_orders p = [closing_order "DRIFT" (drift p); closing_order "KMNO" (kmno p)]
  /\ (exists pre post : list Event,
         t = pre ++ closing_join env p :: post
         /\ submissions pre = []
         /\ (forall x, In x (event_orders (closing_join env p)) ->
               In (fst x) (closing_orders p))
         /\ (forall x, In x (submissions post) -> In (fst x) (opening_orders s))
         /\ (submissions post <> [] -> closes_confirmed)
         /\ (forall q, ledger = Some q -> signal q = s ->
               q = opened_position s
               /\ closes_confirmed
               /\ forall o, In o (opening_orders s) ->
                    exists tx, In (o, Ok tx) (submissions post)))
  /\ (ledger = None -> closes_confirmed)
  /\ ((forall o, In o (closing_orders p) -> exists v, fst (placeOrder env o) = Ok v) ->
      (exists e, fst (fst (openPosition env s (with_position (entered g) None))) = Err e) ->
      ledger = None)
  /\ (ledger = Some p \/ ledger = None \/ ledger = Some (opened_position s)).
Proof.
  intros Hheld Hinv t ledger closes_confirmed.
  split; [apply invariant_two_closing_orders; assumption |].
  assert (Hin : forall x, In x (event_orders (closing_join env p)) ->
                          In (fst x) (closing_orders p))
    by (intros x Hx; apply (join_orders_in env (closing_orders p) x Hx)).
  set (prelude := cycle_prelude env g driftBar kmnoBar (signal p) s).
  assert (Hpre : submissions (prelude ++ [Do (Log LInfo (CloseStarting p))]) = []).
  { rewrite submissions_app. unfold prelude. rewrite cycle_prelude_no_orders.
    reflexivity. }
  destruct flip_cycle_cases
    as [(e & Hjoin & Hrun)
       | [(vs & Hjoin & Hflat & Hrun)
         | [(vs & e & opening & Hjoin & Hne & Hopen & Hsub & Hrun)
           | (vs & ws & checks & Hjoin & Hne & Hojoin & Hchecks & Hopen & Hrun)]]];
    fold prelude in Hrun; unfold t, ledger; rewrite Hrun; cbn [fst snd];
    unfold settle, with_position, entered; cbn [currentPosition].
  - (* the close rejects *)
    rewrite Hledger.
    split.
    { exists (prelude ++ [Do (Log LInfo (CloseStarting p))]),
        [Do (Log LError (CloseFailed e));
         Do (Log LError (CycleFailed (cycleCount g + 1) e))].
      split; [rewrite <- app_assoc; reflexivity |].
      split; [exact Hpre |]. split; [exact Hin |].
      split; [intros x [] |]. split; [intros K; exfalso; apply K; reflexivity |].
      intros q Hq Hsig. injection Hq as <-. contradiction. }
    split; [discriminate |].
    split; [| left; reflexivity].
    intros Hall _. exfalso.
    assert (K : exists vs, Promise_all (first_settled env)
                             (map (placeOrder env) (closing_orders p)) = Ok vs).
    { apply Promise_all_fulfils. intros leg Hleg.
      apply in_map_iff in Hleg. destruct Hleg as (o & <- & Ho). apply Hall, Ho. }
    destruct K as (vs & K). congruence.
  - (* the close fulfils and the new signal is flat *)
    pose proof (close_join_confirms vs Hjoin) as Hconf.
    split.
    { exists (prelude ++ [Do (Log LInfo (CloseStarting p))]),
        (Do (Log LInfo CloseSucceeded) :: cycle_reports (cycleCount g + 1)).
      split; [rewrite <- app_assoc; reflexivity |].
      split; [exact Hpre |]. split; [exact Hin |].
      split; [intros x [] |]. split; [intros _; exact Hconf |].
      intros q Hq. discriminate. }
    split; [intros _; exact Hconf |].
    split; [reflexivity | right; left; reflexivity].
  - (* the close fulfils and the open rejects *)
    pose proof (close_join_confirms vs Hjoin) as Hconf.
    assert (Hpost : submissions (Do (Log LInfo CloseSucceeded)
                       :: opening ++ [Do (Log LError (CycleFailed (cycleCount g + 1) e))])
                    = submissions opening).
    { rewrite submissions_cons, submissions_app. cbn. apply app_nil_r. }
    split.
    { exists (prelude ++ [Do (Log LInfo (CloseStarting p))]),
        (Do (Log LInfo CloseSucceeded)
         :: opening ++ [Do (Log LError (CycleFailed (cycleCount g + 1) e))]).
      split; [rewrite <- app_assoc; reflexivity |].
      split; [exact Hpre |]. split; [exact Hin |].
      rewrite Hpost.
      split; [exact Hsub |]. split; [intros _; exact Hconf |].
      intros q Hq. discriminate. }
    split; [intros _; exact Hconf |].
    split; [reflexivity | right; left; reflexivity].
  - (* the close fulfils and the open fulfils *)
    pose proof (close_join_confirms vs Hjoin) as Hconf.
    assert (Hpost : submissions (Do (Log LInfo CloseSucceeded)
                       :: checks
                       ++ [opening_join env s; Do (Log LInfo (OpenSucceeded s))]
                       ++ cycle_reports (cycleCount g + 1))
                    = event_orders (opening_join env s)).
    { rewrite submissions_cons, submissions_app, Hchecks. cbn [app].
      rewrite submissions_cons. cbn [submissions flat_map event_orders step_orders
        cycle_reports app]. rewrite !app_nil_r. reflexivity. }
    split.
    { exists (prelude ++ [Do (Log LInfo (CloseStarting p))]),
        (Do (Log LInfo CloseSucceeded)
         :: checks ++ [opening_join env s; Do (Log LInfo (OpenSucceeded s))]
         ++ cycle_reports (cycleCount g + 1)).
      split; [rewrite <- app_assoc; reflexivity |].
      split; [exact Hpre |]. split; [exact Hin |].
      rewrite Hpost.
      split; [intros x Hx; apply (join_orders_in env (opening_orders s) x Hx) |].
      split; [intros _; exact Hconf |].
      intros q Hq _. injection Hq as <-.
      split; [reflexivity |]. split; [exact Hconf |].
      intros o Ho. apply join_orders_confirmed; [exact Ho |].
      apply (proj1 (Promise_all_fulfils _ (first_settled env)
                      (map (placeOrder env) (opening_orders s)))
               (ex_intro _ ws Hojoin)).
      apply in_map. exact Ho. }
    split; [discriminate |].
    split; [| right; right; reflexivity].
    intros _ (e & He). unfold with_position, entered in Hopen.
    cbn [currentPosition] in Hopen. rewrite Hopen in He. discriminate.
Qed.

End FlipCycle.

(* ------------------------------------------------------------------ *)
(** ** Reconciliation *)

Lemma scan_positions_finite (m : list (string * MarketConfig))
  (positions : list PerpPosition) :
  forall a b : Q,
    (exists e, scan_positions m positions (Fin a) (Fin b) = Err e)
    \/ (exists a' b' : Q, scan_positions m positions (Fin a) (Fin b) = Ok (Fin a', Fin b')).
Proof.
  induction positions as [| pos rest IH]; intros a b.
  - right. exists a, b. reflexivity.
  - cbn [scan_positions].
    destruct (baseAssetAmount pos =? 0)%Z; [apply IH |].
    destruct (market_by_index m (perpMarketIndex pos)) as [mk |]; [| apply IH].
    unfold BN_toNumber.
    destruct (Z.abs (baseAssetAmount pos) <? 2 ^ 53)%Z.
    + change (Num.of_Z (baseAssetAmount pos) / BASE_PRECISION)%num
        with (Fin (inject_Z (baseAssetAmount pos) / 1000000000)).
      destruct (String.eqb (baseAssetSymbol mk) "DRIFT"),
               (String.eqb (baseAssetSymbol mk) "KMNO"); apply IH.
    + left. eexists. reflexivity.
Qed.

(** What reconciliation does, in every world. *)
Lemma reconcilePositionState_run (env : Env) (g : Globals) :
  (exists e, reconcilePositionState env g = (Ok tt, g, [Do (Log LError (ReconcileFailed e))]))
  \/ (exists (positions : list PerpPosition) (a b : Q),
         perpPositions env = Ok positions
         /\ scan_positions (marketMap env) positions (Fin 0) (Fin 0) = Ok (Fin a, Fin b)
         /\ reconcilePositionState env g =
            (Ok tt, with_position g (reconciled_ledger (Fin a) (Fin b)),
             [Do (Log LInfo
                    match reconciled_ledger (Fin a) (Fin b) with
                    | Some p => ReconcileRestored (drift p) (kmno p) (signal p)
                    | None => ReconcileNoPositions
                    end)])).
Proof.
  unfold reconcilePositionState. cbn [SIMULATION_MODE].
  destruct (perpPositions env) as [positions | e] eqn:Hp.
  - destruct (scan_positions_finite (marketMap env) positions 0 0)
      as [(e & He) | (a & b & Hab)].
    + left. exists e. rewrite He. reflexivity.
    + right. exists positions, a, b. split; [reflexivity |]. split; [exact Hab |].
      rewrite Hab. unfold ProcM.bind, ProcM.set_position, plog, ProcM.emit.
      destruct (reconciled_ledger (Fin a) (Fin b)); reflexivity.
  - left. exists e. reflexivity.
Qed.

(** The ledger reconciliation writes, by the signs of the legs. *)
Lemma reconciled_ledger_cases (a b : Q) :
  (0 < a /\ b < 0 ->
   reconciled_ledger (Fin a) (Fin b)
   = Some {| drift := Fin a; kmno := Fin b; signal := Long |})
  /\ (a < 0 /\ 0 < b ->
      reconciled_ledger (Fin a) (Fin b)
      = Some {| drift := Fin a; kmno := Fin b; signal := Short |})
  /\ (a == 0 /\ b == 0 -> reconciled_ledger (Fin a) (Fin b) = None)
  /\ (~ (a == 0 /\ b == 0) -> ~ (0 < a /\ b < 0) -> ~ (a < 0 /\ 0 < b) ->
      reconciled_ledger (Fin a) (Fin b)
      = Some {| drift := Fin a; kmno := Fin b; signal := Flat |}).
Proof.
  unfold reconciled_ledger, reconciled_signal, Num.neqb.
  destruct (sign_bools a)
    as [(Ha & La & Ga & Ea) | [(Ha & La & Ga & Ea) | (Ha & La & Ga & Ea)]];
  destruct (sign_bools b)
    as [(Hb & Lb & Gb & Eb) | [(Hb & Lb & Gb & Eb) | (Hb & Lb & Gb & Eb)]];
  rewrite ?La, ?Ga, ?Ea, ?Lb, ?Gb, ?Eb; cbn [negb orb andb];
  repeat split; intros; try reflexivity; exfalso; intuition lra.
Qed.

(** C8, as the code has it. Reconciliation never halts and never submits
    an order; it only logs at info level.  Venue legs {+10, -100} give the
    ledger signal +1 and legs {0, 0} give a flat (null) ledger; opposite
    legs with DRIFT negative give -1.  Every other combination (same-sign
    legs, or exactly one leg nonzero, such as {+10, +100}) is written to the
    ledger with the legs as found and signal 0. *)
Theorem reconciliation_maps_legs_to_signal :
  (forall (env : Env) (g : Globals) (positions : list PerpPosition) (a b : Q),
      perpPositions env = Ok positions ->
      scan_positions (marketMap env) positions (Fin 0) (Fin 0) = Ok (Fin a, Fin b) ->
      let out := reconcilePositionState env g in
      let ledger := currentPosition (snd (fst out)) in
      fst (fst out) = Ok tt
      /\ ~ surfaced out
      /\ ledger = reconciled_ledger (Fin a) (Fin b)
      /\ (0 < a /\ b < 0 ->
          ledger = Some {| drift := Fin a; kmno := Fin b; signal := Long |})
      /\ (a < 0 /\ 0 < b ->
          ledger = Some {| drift := Fin a; kmno := Fin b; signal := Short |})
      /\ (a == 0 /\ b == 0 -> ledger = None)
      /\ (~ (a == 0 /\ b == 0) -> ~ (0 < a /\ b < 0) -> ~ (a < 0 /\ 0 < b) ->
          ledger = Some {| drift := Fin a; kmno := Fin b; signal := Flat |}))
  /\ reconciled_ledger (Fin 10) (Fin (-100))
     = Some {| drift := Fin 10; kmno := Fin (-100); signal := Long |}
  /\ reconciled_ledger (Fin 0) (Fin 0) = None
  /\ reconciled_ledger (Fin 10) (Fin 100)
     = Some {| drift := Fin 10; kmno := Fin 100; signal := Flat |}.
Proof.
  split; [| repeat split].
  intros env g positions a b Hp Hscan out ledger.
  assert (Hout : out = (Ok tt, with_position g (reconciled_ledger (Fin a) (Fin b)),
             [Do (Log LInfo
                    match reconciled_ledger (Fin a) (Fin b) with
                    | Some p => ReconcileRestored (drift p) (kmno p) (signal p)
                    | None => ReconcileNoPositions
                    end)])).
  { unfold out, reconcilePositionState. cbn [SIMULATION_MODE].
    rewrite Hp, Hscan. unfold ProcM.bind, ProcM.set_position, plog, ProcM.emit.
    destruct (reconciled_ledger (Fin a) (Fin b)); reflexivity. }
  unfold ledger. rewrite Hout. cbn [fst snd with_position currentPosition].
  split; [reflexivity |].
  split.
  { unfold surfaced. cbn [fst snd]. intros [(e & He) | [Hs | Ha]].
    - discriminate.
    - apply Hs. reflexivity.
    - discriminate. }
  split; [reflexivity |].
  apply reconciled_ledger_cases.
Qed.


(* ------------------------------------------------------------------ *)
(** ** Single flight *)

Lemma cycle_run_lowers_flag (env : Env) (g : Globals) :
  isCycleRunning (fst (cycle_run env g)) = false.
Proof.
  unfold cycle_run. destruct (cycle_try env g) as [[r g1] t]. reflexivity.
Qed.

Lemma occur_keeps_single_flight (s : System) (o : Occurrence) :
  single_flight s -> single_flight (occur s o).
Proof.
  intros [(Hflag & Hnone) | (Hflag & env0 & Hone)]; destruct o as [env | i];
    unfold occur, cycle_enter.
  - rewrite Hflag. right. cbn [globals inFlight isCycleRunning].
    split; [reflexivity |]. exists env. rewrite Hnone. reflexivity.
  - rewrite Hnone. destruct i; cbn [nth_error]; left; split; assumption.
  - rewrite Hflag. right. cbn [globals inFlight].
    split; [exact Hflag |]. exists env0. exact Hone.
  - rewrite Hone. destruct i as [| i]; cbn [nth_error].
    + pose proof (cycle_run_lowers_flag env0 (globals s)) as Hlow.
      destruct (cycle_run env0 (globals s)) as [g2 t].
      left. cbn [globals inFlight remove_nth fst] in *. split; [exact Hlow | reflexivity].
    + destruct i; cbn [nth_error]; right; split; try exact Hflag;
        exists env0; exact Hone.
Qed.

Lemma run_keeps_single_flight (os : list Occurrence) :
  forall s, single_flight s -> single_flight (run_system s os).
Proof.
  induction os as [| o os IH]; intros s Hs; [exact Hs |].
  cbn [run_system fold_left]. apply IH. apply occur_keeps_single_flight. exact Hs.
Qed.

(** Invocations that arrive while a cycle runs leave the globals and the
    bodies in flight as they are, and emit no order. *)
Lemma overlapping_invocations_skipped (overlapping : list Env) :
  forall s,
    isCycleRunning (globals s) = true ->
    let s' := run_system s (map Invoke overlapping) in
    globals s' = globals s
    /\ inFlight s' = inFlight s
    /\ submissions (emitted s') = submissions (emitted s).
Proof.
  induction overlapping as [| env rest IH]; intros s Hflag.
  - repeat split.
  - cbn [map run_system fold_left]. cbv zeta.
    set (s1 := occur s (Invoke env)).
    assert (H1 : globals s1 = globals s /\ inFlight s1 = inFlight s
                 /\ submissions (emitted s1) = submissions (emitted s)).
    { unfold s1, occur, cycle_enter. rewrite Hflag. cbn [globals inFlight emitted].
      repeat split. rewrite submissions_app. cbn. apply app_nil_r. }
    destruct H1 as (Hg & Hf & He).
    assert (Hflag1 : isCycleRunning (globals s1) = true) by (rewrite Hg; exact Hflag).
    destruct (IH s1 Hflag1) as (Hg' & Hf' & He').
    unfold run_system in *.
    rewrite Hg', Hf', He', Hg, Hf, He. repeat split.
Qed.

(** C3. An invocation of the cycle that finds [isCycleRunning] set returns
    at once: it logs the skip, submits no order, and leaves the ledger, the
    cycle count and the flag as they were.  Whatever the sequence of timer
    ticks and completions, at most one cycle body is in flight, and it is in
    flight exactly while the flag is set.  A cycle overlapped by any number
    of such invocations ends with the same globals and the same order
    submissions as the cycle run alone. *)
Theorem overlapping_cycle_is_skipped :
  (forall (env : Env) (g : Globals),
      isCycleRunning g = true ->
      executeTradingCycle env g
      = (g, [Do (Log LWarn (CycleSkipped (cycleCount g + 1)))])
      /\ submissions (snd (executeTradingCycle env g)) = [])
  /\ (forall (ledger : option Position) (os : list Occurrence),
         let s := run_system (started ledger) os in
         (List.length (inFlight s) <= 1)%nat
         /\ (isCycleRunning (globals s) = true <-> List.length (inFlight s) = 1%nat))
  /\ (forall (g : Globals) (env : Env) (overlapping : list Env),
         isCycleRunning g = false ->
         let s := run_system {| globals := g; inFlight := []; emitted := [] |}
                    (Invoke env :: map Invoke overlapping ++ [Complete 0]) in
         globals s = fst (executeTradingCycle env g)
         /\ inFlight s = []
         /\ submissions (emitted s) = submissions (snd (executeTradingCycle env g))).
Proof.
  split; [| split].
  - intros env g Hflag. unfold executeTradingCycle, cycle_enter. rewrite Hflag.
    split; reflexivity.
  - intros ledger os s.
    assert (H : single_flight s).
    { apply run_keeps_single_flight. left. split; reflexivity. }
    destruct H as [(Hflag & Hnone) | (Hflag & env & Hone)].
    + rewrite Hflag, Hnone. cbn. split; [lia |]. split; discriminate.
    + rewrite Hflag, Hone. cbn. split; [lia |]. split; reflexivity.
  - intros g env overlapping Hidle s.
    unfold s, run_system. cbn [fold_left]. rewrite fold_left_app.
    assert (E : occur {| globals := g; inFlight := []; emitted := [] |} (Invoke env)
                = {| globals := entered g; inFlight := [env];
                     emitted := [Do (Log LInfo (CycleStarting (cycleCount g + 1)))] |}).
    { unfold occur, cycle_enter. cbn [globals]. rewrite Hidle. reflexivity. }
    rewrite E. clear E.
    set (s1 := {| globals := entered g; inFlight := [env]; emitted := _ |}).
    destruct (overlapping_invocations_skipped overlapping s1 eq_refl)
      as (Hg & Hf & He).
    unfold run_system in Hg, Hf, He.
    set (s2 := fold_left occur (map Invoke overlapping) s1) in *.
    cbn [fold_left]. unfold occur. rewrite Hf. cbn [inFlight s1 nth_error].
    rewrite Hg. cbn [globals s1].
    unfold executeTradingCycle, cycle_enter. rewrite Hidle. fold (entered g).
    destruct (cycle_run env (entered g)) as [g2 t].
    cbn [globals inFlight emitted remove_nth fst snd].
    split; [reflexivity |]. split; [reflexivity |].
    rewrite !submissions_app, He. reflexivity.
Qed.

(* ------------------------------------------------------------------ *)
(** ** Which bar the cycle reads *)

(** The cycle reads element [SIGNAL_LAG_PERIODS] of each returned sequence;
    of the [SIGNAL_LAG_PERIODS + 1] bars it asks for, ordered oldest first,
    that is the newest one. *)
Lemma lag_index_is_newest (bars : list CandleData) (d : CandleData) :
  List.length bars = S SIGNAL_LAG_PERIODS ->
  nth_error bars SIGNAL_LAG_PERIODS = Some (last bars d)
  /\ lagged_bar SIGNAL_LAG_PERIODS bars = nth_error bars 0.
Proof.
  unfold SIGNAL_LAG_PERIODS, lagged_bar.
  destruct bars as [| b0 [| b1 [| b2 [| b3 rest]]]]; try discriminate.
  intros _. split; reflexivity.
Qed.

(** C4, at the failing input.  The API returns three bars per instrument,
    oldest first; the ledger is short.  The bar two periods old has a
    negative spread (signal +1, a flip); the newest bar has a positive
    spread (signal -1).  The cycle reports the newest bar's prices and
    signal -1, holds the short position and submits nothing. *)
Theorem cycle_signal_reads_newest_bar :
  let env := calm_env [] drift_bars kmno_bars deep_book in
  let out := executeTradingCycle env (idle (Some (opened_position Short)) 0) in
  fst (fetchCandleData env "DRIFT-PERP") = Ok drift_bars
  /\ fst (fetchCandleData env "KMNO-PERP") = Ok kmno_bars
  /\ lagged_bar SIGNAL_LAG_PERIODS drift_bars = Some (mkCandle (Fin 1))
  /\ lagged_bar SIGNAL_LAG_PERIODS kmno_bars = Some (mkCandle (Fin 0.2))
  /\ signal_of_spread (spread_of (Fin 1) (Fin 0.2)) = Long
  /\ last drift_bars (mkCandle NaN) = mkCandle (Fin 3)
  /\ signal_of_spread (spread_of (Fin 3) (Fin 0.2)) = Short
  /\ In (Do (Log LInfo (MarketSnapshot (Fin 3) (Fin 0.2)
                          (spread_of (Fin 3) (Fin 0.2)) Short)))
        (snd out)
  /\ In (Do (Log LInfo (StrategyHolding Short))) (snd out)
  /\ submissions (snd out) = []
  /\ currentPosition (fst out) = Some (opened_position Short).
Proof.
  cbv zeta. repeat split; try (vm_compute; reflexivity).
  - right. right. left. reflexivity.
  - right. right. right. left. reflexivity.
Qed.

(* ------------------------------------------------------------------ *)
(** ** Instances *)

(** A wrapped function failing twice and then succeeding: the sleeps are
    1000 ms and 2000 ms and the third result is returned. *)
Lemma retry_backoff_three_attempts_instance :
  retryWithBackoff third_time_lucky MAX_RETRIES =
  (Ok "result"%string,
   [Log LWarn (RetryAttemptFailed 1 3 1000 (Thrown "unavailable")); Sleep 1000;
    Log LWarn (RetryAttemptFailed 2 3 2000 (Thrown "unavailable")); Sleep 2000])
  /\ sleeps (snd (retryWithBackoff third_time_lucky MAX_RETRIES)) = [1000; 2000]%Z.
Proof.
  assert (H := retry_backoff_three_attempts string third_time_lucky
                 (Thrown "unavailable") [] (Err (Thrown "unavailable")) []
                 (Ok "result"%string) [] eq_refl eq_refl eq_refl).
  split; [exact H | rewrite H; reflexivity].
Defined.



(** An invocation that finds the flag set. *)
Lemma overlapping_cycle_is_skipped_instance :
  executeTradingCycle (calm_env [] drift_bars kmno_bars deep_book)
    {| currentPosition := None; isCycleRunning := true; cycleCount := 7 |}
  = ({| currentPosition := None; isCycleRunning := true; cycleCount := 7 |},
     [Do (Log LWarn (CycleSkipped 8))]).
Proof.
  exact (proj1 (proj1 overlapping_cycle_is_skipped
                  (calm_env [] drift_bars kmno_bars deep_book)
                  {| currentPosition := None; isCycleRunning := true; cycleCount := 7 |}
                  eq_refl)).
Defined.

(** Venue legs {+10, -100}: the ledger takes signal +1. *)
Lemma reconciliation_maps_legs_to_signal_instance :
  exists p : Position,
    currentPosition
      (snd (fst (reconcilePositionState
                   (calm_env long_spread_legs [] [] deep_book) (idle None 0))))
    = Some p
    /\ signal p = Long.
Proof.
  destruct (proj1 reconciliation_maps_legs_to_signal
              (calm_env long_spread_legs [] [] deep_book) (idle None 0)
              long_spread_legs
              (inject_Z 10000000000 / 1000000000)
              (inject_Z (-100000000000) / 1000000000)
              eq_refl eq_refl)
    as (_ & _ & _ & Hlong & _).
  eexists. split; [apply Hlong; split; reflexivity | reflexivity].
Defined.

(* ------------------------------------------------------------------ *)
(** ** Where reconciliation departs from the specification *)

(** Venue legs {+10, +100}: reconciliation resolves, submits nothing, logs
    one info line, and writes a ledger with signal 0 and both legs. *)
Lemma reconciliation_same_sign_not_surfaced :
  let out := reconcilePositionState
               (calm_env same_sign_legs [] [] deep_book) (idle None 0) in
  ~ surfaced out
  /\ exists p : Position,
       currentPosition (snd (fst out)) = Some p
       /\ signal p = Flat
       /\ drift p =n= Fin 10
       /\ kmno p =n= Fin 100.
Proof.
  cbv zeta. split.
  - unfold surfaced. intros [(e & He) | [Hs | Ha]].
    + vm_compute in He. discriminate He.
    + apply Hs. vm_compute. reflexivity.
    + vm_compute in Ha. discriminate Ha.
  - eexists. split; [vm_compute; reflexivity |].
    split; [reflexivity |]. split; vm_compute; reflexivity.
Qed.


(** A long spread, a short signal, and a venue that confirms the DRIFT
    close and rejects every attempt at the KMNO close. *)
Lemma partial_close_leaves_ledger_unadvanced_instance :
  let env := one_leg_env drift_bars kmno_bars deep_book in
  let out := executeTradingCycle env (idle (Some (opened_position Long)) 0) in
  currentPosition (fst out) = Some (opened_position Long)
  /\ confirmed_in (snd out) (closing_order "DRIFT" (drift (opened_position Long)))
  /\ forall x, In x (submissions (snd out)) -> reduceOnly (fst x) = true.
Proof.
  cbv zeta.
  assert (Hflip : signal (opened_position Long) <> Short) by (intro H; discriminate H).
  assert (HinA : In (closing_order "DRIFT" (drift (opened_position Long)))
                    (closing_orders (opened_position Long)))
    by (left; reflexivity).
  assert (HinB : In (closing_order "KMNO" (kmno (opened_position Long)))
                    (closing_orders (opened_position Long)))
    by (right; left; reflexivity).
  assert (HA : venue_confirms (one_leg_env drift_bars kmno_bars deep_book)
                 (closing_order "DRIFT" (drift (opened_position Long)))).
  { exists 1%nat, "signature"%string. split; [unfold MAX_RETRIES; lia |].
    split; [reflexivity |]. intros j Hj. lia. }
  assert (HB : venue_exhausts (one_leg_env drift_bars kmno_bars deep_book)
                 (closing_order "KMNO" (kmno (opened_position Long)))).
  { intros k _. eexists. reflexivity. }
  destruct (partial_close_leaves_ledger_unadvanced
              (one_leg_env drift_bars kmno_bars deep_book)
              (idle (Some (opened_position Long)) 0)
              (opened_position Long) Short drift_bars kmno_bars
              (mkCandle (Fin 3)) (mkCandle (Fin 0.2))
              eq_refl eq_refl eq_refl eq_refl eq_refl eq_refl eq_refl Hflip
              (closing_order "DRIFT" (drift (opened_position Long)))
              (closing_order "KMNO" (kmno (opened_position Long)))
              (mkMarket 0 "DRIFT") HinA HinB eq_refl HA HB)
    as (e & Hrun & Hconf & _ & Hclose & _).
  split; [rewrite Hrun; reflexivity |].
  split; [exact Hconf |].
  intros x Hx. apply (proj1 (Hclose x Hx)).
Defined.

(** A long spread, a short signal, a deep book and a venue that confirms
    every order. *)
Lemma flip_closes_before_opening_instance :
  let env := calm_env [] drift_bars kmno_bars deep_book in
  let out := executeTradingCycle env (idle (Some (opened_position Long)) 0) in
  closing_orders (opened_position Long)
  = [closing_order "DRIFT" (drift (opened_position Long));
     closing_order "KMNO" (kmno (opened_position Long))]
  /\ (currentPosition (fst out) = Some (opened_position Long)
      \/ currentPosition (fst out) = None
      \/ currentPosition (fst out) = Some (opened_position Short)).
Proof.
  cbv zeta.
  assert (Hflip : signal (opened_position Long) <> Short) by (intro H; discriminate H).
  assert (Hheld : signal (opened_position Long) <> Flat) by (intro H; discriminate H).
  assert (Hlong : Long <> Flat) by (intro H; discriminate H).
  pose proof (flip_closes_before_opening
                (calm_env [] drift_bars kmno_bars deep_book)
                (idle (Some (opened_position Long)) 0)
                (opened_position Long) Short drift_bars kmno_bars
                (mkCandle (Fin 3)) (mkCandle (Fin 0.2))
                eq_refl eq_refl eq_refl eq_refl eq_refl eq_refl eq_refl Hflip
                Hheld (opened_position_invariant Long Hlong)) as H.
  cbv zeta in H. destruct H as (Htwo & _ & _ & _ & Hledger).
  split; [exact Htwo | exact Hledger].
Defined.

(* ================================================================== *)
(** * Further properties of the code *)

(* ------------------------------------------------------------------ *)
(** ** retryWithBackoff for any number of attempts *)

Lemma sleeps_app (a b : list Step) : sleeps (a ++ b) = sleeps a ++ sleeps b.
Proof.
  induction a as [| s a IH]; [reflexivity |].
  destruct s; cbn [app sleeps]; rewrite IH; reflexivity.
Qed.

(** The loop from [attempt] on: it settles with the first attempt that
    fulfils, or with the last one. *)
Lemma retry_from_closed_form T (fn : nat -> Task T) (maxRetries : nat) :
  forall remaining attempt : nat,
    (attempt + remaining = S maxRetries)%nat ->
    (0 < remaining)%nat ->
    exists k : nat,
      (attempt <= k <= maxRetries)%nat
      /\ (forall j, (attempt <= j < k)%nat -> exists e, fst (fn j) = Err e)
      /\ (k = maxRetries \/ exists v, fst (fn k) = Ok v)
      /\ retry_from fn maxRetries attempt remaining
         = (fst (fn k),
            flat_map (failed_attempt fn maxRetries) (seq attempt (k - attempt))
            ++ snd (fn k)).
Proof.
  induction remaining as [| remaining IH]; intros attempt Hsum Hpos; [lia |].
  destruct (fn attempt) as [[v | e] t] eqn:Hfn.
  - exists attempt. split; [lia |]. split; [intros j Hj; lia |].
    split; [right; exists v; rewrite Hfn; reflexivity |].
    rewrite (retry_from_fulfilled T fn maxRetries attempt remaining v t Hfn).
    rewrite Hfn, Nat.sub_diag. reflexivity.
  - destruct (Nat.eq_dec attempt maxRetries) as [Heq | Hne].
    + exists attempt. split; [lia |]. split; [intros j Hj; lia |].
      split; [left; exact Heq |].
      subst attempt.
      rewrite (retry_from_last T fn maxRetries remaining (Err e) t Hfn).
      rewrite Hfn, Nat.sub_diag. reflexivity.
    + destruct (IH (S attempt)) as (k & Hk & Hbefore & Hlast & Hrun); [lia | lia |].
      exists k. split; [lia |].
      split.
      { intros j Hj. destruct (Nat.eq_dec j attempt) as [-> | Hj'].
        - exists e. rewrite Hfn. reflexivity.
        - apply Hbefore. lia. }
      split; [exact Hlast |].
      rewrite (retry_from_failed T fn maxRetries attempt remaining e t Hfn Hne).
      cbv zeta. rewrite Hrun.
      replace (k - attempt)%nat with (S (k - S attempt)) by lia.
      cbn [seq flat_map]. unfold failed_attempt at 2. rewrite Hfn. cbn [fst snd].
      fold (backoff_delay attempt). rewrite <- !app_assoc. reflexivity.
Qed.

(** X1. [retryWithBackoff] for any budget.  With a budget of zero the
    wrapped function is never called and the promise rejects with "Retry
    logic failed unexpectedly".  With a budget of [n >= 1] there is an
    attempt [k <= n], the first that fulfils or else the last, whose
    outcome (value, or error unchanged) is the outcome of the whole; every
    earlier attempt rejected and was followed by one warning and one sleep
    of [1000 * 2^(j-1)] ms; nothing follows attempt [k]. *)
Theorem retry_settles_with_first_success_or_last_attempt
  T (fn : nat -> Task T) (maxRetries : nat) :
  (maxRetries = 0%nat /\ retryWithBackoff fn maxRetries = (Err RetryLogicFailed, []))
  \/ exists k : nat,
       (1 <= k <= maxRetries)%nat
       /\ (forall j, (1 <= j < k)%nat -> exists e, fst (fn j) = Err e)
       /\ (k = maxRetries \/ exists v, fst (fn k) = Ok v)
       /\ retryWithBackoff fn maxRetries
          = (fst (fn k),
             flat_map (failed_attempt fn maxRetries) (seq 1 (k - 1)) ++ snd (fn k)).
Proof.
  destruct maxRetries as [| m]; [left; split; reflexivity | right].
  unfold retryWithBackoff.
  apply (retry_from_closed_form T fn (S m) (S m) 1); lia.
Qed.

Lemma total_app (a b : list Z) : total (a ++ b) = (total a + total b)%Z.
Proof.
  unfold total. induction a as [| x a IH]; cbn [app fold_right]; [reflexivity |].
  rewrite IH. lia.
Qed.

Lemma total_backoff_schedule (failures : nat) :
  total (backoff_schedule failures) = (1000 * (2 ^ Z.of_nat failures - 1))%Z.
Proof.
  unfold backoff_schedule.
  induction failures as [| m IH]; [reflexivity |].
  rewrite seq_S, map_app, total_app, IH. cbn [map total fold_right].
  unfold backoff_delay, RETRY_DELAY_MS.
  replace (Z.of_nat (1 + m) - 1)%Z with (Z.of_nat m) by lia.
  rewrite Nat2Z.inj_succ, Z.pow_succ_r by lia. lia.
Qed.

(** The sleeps of consecutive failed attempts of a function that does not
    sleep itself. *)
Lemma sleeps_failed_attempts T (fn : nat -> Task T) (maxRetries : nat) :
  (forall j, sleeps (snd (fn j)) = []) ->
  forall count first : nat,
    (forall j, (first <= j < first + count)%nat -> exists e, fst (fn j) = Err e) ->
    sleeps (flat_map (failed_attempt fn maxRetries) (seq first count))
    = map backoff_delay (seq first count).
Proof.
  intros Hquiet. induction count as [| count IH]; intros first Hfail; [reflexivity |].
  cbn [seq flat_map map]. rewrite sleeps_app.
  rewrite (IH (S first)) by (intros j Hj; apply Hfail; lia).
  destruct (Hfail first) as (e & He); [lia |].
  unfold failed_attempt. rewrite He, sleeps_app, Hquiet. reflexivity.
Qed.

(** X2. The waiting that [retryWithBackoff] asks for around a function
    that does not sleep itself: the delays passed to [sleep] are 1000, 2000,
    4000, ... ms, one per failed attempt that is followed by another; with
    [f] such failures they add up to [1000 * (2^f - 1)] ms, so a budget of
    [n] attempts asks for at most [1000 * (2^(n-1) - 1)] ms in total. *)
Theorem retry_backoff_doubles_and_is_bounded
  T (fn : nat -> Task T) (maxRetries : nat) :
  (forall j, sleeps (snd (fn j)) = []) ->
  exists failures : nat,
    (failures <= maxRetries - 1)%nat
    /\ sleeps (snd (retryWithBackoff fn maxRetries)) = backoff_schedule failures
    /\ total (sleeps (snd (retryWithBackoff fn maxRetries)))
       = (1000 * (2 ^ Z.of_nat failures - 1))%Z
    /\ (total (sleeps (snd (retryWithBackoff fn maxRetries)))
        <= 1000 * (2 ^ Z.of_nat (maxRetries - 1) - 1))%Z.
Proof.
  intros Hquiet.
  assert (K : exists failures : nat,
             (failures <= maxRetries - 1)%nat
             /\ sleeps (snd (retryWithBackoff fn maxRetries)) = backoff_schedule failures).
  { destruct maxRetries as [| m]; [exists 0%nat; split; [lia | reflexivity] |].
    unfold retryWithBackoff.
    destruct (retry_from_closed_form T fn (S m) (S m) 1)
      as (k & Hk & Hbefore & _ & Hrun); [lia | lia |].
    exists (k - 1)%nat. split; [lia |].
    rewrite Hrun. cbn [snd]. rewrite sleeps_app, Hquiet, app_nil_r.
    apply sleeps_failed_attempts; [exact Hquiet |].
    intros j Hj. apply Hbefore. lia. }
  destruct K as (failures & Hle & Hs).
  exists failures. split; [exact Hle |]. split; [exact Hs |].
  rewrite Hs, total_backoff_schedule. split; [reflexivity |].
  assert (2 ^ Z.of_nat failures <= 2 ^ Z.of_nat (maxRetries - 1))%Z
    by (apply Z.pow_le_mono_r; lia).
  lia.
Qed.

(* ------------------------------------------------------------------ *)
(** ** fetchCandleData *)

(** X3. [fetchCandleData] asks the candle API for the three newest bars of
    the symbol, up to three times: it resolves with the records of the first
    reply that is ok, and after three replies that are not it rejects with
    the third failure ("API error: <status>" for a response that is not ok,
    the transport error otherwise).  It makes one request per attempt and
    none after the first ok reply. *)
Theorem fetchCandleData_returns_first_ok_reply (env : Env) (symbol : string) :
  exists k : nat,
    (1 <= k <= MAX_RETRIES)%nat
    /\ requests (snd (fetchCandleData env symbol))
       = repeat (CandlesRequest symbol (SIGNAL_LAG_PERIODS + 1)) k
    /\ (forall j, (1 <= j < k)%nat -> is_body (candles env symbol j) = false)
    /\ match candles env symbol k with
       | Body records => fst (fetchCandleData env symbol) = Ok records
       | NotOk status =>
           k = MAX_RETRIES /\ fst (fetchCandleData env symbol) = Err (ApiError status)
       | Unreachable e =>
           k = MAX_RETRIES /\ fst (fetchCandleData env symbol) = Err e
       end.
Proof.
  unfold fetchCandleData, retryWithBackoff, MAX_RETRIES.
  cbn [retry_from]. unfold TaskM.catch, TaskM.bind, TaskM.emit, TaskM.throw, TaskM.ret, log, sleep.
  assert (Hcut : forall (k : nat) (P : nat -> Prop),
             (forall j, (1 <= j < k)%nat -> P j) ->
             P k -> forall j, (1 <= j < S k)%nat -> P j).
  { intros k P Hlt Hk j Hj. destruct (Nat.eq_dec j k) as [-> | Hne];
      [exact Hk | apply Hlt; lia]. }
  destruct (candles env symbol 1) as [e1 | s1 | r1] eqn:H1.
  1, 2: destruct (candles env symbol 2) as [e2 | s2 | r2] eqn:H2.
  1, 2, 4, 5: destruct (candles env symbol 3) as [e3 | s3 | r3] eqn:H3.
  all: cbn [Nat.eqb fst snd app].
  all: first
    [ exists 1%nat; rewrite H1; split; [lia |]; split; [reflexivity |];
      split; [intros j Hj; lia | reflexivity]
    | exists 2%nat; rewrite H2; split; [lia |]; split; [reflexivity |];
      split; [| reflexivity];
      apply (Hcut 1%nat); [intros j Hj; lia | rewrite H1; reflexivity]
    | exists 3%nat; rewrite H3; split; [lia |]; split; [reflexivity |];
      split; [| first [reflexivity | split; reflexivity]];
      apply (Hcut 2%nat); [| rewrite H2; reflexivity];
      apply (Hcut 1%nat); [intros j Hj; lia | rewrite H1; reflexivity] ].
Qed.

(* ------------------------------------------------------------------ *)
(** ** checkLiquidity: failures, and what the answer means *)

Lemma logs_only_quiet (t : list Step) :
  forallb is_log t = true -> requests t = [] /\ orders_of t = [] /\ sleeps t = [].
Proof.
  induction t as [| s t IH]; [repeat split |].
  cbn [forallb]. intros H. apply andb_true_iff in H. destruct H as (Hs & Ht).
  destruct (IH Ht) as (A & B & C).
  destruct s; try discriminate. cbn [requests sleeps]. repeat split; assumption.
Qed.

Lemma walk_depth_logs (sym : string) (orderSize : number) (orders : list L2Level) :
  forall acc, forallb is_log (snd (walk_depth sym orderSize orders acc)) = true.
Proof.
  induction orders as [| o rest IH]; intros acc; [reflexivity |].
  cbn [walk_depth]. cbv zeta.
  destruct (totalSize (fill_level orderSize acc o) >=? orderSize)%num; [reflexivity |].
  specialize (IH (fill_level orderSize acc o)).
  destruct (walk_depth sym orderSize rest (fill_level orderSize acc o)) as [final lines].
  cbn [snd forallb is_log andb] in *. exact IH.
Qed.

Lemma assess_book_logs (sym : string) (side : Side) (orderSize : number) (data : L2Data) :
  forallb is_log (snd (assess_book sym side orderSize data)) = true.
Proof.
  unfold assess_book.
  pose proof (walk_depth_logs sym orderSize (book_side data side)
                {| totalSize := Fin 0; totalValue := Fin 0 |}) as H.
  destruct (walk_depth sym orderSize (book_side data side) _) as [final lines].
  cbn [snd] in H.
  destruct (totalSize final <? orderSize)%num; cbn [snd forallb is_log andb];
    rewrite forallb_app, H; reflexivity.
Qed.

Lemma abs_not_negative (a : number) : (Num.abs a <? Fin 0)%num = false.
Proof.
  destruct a as [x | | |]; try reflexivity.
  cbn [Num.abs]. apply ltb_fin_false. apply Qabs_nonneg.
Qed.

(** The answer of the assessment: a refusal carries infinite slippage, and
    the slippage is never negative. *)
Lemma assess_book_answer (sym : string) (side : Side) (orderSize : number)
  (data : L2Data) :
  let r := fst (assess_book sym side orderSize data) in
  (canFill r = false -> estimatedSlippage r = PosInf)
  /\ (estimatedSlippage r <? Fin 0)%num = false.
Proof.
  unfold assess_book.
  destruct (walk_depth sym orderSize (book_side data side) _) as [final lines].
  destruct (totalSize final <? orderSize)%num; cbn [fst canFill estimatedSlippage].
  - split; reflexivity.
  - split; [discriminate | apply abs_not_negative].
Qed.

(** X4. [checkLiquidity] never rejects.  It makes exactly one request, for
    the L2 book of the market; it submits no order and never sleeps.  When
    the request fails or the response is not ok it logs the error and
    answers "cannot fill, infinite slippage".  In every case an answer that
    cannot fill carries infinite slippage, and the slippage is never
    negative. *)
Theorem checkLiquidity_never_rejects
  (env : Env) (sym : string) (side : Side) (orderSize : number) :
  exists (r : Liquidity) (t : list Step),
    checkLiquidity env sym side orderSize = (Ok r, t)
    /\ requests t = [L2Request sym]
    /\ orders_of t = []
    /\ sleeps t = []
    /\ (canFill r = false -> estimatedSlippage r = PosInf)
    /\ (estimatedSlippage r <? Fin 0)%num = false
    /\ (is_body (l2 env sym) = false ->
        r = no_liquidity
        /\ exists e, t = [HttpGet (L2Request sym);
                          Log LError (LiquidityCheckFailed sym side e)]).
Proof.
  unfold checkLiquidity. destruct (l2 env sym) as [e | status | data].
  - eexists _, _. split; [reflexivity |]. repeat split. eexists. reflexivity.
  - eexists _, _. split; [reflexivity |]. repeat split. eexists. reflexivity.
  - pose proof (assess_book_logs sym side orderSize data) as Hlogs.
    pose proof (assess_book_answer sym side orderSize data) as Hanswer.
    destruct (assess_book sym side orderSize data) as [result steps].
    cbn [fst snd] in *. cbv zeta in Hanswer. destruct Hanswer as (Hinf & Hnonneg).
    destruct (logs_only_quiet steps Hlogs) as (A & B & C).
    exists result, (HttpGet (L2Request sym) :: steps).
    split; [reflexivity |]. cbn [requests sleeps]. rewrite A, C.
    split; [reflexivity |]. split; [exact B |]. split; [reflexivity |].
    split; [exact Hinf |]. split; [exact Hnonneg |].
    cbn [is_body]. discriminate.
Qed.

Lemma depth_of_nonneg (orders : list L2Level) :
  (forall o, In o orders -> 0 <= size o) -> 0 <= depth_of orders.
Proof.
  induction orders as [| o rest IH]; intros H; cbn [depth_of fold_right]; [lra |].
  fold (depth_of rest).
  assert (0 <= size o) by (apply H; left; reflexivity).
  assert (0 <= depth_of rest) by (apply IH; intros x Hx; apply H; right; exact Hx).
  assert (0 <= size o / 1000000000).
  { unfold Qdiv. apply Qmult_le_0_compat; [assumption |]. 
    apply Qlt_le_weak. reflexivity. }
  lra.
Qed.

Lemma walk_depth_total (sym : string) (required : Q) (orders : list L2Level) :
  (forall o, In o orders -> 0 <= size o) ->
  forall ts tv : Q,
    ts <= required ->
    exists filled notional : Q,
      fst (walk_depth sym (Fin required) orders
             {| totalSize := Fin ts; totalValue := Fin tv |})
        = {| totalSize := Fin filled; totalValue := Fin notional |}
      /\ filled == Qmin required (ts + depth_of orders).
Proof.
  induction orders as [| o rest IH]; intros Hsizes ts tv Hts.
  - exists ts, tv. split; [reflexivity |]. cbn [depth_of fold_right].
    destruct (Q.min_spec required (ts + 0)) as [[? E] | [? E]]; rewrite E; lra.
  - assert (Ho : 0 <= size o / 1000000000).
    { unfold Qdiv. apply Qmult_le_0_compat;
        [apply Hsizes; left; reflexivity | apply Qlt_le_weak; reflexivity]. }
    assert (Hrest : forall x, In x rest -> 0 <= size x)
      by (intros x Hx; apply Hsizes; right; exact Hx).
    pose proof (depth_of_nonneg rest Hrest) as Hd.
    cbn [walk_depth]. rewrite fill_level_fin. cbn zeta. cbn [totalSize].
    cbn [depth_of fold_right]. fold (depth_of rest).
    set (s := size o / 1000000000) in *.
    set (f := Qmin s (required - ts)).
    assert (Hf : (s < required - ts /\ f == s) \/ (required - ts <= s /\ f == required - ts))
      by apply Q.min_spec.
    destruct (Fin (ts + f) >=? Fin required)%num eqn:Hge.
    + apply geb_fin in Hge.
      exists (ts + f), (tv + f * (price o / 1000000)). split; [reflexivity |].
      destruct (Q.min_spec required (ts + (s + depth_of rest))) as [[? E] | [? E]];
        rewrite E; destruct Hf as [[? Ef] | [? Ef]]; lra.
    + apply geb_fin_false in Hge.
      destruct (IH Hrest (ts + f) (tv + f * (price o / 1000000))) as (filled & notional & Hfin & Hfilled);
        [destruct Hf as [[? Ef] | [? Ef]]; lra |].
      destruct (walk_depth sym (Fin required) rest _) as [final lines].
      cbn [fst] in *. exists filled, notional. split; [exact Hfin |].
      rewrite Hfilled.
      destruct (Q.min_spec required (ts + f + depth_of rest)) as [[? E] | [? E]];
        rewrite E;
        destruct (Q.min_spec required (ts + (s + depth_of rest))) as [[? E'] | [? E']];
        rewrite E'; destruct Hf as [[? Ef] | [? Ef]]; lra.
Qed.



Lemma walk_depth_band (sym : string) (required best band : Q) (unused : list L2Level) :
  forall (used : list L2Level) (ts tv : Q),
    ts < required ->
    required <= ts + depth_of used ->
    (forall o, In o used ->
       0 <= size o
       /\ (1 - band) * best <= price o / 1000000 <= (1 + band) * best) ->
    exists filled notional : Q,
      fst (walk_depth sym (Fin required) (used ++ unused)
             {| totalSize := Fin ts; totalValue := Fin tv |})
        = {| totalSize := Fin filled; totalValue := Fin notional |}
      /\ filled == required
      /\ (tv - best * ts) - band * best * (filled - ts) <= notional - best * filled
      /\ notional - best * filled <= (tv - best * ts) + band * best * (filled - ts).
Proof.
  induction used as [| o used IH]; intros ts tv Hts Hdepth Hband.
  - cbn [depth_of fold_right] in Hdepth. lra.
  - destruct (Hband o) as (Hsize & Hlo & Hhi); [left; reflexivity |].
    assert (Ho : 0 <= size o / 1000000000).
    { unfold Qdiv. apply Qmult_le_0_compat;
        [exact Hsize | apply Qlt_le_weak; reflexivity]. }
    cbn [app walk_depth]. rewrite fill_level_fin. cbn zeta. cbn [totalSize].
    cbn [depth_of fold_right] in Hdepth. fold (depth_of used) in Hdepth.
    set (s := size o / 1000000000) in *.
    set (p := price o / 1000000) in *.
    set (f := Qmin s (required - ts)).
    assert (Hf : (s < required - ts /\ f == s) \/ (required - ts <= s /\ f == required - ts))
      by apply Q.min_spec.
    assert (Hf0 : 0 <= f) by (destruct Hf as [[? Ef] | [? Ef]]; lra).
    assert (Hlo' : - (band * best * f) <= f * p - best * f) by nra.
    assert (Hhi' : f * p - best * f <= band * best * f) by nra.
    destruct (Fin (ts + f) >=? Fin required)%num eqn:Hge.
    + apply geb_fin in Hge.
      exists (ts + f), (tv + f * p). split; [reflexivity |].
      split; [destruct Hf as [[? Ef] | [? Ef]]; lra |].
      split; lra.
    + apply geb_fin_false in Hge.
      destruct (IH (ts + f) (tv + f * p)) as (filled & notional & Hfin & Hfilled & Hl & Hh).
      * exact Hge.
      * destruct Hf as [[? Ef] | [? Ef]]; lra.
      * intros x Hx. apply Hband. right. exact Hx.
      * destruct (walk_depth sym (Fin required) (used ++ unused) _) as [final lines].
        cbn [fst] in *. exists filled, notional. split; [exact Hfin |].
        split; [exact Hfilled |]. split; lra.
Qed.



Lemma retry_backoff_doubles_and_is_bounded_instance :
  exists failures : nat,
    (failures <= 3 - 1)%nat
    /\ sleeps (snd (retryWithBackoff third_time_lucky 3)) = backoff_schedule failures
    /\ total (sleeps (snd (retryWithBackoff third_time_lucky 3)))
       = (1000 * (2 ^ Z.of_nat failures - 1))%Z
    /\ (total (sleeps (snd (retryWithBackoff third_time_lucky 3)))
        <= 1000 * (2 ^ Z.of_nat (3 - 1) - 1))%Z.
Proof.
  apply (retry_backoff_doubles_and_is_bounded string third_time_lucky 3).
  intros [| [| [| [| j]]]]; reflexivity.
Defined.

(* ------------------------------------------------------------------ *)
(** ** placeOrder *)

(** X7. An order for a market that the market map does not list is never
    sent to the venue: [placeOrder] rejects with "Market config not found".
    The lookup is nevertheless retried: three attempts, with sleeps of 1000
    and 2000 ms between them. *)
Theorem placeOrder_unlisted_market_submits_nothing (env : Env) (o : Order) :
  market_get (marketMap env) (market o) = None ->
  fst (placeOrder env o) = Err (MarketConfigNotFound (market o))
  /\ orders_of (snd (placeOrder env o)) = []
  /\ sleeps (snd (placeOrder env o)) = [1000; 2000]%Z
  /\ List.length
       (filter (fun s => match s with
                         | Log LError (OrderFailed _ _ _) => true
                         | _ => false
                         end)
               (snd (placeOrder env o))) = 3%nat.
Proof.
  intros Hm.
  unfold placeOrder, retryWithBackoff, MAX_RETRIES, log, TaskM.bind, TaskM.emit.
  cbn [SIMULATION_MODE retry_from]. rewrite !place_attempt_run, Hm.
  cbn. repeat split.
Qed.

Lemma placeOrder_unlisted_market_submits_nothing_instance :
  let o := mkOrder "BTC" LONG (Fin 1) false in
  let env := calm_env [] [] [] deep_book in
  fst (placeOrder env o) = Err (MarketConfigNotFound "BTC")
  /\ orders_of (snd (placeOrder env o)) = []
  /\ sleeps (snd (placeOrder env o)) = [1000; 2000]%Z
  /\ List.length
       (filter (fun s => match s with
                         | Log LError (OrderFailed _ _ _) => true
                         | _ => false
                         end)
               (snd (placeOrder env o))) = 3%nat.
Proof.
  exact (placeOrder_unlisted_market_submits_nothing
           (calm_env [] [] [] deep_book) (mkOrder "BTC" LONG (Fin 1) false) eq_refl).
Defined.

(** X8. What [placeOrder] sends to the venue.  Every submission is the
    order itself.  When the promise fulfils, the confirmed submission is the
    last one and at most two rejected submissions precede it: an order is
    never submitted again once it is confirmed.  When the promise rejects,
    either nothing was submitted (the market is not listed) or exactly three
    submissions were rejected and the error is that of the third. *)
Theorem placeOrder_submits_until_confirmed (env : Env) (o : Order) :
  let subs := orders_of (snd (placeOrder env o)) in
  (exists (tx : string) (errs : list Exn),
      fst (placeOrder env o) = Ok (Some tx)
      /\ (List.length errs <= 2)%nat
      /\ subs = map (rejected_submission o) errs ++ [(o, Ok tx)])
  \/ (exists e : Exn,
         fst (placeOrder env o) = Err e
         /\ ((subs = [] /\ e = MarketConfigNotFound (market o)
              /\ market_get (marketMap env) (market o) = None)
             \/ exists e1 e2, subs = map (rejected_submission o) [e1; e2; e])).
Proof.
  cbv zeta.
  unfold placeOrder, retryWithBackoff, MAX_RETRIES, log, TaskM.bind, TaskM.emit.
  cbn [SIMULATION_MODE retry_from]. rewrite !place_attempt_run.
  destruct (market_get (marketMap env) (market o)) as [mk |].
  - destruct (venue env o 1) as [tx1 | e1].
    { left. exists tx1, []. cbn. repeat split; lia. }
    destruct (venue env o 2) as [tx2 | e2].
    { left. exists tx2, [e1]. cbn. repeat split; lia. }
    destruct (venue env o 3) as [tx3 | e3].
    { left. exists tx3, [e1; e2]. cbn. repeat split; lia. }
    right. exists e3. cbn. split; [reflexivity |]. right. exists e1, e2. reflexivity.
  - right. exists (MarketConfigNotFound (market o)). cbn.
    split; [reflexivity |]. left. repeat split.
Qed.

(* ------------------------------------------------------------------ *)
(** ** openPosition *)

Lemma checkLiquidity_refusal (env : Env) (sym : string) (side : Side)
  (orderSize : number) (r : Liquidity) :
  fst (checkLiquidity env sym side orderSize) = Ok r ->
  canFill r = false -> estimatedSlippage r = PosInf.
Proof.
  unfold checkLiquidity. destruct (l2 env sym) as [e | status | data].
  - cbn [fst]. intros H _. injection H as <-. reflexivity.
  - cbn [fst]. intros H _. injection H as <-. reflexivity.
  - pose proof (assess_book_answer sym side orderSize data) as Hanswer.
    destruct (assess_book sym side orderSize data) as [result steps].
    cbn [fst] in *. intros H. injection H as <-. apply Hanswer.
Qed.

(** The validation, by the slippage of the two answers. *)
Lemma validate_liquidity_verdict (env : Env) (ds ks : Side) (g : Globals)
  (rd rk : Liquidity) :
  fst (checkLiquidity env "DRIFT-PERP" ds DRIFT_QUANTITY) = Ok rd ->
  fst (checkLiquidity env "KMNO-PERP" ks KMNO_QUANTITY) = Ok rk ->
  exists pre : list Event,
    submissions pre = []
    /\ validate_liquidity env ds ks g =
       (if (estimatedSlippage rd >? MAX_SLIPPAGE_BPS / Fin 10000)%num then
          Err (SlippageTooHigh "DRIFT" (estimatedSlippage rd)
                 (MAX_SLIPPAGE_BPS / Fin 10000)%num)
        else if (estimatedSlippage rk >? MAX_SLIPPAGE_BPS / Fin 10000)%num then
          Err (SlippageTooHigh "KMNO" (estimatedSlippage rk)
                 (MAX_SLIPPAGE_BPS / Fin 10000)%num)
        else Ok tt,
        g, pre).
Proof.
  intros Hd Hk. unfold validate_liquidity.
  destruct (checkLiquidity_resolves env "DRIFT-PERP" ds DRIFT_QUANTITY)
    as (rd' & td & Hd' & Sd).
  destruct (checkLiquidity_resolves env "KMNO-PERP" ks KMNO_QUANTITY)
    as (rk' & tk & Hk' & Sk).
  rewrite Hd' in Hd. rewrite Hk' in Hk. cbn [fst] in Hd, Hk.
  injection Hd as ->. injection Hk as ->.
  unfold ProcM.bind, plog, ProcM.emit, await_both, await_all, ProcM.throw, ProcM.ret,
    ProcM.bind.
  rewrite Hd', Hk'. unfold Promise_all. cbn [map fst snd rejected fulfilled].
  unfold orders_of in Sd, Sk.
  destruct (canFill rd), (canFill rk),
    (estimatedSlippage rd >? MAX_SLIPPAGE_BPS / Fin 10000)%num,
    (estimatedSlippage rk >? MAX_SLIPPAGE_BPS / Fin 10000)%num;
    eexists; (split; [| reflexivity]);
    unfold submissions; cbn [flat_map event_orders step_orders app];
    rewrite Sd, Sk; reflexivity.
Qed.

(** Opening for a nonzero signal, by the answers of the two checks. *)
Lemma openPosition_verdict (env : Env) (s : Signal) (g : Globals) :
  s <> Flat ->
  let legs := map (placeOrder env) (opening_orders s) in
  exists (rd rk : Liquidity) (pre : list Event),
    (forall o r, In o (opening_orders s) -> fst (liquidity_of env o) = Ok r ->
                 (market o = "DRIFT"%string /\ r = rd)
                 \/ (market o = "KMNO"%string /\ r = rk))
    /\ submissions pre = []
    /\ openPosition env s g =
       if (estimatedSlippage rd >? MAX_SLIPPAGE_BPS / Fin 10000)%num
          || (estimatedSlippage rk >? MAX_SLIPPAGE_BPS / Fin 10000)%num
       then
         let e :=
           if (estimatedSlippage rd >? MAX_SLIPPAGE_BPS / Fin 10000)%num then
             SlippageTooHigh "DRIFT" (estimatedSlippage rd)
               (MAX_SLIPPAGE_BPS / Fin 10000)%num
           else
             SlippageTooHigh "KMNO" (estimatedSlippage rk)
               (MAX_SLIPPAGE_BPS / Fin 10000)%num in
         (Err e, g, pre ++ [Do (Log LError (OpenFailed s e))])
       else
         match Promise_all (first_settled env) legs with
         | Ok _ => (Ok tt, with_position g (Some (opened_position s)),
                    pre ++ [All (map snd legs); Do (Log LInfo (OpenSucceeded s))])
         | Err e => (Err e, g,
                     pre ++ [All (map snd legs); Do (Log LError (OpenFailed s e))])
         end.
Proof.
  intros Hs legs. unfold openPosition.
  replace (Signal_eqb s Flat) with false by (destruct s; try reflexivity; congruence).
  cbv zeta.
  set (ds := book_side_for (if (signal_num s >? Fin 0)%num then LONG else SHORT)).
  set (ks := book_side_for (if (signal_num s >? Fin 0)%num then SHORT else LONG)).
  destruct (checkLiquidity_resolves env "DRIFT-PERP" ds DRIFT_QUANTITY)
    as (rd & td & Hd & _).
  destruct (checkLiquidity_resolves env "KMNO-PERP" ks KMNO_QUANTITY)
    as (rk & tk & Hk & _).
  assert (Hd' : fst (checkLiquidity env "DRIFT-PERP" ds DRIFT_QUANTITY) = Ok rd)
    by (rewrite Hd; reflexivity).
  assert (Hk' : fst (checkLiquidity env "KMNO-PERP" ks KMNO_QUANTITY) = Ok rk)
    by (rewrite Hk; reflexivity).
  destruct (validate_liquidity_verdict env ds ks g rd rk Hd' Hk') as (pre & Hsub & Hv).
  exists rd, rk, (Do (Log LInfo (OpenStarting s)) :: pre).
  split.
  { intros o r Ho Hr. unfold opening_orders in Ho. cbv zeta in Ho.
    destruct Ho as [<- | [<- | []]]; unfold liquidity_of in Hr;
      cbn [market direction quantity append] in Hr.
    - left. split; [reflexivity |]. fold ds in Hr. congruence.
    - right. split; [reflexivity |]. fold ks in Hr. congruence. }
  split; [exact Hsub |].
  unfold ProcM.bind, ProcM.catch, await_all, ProcM.set_position, plog,
    ProcM.emit, ProcM.throw.
  rewrite Hv. fold legs.
  destruct (estimatedSlippage rd >? MAX_SLIPPAGE_BPS / Fin 10000)%num;
    [cbn [orb app]; rewrite ?app_nil_r; reflexivity |].
  destruct (estimatedSlippage rk >? MAX_SLIPPAGE_BPS / Fin 10000)%num;
    [cbn [orb app]; rewrite ?app_nil_r; reflexivity |].
  cbn [orb]. destruct (Promise_all (first_settled env) legs); cbn [app];
    rewrite ?app_nil_r, <- ?app_assoc; reflexivity.
Qed.

(** X9. [openPosition] warns about a leg that cannot be filled but does
    not return on it; it is the slippage validation that stops the open,
    because a check that cannot fill reports infinite slippage.  So when the
    liquidity check of either opening order answers [canFill = false] (the
    book is too thin, or the book request failed), [openPosition] rejects
    with a slippage error, submits no order and leaves the globals as they
    were. *)
Theorem openPosition_refuses_unfillable_leg
  (env : Env) (s : Signal) (g : Globals) (o : Order) (r : Liquidity) :
  s <> Flat ->
  In o (opening_orders s) ->
  fst (liquidity_of env o) = Ok r ->
  canFill r = false ->
  exists (sym : string) (estimated limit : number) (t : list Event),
    openPosition env s g = (Err (SlippageTooHigh sym estimated limit), g, t)
    /\ submissions t = []
    /\ In (Do (Log LError (OpenFailed s (SlippageTooHigh sym estimated limit)))) t.
Proof.
  intros Hs Ho Hr Hcan.
  pose proof (checkLiquidity_refusal env _ _ _ r Hr Hcan) as Hinf.
  destruct (openPosition_verdict env s g Hs) as (rd & rk & pre & Hwhich & Hsub & Hrun).
  cbv zeta in Hrun.
  assert (Hhigh : (estimatedSlippage rd >? MAX_SLIPPAGE_BPS / Fin 10000)%num
                  || (estimatedSlippage rk >? MAX_SLIPPAGE_BPS / Fin 10000)%num = true).
  { destruct (Hwhich o r Ho Hr) as [(_ & ->) | (_ & ->)]; rewrite Hinf.
    - reflexivity.
    - apply orb_true_r. }
  rewrite Hhigh in Hrun.
  destruct (estimatedSlippage rd >? MAX_SLIPPAGE_BPS / Fin 10000)%num;
    (eexists _, _, _, _; split; [exact Hrun |]; split;
     [rewrite submissions_app, Hsub; reflexivity
     | apply in_or_app; right; left; reflexivity]).
Qed.

Lemma openPosition_refuses_unfillable_leg_instance :
  exists (sym : string) (estimated limit : number) (t : list Event),
    openPosition (calm_env [] [] [] two_level_book) Long (idle None 0)
    = (Err (SlippageTooHigh sym estimated limit), idle None 0, t)
    /\ submissions t = []
    /\ In (Do (Log LError (OpenFailed Long (SlippageTooHigh sym estimated limit)))) t.
Proof.
  apply (openPosition_refuses_unfillable_leg
           (calm_env [] [] [] two_level_book) Long (idle None 0)
           (mkOrder "KMNO" SHORT KMNO_QUANTITY false) no_liquidity).
  - discriminate.
  - right. left. reflexivity.
  - vm_compute. reflexivity.
  - reflexivity.
Defined.

(** X10. A one-legged open is not recorded.  When the validation passes,
    the venue confirms one opening order within the retry budget and rejects
    every attempt of the other, [openPosition] rejects and leaves the
    globals, the ledger included, as they were, although the confirmed
    order is in the trace: the ledger does not show the leg the venue now
    holds. *)
Theorem open_with_one_leg_rejected_is_not_recorded
  (env : Env) (s : Signal) (g : Globals) (held lost : Order) :
  s <> Flat ->
  (forall o, In o (opening_orders s) ->
     exists r, fst (liquidity_of env o) = Ok r
               /\ (estimatedSlippage r >? MAX_SLIPPAGE_BPS / Fin 10000)%num = false) ->
  In held (opening_orders s) ->
  In lost (opening_orders s) ->
  (exists mk, market_get (marketMap env) (market held) = Some mk) ->
  venue_confirms env held ->
  venue_exhausts env lost ->
  exists (e : Exn) (t : list Event),
    openPosition env s g = (Err e, g, t)
    /\ confirmed_in t held
    /\ In (Do (Log LError (OpenFailed s e))) t.
Proof.
  intros Hs Hvalid Hheld Hlost (mk & Hmk) Hconfirms Hexhausts.
  destruct (openPosition_verdict env s g Hs) as (rd & rk & pre & Hwhich & Hsub & Hrun).
  cbv zeta in Hrun.
  assert (Hpass : (estimatedSlippage rd >? MAX_SLIPPAGE_BPS / Fin 10000)%num
                  || (estimatedSlippage rk >? MAX_SLIPPAGE_BPS / Fin 10000)%num = false).
  { apply orb_false_iff. split.
    - destruct (Hvalid (mkOrder "DRIFT"
                          (if (signal_num s >? Fin 0)%num then LONG else SHORT)
                          DRIFT_QUANTITY false)) as (r & Hr & Hlow);
        [left; reflexivity |].
      destruct (Hwhich _ r (or_introl eq_refl) Hr) as [(_ & <-) | (K & _)];
        [exact Hlow | discriminate].
    - destruct (Hvalid (mkOrder "KMNO"
                          (if (signal_num s >? Fin 0)%num then SHORT else LONG)
                          KMNO_QUANTITY false)) as (r & Hr & Hlow);
        [right; left; reflexivity |].
      destruct (Hwhich _ r (or_intror (or_introl eq_refl)) Hr) as [(K & _) | (_ & <-)];
        [discriminate | exact Hlow]. }
  rewrite Hpass in Hrun.
  destruct (placeOrder_exhausted env lost Hexhausts) as (e0 & He0).
  destruct (Promise_all_rejects (option string) (first_settled env)
              (map (placeOrder env) (opening_orders s)) (placeOrder env lost) e0)
    as (e & He); [apply in_map; exact Hlost | exact He0 |].
  rewrite He in Hrun.
  exists e, (pre ++ [All (map snd (map (placeOrder env) (opening_orders s)));
                     Do (Log LError (OpenFailed s e))]).
  split; [exact Hrun |]. split.
  - destruct (placeOrder_confirmed env held mk Hmk Hconfirms) as (tx & Htx).
    destruct (join_orders_confirmed env (opening_orders s) held Hheld
                (ex_intro _ (Some tx) Htx)) as (tx' & Hin).
    exists tx'. rewrite submissions_app, Hsub. cbn [app].
    rewrite submissions_cons. apply in_or_app. left. exact Hin.
  - apply in_or_app. right. right. left. reflexivity.
Qed.

Lemma open_with_one_leg_rejected_is_not_recorded_instance :
  exists (e : Exn) (t : list Event),
    openPosition (kmno_rejecting_env deep_book) Long (idle None 0)
    = (Err e, idle None 0, t)
    /\ confirmed_in t (mkOrder "DRIFT" LONG DRIFT_QUANTITY false)
    /\ In (Do (Log LError (OpenFailed Long e))) t.
Proof.
  apply (open_with_one_leg_rejected_is_not_recorded
           (kmno_rejecting_env deep_book) Long (idle None 0)
           (mkOrder "DRIFT" LONG DRIFT_QUANTITY false)
           (mkOrder "KMNO" SHORT KMNO_QUANTITY false)).
  - discriminate.
  - intros o [<- | [<- | []]]; eexists; split; vm_compute; reflexivity.
  - left. reflexivity.
  - right. left. reflexivity.
  - eexists. reflexivity.
  - exists 1%nat, "signature"%string. split; [unfold MAX_RETRIES; lia |].
    split; [reflexivity |]. intros j Hj. lia.
  - intros k _. eexists. reflexivity.
Defined.

(** X11. Every order that [openPosition] submits is one of the two opening
    orders of its signal: 10 DRIFT in the direction of the signal or 100
    KMNO against it, never reduce-only; for the signal 0 it submits
    nothing. *)
Theorem openPosition_submits_only_opening_orders
  (env : Env) (s : Signal) (g : Globals) :
  Forall (fun x : Order * Result string =>
            s <> Flat
            /\ let d := match s with Long => LONG | _ => SHORT end in
               (fst x = mkOrder "DRIFT" d (Fin 10) false
                \/ fst x = mkOrder "KMNO" (opposite d) (Fin 100) false))
         (submissions (snd (openPosition env s g))).
Proof.
  apply Forall_forall. intros x Hx.
  destruct (Signal_eqb s Flat) eqn:Hflat.
  { unfold openPosition in Hx. rewrite Hflat in Hx. destruct Hx. }
  assert (Hs : s <> Flat) by (intro K; rewrite K in Hflat; discriminate).
  split; [exact Hs |].
  assert (Hin : In (fst x) (opening_orders s)).
  { destruct (openPosition_run env s g Hs) as (pre & Hsub & [(e & H) | H]).
    - rewrite H in Hx. cbn [snd] in Hx. rewrite submissions_app, Hsub in Hx.
      destruct Hx.
    - rewrite H in Hx.
      destruct (Promise_all (first_settled env) (map (placeOrder env) (opening_orders s)));
        cbn [snd] in Hx; rewrite submissions_app, Hsub in Hx; cbn [app] in Hx;
        rewrite submissions_cons in Hx; apply in_app_or in Hx;
        (destruct Hx as [Hx | Hx]; [| destruct Hx]);
        apply (join_orders_in env (opening_orders s) x Hx). }
  destruct s; [| congruence |]; destruct Hin as [<- | [<- | []]]; cbv zeta;
    [left | right | left | right]; reflexivity.
Qed.

(* ------------------------------------------------------------------ *)
(** ** closePosition *)

(** X12. Closing takes back what opening placed.  The closing orders of
    the position written by a successful open are the opening orders with
    the direction reversed and reduce-only set, in the same order and for
    the same quantities.  So after [openPosition] has fulfilled, a
    [closePosition] whose orders the venue confirms submits exactly those
    orders and returns the ledger to [null]. *)
Theorem close_unwinds_what_open_placed :
  (forall s : Signal,
      closing_orders (opened_position s)
      = if Signal_eqb s Flat then [] else map unwinding (opening_orders s))
  /\ (forall (env env' : Env) (s : Signal) (g : Globals),
         s <> Flat ->
         fst (fst (openPosition env s g)) = Ok tt ->
         (forall o, In o (opening_orders s) ->
                    exists v, fst (placeOrder env' (unwinding o)) = Ok v) ->
         let legs := map (placeOrder env') (map unwinding (opening_orders s)) in
         closePosition env' (snd (fst (openPosition env s g)))
         = (Ok tt, with_position g None,
            [Do (Log LInfo (CloseStarting (opened_position s)));
             All (map snd legs);
             Do (Log LInfo CloseSucceeded)])).
Proof.
  assert (Hunwind : forall s : Signal,
             closing_orders (opened_position s)
             = if Signal_eqb s Flat then [] else map unwinding (opening_orders s)).
  { intros s. destruct s; vm_compute; reflexivity. }
  split; [exact Hunwind |].
  intros env env' s g Hs Hopen Hvenue legs.
  assert (Hg1 : snd (fst (openPosition env s g))
                = with_position g (Some (opened_position s))).
  { destruct (openPosition_run env s g Hs) as (pre & _ & [(e & H) | H]).
    - rewrite H in Hopen. discriminate.
    - rewrite H in Hopen |- *.
      destruct (Promise_all (first_settled env) (map (placeOrder env) (opening_orders s)));
        [reflexivity | discriminate]. }
  rewrite Hg1.
  rewrite (closePosition_run env' (with_position g (Some (opened_position s)))
             (opened_position s) eq_refl).
  cbv zeta. rewrite Hunwind.
  replace (Signal_eqb s Flat) with false by (destruct s; try reflexivity; congruence).
  fold legs.
  destruct (proj2 (Promise_all_fulfils (option string) (first_settled env') legs))
    as (vs & Hvs).
  { intros leg Hleg. unfold legs in Hleg.
    apply in_map_iff in Hleg. destruct Hleg as (o' & <- & Ho').
    apply in_map_iff in Ho'. destruct Ho' as (o & <- & Ho).
    apply Hvenue. exact Ho. }
  rewrite Hvs. reflexivity.
Qed.

(** X13. [closePosition] can only reduce.  With a null ledger it logs and
    does nothing.  Otherwise every order it submits is reduce-only and
    unwinds a nonzero leg of the ledger: on that leg's market, short for a
    leg above zero and long otherwise, for the absolute size of the leg. *)
Theorem closePosition_only_reduces (env : Env) (g : Globals) :
  match currentPosition g with
  | None => closePosition env g = (Ok tt, g, [Do (Log LDebug CloseNothing)])
  | Some p =>
      Forall (fun x : Order * Result string =>
                exists (sym : string) (leg : number),
                  ((sym = "DRIFT"%string /\ leg = drift p)
                   \/ (sym = "KMNO"%string /\ leg = kmno p))
                  /\ (leg =? Fin 0)%num = false
                  /\ fst x = {| market := sym;
                                direction := if (leg >? Fin 0)%num then SHORT else LONG;
                                quantity := Num.abs leg;
                                reduceOnly := true |})
             (submissions (snd (closePosition env g)))
  end.
Proof.
  destruct (currentPosition g) as [p |] eqn:Hp.
  - apply Forall_forall. intros x Hx.
    assert (Hin : In (fst x) (closing_orders p)).
    { rewrite (closePosition_run env g p Hp) in Hx. cbv zeta in Hx.
      destruct (Promise_all (first_settled env) (map (placeOrder env) (closing_orders p)));
        cbn [snd] in Hx; rewrite submissions_cons in Hx; cbn [event_orders step_orders app] in Hx;
        rewrite submissions_cons in Hx; apply in_app_or in Hx;
        (destruct Hx as [Hx | Hx]; [| destruct Hx]);
        apply (join_orders_in env (closing_orders p) x Hx). }
    unfold closing_orders in Hin. apply in_app_or in Hin.
    destruct Hin as [Hin | Hin].
    + destruct (Num.neqb (drift p) (Fin 0)) eqn:Hn; [| destruct Hin].
      destruct Hin as [<- | []].
      exists "DRIFT"%string, (drift p). split; [left; split; reflexivity |].
      split; [| reflexivity]. unfold Num.neqb in Hn. apply negb_true_iff. exact Hn.
    + destruct (Num.neqb (kmno p) (Fin 0)) eqn:Hn; [| destruct Hin].
      destruct Hin as [<- | []].
      exists "KMNO"%string, (kmno p). split; [right; split; reflexivity |].
      split; [| reflexivity]. unfold Num.neqb in Hn. apply negb_true_iff. exact Hn.
  - unfold closePosition. rewrite Hp. reflexivity.
Qed.


(* ------------------------------------------------------------------ *)
(** ** What a cycle may do *)

Lemma closing_join_orders (env : Env) (g : Globals) (p : Position) :
  currentPosition g = Some p ->
  Forall (cycle_order g) (event_orders (closing_join env p)).
Proof.
  intros Hp. apply Forall_forall. intros x Hx. left. exists p.
  split; [exact Hp |]. apply (join_orders_in env (closing_orders p) x Hx).
Qed.

Lemma opening_join_orders (env : Env) (g : Globals) (s : Signal) :
  s <> Flat ->
  Forall (cycle_order g) (event_orders (opening_join env s)).
Proof.
  intros Hs. apply Forall_forall. intros x Hx. right. exists s.
  split; [exact Hs |]. apply (join_orders_in env (opening_orders s) x Hx).
Qed.

Lemma submissions_nil_Forall (P : Order * Result string -> Prop) (t : list Event) :
  submissions t = [] -> Forall P (submissions t).
Proof. intros ->. constructor. Qed.

(** Closing: the flag and the counter stay; the ledger stays or is
    cleared; the orders close legs of the ledger. *)
Lemma closePosition_effect (env : Env) (g : Globals) :
  let out := closePosition env g in
  only_ledger_changes g (snd (fst out))
  /\ ((exists e, fst (fst out) = Err e /\ snd (fst out) = g)
      \/ (fst (fst out) = Ok tt /\ snd (fst out) = with_position g None)
      \/ (fst (fst out) = Ok tt /\ snd (fst out) = g /\ currentPosition g = None))
  /\ Forall (cycle_order g) (submissions (snd out)).
Proof.
  cbv zeta. destruct (currentPosition g) as [p |] eqn:Hp.
  - rewrite (closePosition_run env g p Hp). cbv zeta.
    pose proof (closing_join_orders env g p Hp) as Hjoin. unfold closing_join in Hjoin.
    destruct (Promise_all (first_settled env) (map (placeOrder env) (closing_orders p)));
      cbn [fst snd]; (split; [split; reflexivity |]); split.
    + right. left. split; reflexivity.
    + rewrite !submissions_cons. cbn [event_orders step_orders app submissions flat_map].
      rewrite app_nil_r. exact Hjoin.
    + left. eexists. split; reflexivity.
    + rewrite !submissions_cons. cbn [event_orders step_orders app submissions flat_map].
      rewrite app_nil_r. exact Hjoin.
  - unfold closePosition. rewrite Hp. cbn [plog ProcM.emit fst snd].
    split; [split; reflexivity |]. split.
    + right. right. repeat split. 
    + constructor.
Qed.

(** Opening: the flag and the counter stay; the ledger stays or becomes
    the position of the signal; the orders are opening orders. *)
Lemma openPosition_effect (env : Env) (s : Signal) (g g0 : Globals) :
  let out := openPosition env s g in
  only_ledger_changes g (snd (fst out))
  /\ (snd (fst out) = g
      \/ (s <> Flat /\ fst (fst out) = Ok tt
          /\ snd (fst out) = with_position g (Some (opened_position s))))
  /\ Forall (cycle_order g0) (submissions (snd out)).
Proof.
  cbv zeta. destruct (Signal_eqb s Flat) eqn:Hflat.
  { unfold openPosition. rewrite Hflat. cbn [plog ProcM.emit fst snd].
    split; [split; reflexivity |]. split; [left; reflexivity | constructor]. }
  assert (Hs : s <> Flat) by (intro K; rewrite K in Hflat; discriminate).
  pose proof (opening_join_orders env g0 s Hs) as Hjoin. unfold opening_join in Hjoin.
  destruct (openPosition_run env s g Hs) as (pre & Hsub & [(e & H) | H]).
  - rewrite H. cbn [fst snd]. split; [split; reflexivity |].
    split; [left; reflexivity |].
    apply submissions_nil_Forall. rewrite submissions_app, Hsub. reflexivity.
  - rewrite H.
    destruct (Promise_all (first_settled env) (map (placeOrder env) (opening_orders s)));
      cbn [fst snd]; (split; [split; reflexivity |]); split.
    + right. repeat split. exact Hs.
    + rewrite submissions_app, Hsub, !submissions_cons.
      cbn [event_orders step_orders app submissions flat_map].
      rewrite app_nil_r. exact Hjoin.
    + left. reflexivity.
    + rewrite submissions_app, Hsub, !submissions_cons.
      cbn [event_orders step_orders app submissions flat_map].
      rewrite app_nil_r. exact Hjoin.
Qed.

Lemma bind_get A (k : Globals -> Proc A) (g : Globals) :
  ProcM.bind ProcM.get k g = k g g.
Proof.
  unfold ProcM.bind, ProcM.get. destruct (k g g) as [[r g2] t']. reflexivity.
Qed.

Lemma bind_run A B (m : Proc A) (k : A -> Proc B) (g : Globals) :
  ProcM.bind m k g =
  match m g with
  | (Ok a, g1, t) => let '(r, g2, t') := k a g1 in (r, g2, t ++ t')
  | (Err e, g1, t) => (Err e, g1, t)
  end.
Proof. reflexivity. Qed.

Lemma bind_plog A (lvl : Level) (m : Msg) (k : Proc A) (g : Globals) :
  ProcM.bind (plog lvl m) (fun _ => k) g =
  (fst (fst (k g)), snd (fst (k g)), Do (Log lvl m) :: snd (k g)).
Proof.
  unfold ProcM.bind, plog, ProcM.emit. destruct (k g) as [[r g2] t']. reflexivity.
Qed.

Lemma trade_run (env : Env) (s : Signal) (g : Globals) :
  trade env s g =
  match currentPosition g with
  | None =>
      if negb (Signal_eqb s Flat) then
        (plog LInfo (StrategyTransition Flat s) ;; openPosition env s)%proc g
      else plog LInfo (StrategyHolding (current_signal g)) g
  | Some p =>
      if negb (Signal_eqb (signal p) s) then
        (plog LInfo (StrategyTransition (current_signal g) s) ;;
         closePosition env ;;
         if negb (Signal_eqb s Flat) then openPosition env s else ProcM.ret tt)%proc g
      else plog LInfo (StrategyHolding (current_signal g)) g
  end.
Proof.
  unfold trade. rewrite bind_get. destruct (currentPosition g) as [p |].
  - destruct (negb (Signal_eqb (signal p) s)); reflexivity.
  - destruct (negb (Signal_eqb s Flat)); reflexivity.
Qed.

(** The trading step of a cycle. *)
Lemma trade_effect (env : Env) (s : Signal) (g : Globals) :
  let out := trade env s g in
  only_ledger_changes g (snd (fst out))
  /\ cycle_ledger g (currentPosition (snd (fst out)))
  /\ Forall (cycle_order g) (submissions (snd out)).
Proof.
  cbv zeta. rewrite trade_run.
  destruct (currentPosition g) as [p |] eqn:Hp.
  - destruct (Signal_eqb (signal p) s) eqn:Hsame; cbn [negb].
    + cbn [plog ProcM.emit fst snd]. split; [split; reflexivity |].
      split; [left; reflexivity | constructor].
    + rewrite bind_plog, bind_run.
      destruct (closePosition_effect env g) as (Hframe & Hcases & Horders).
      destruct (closePosition env g) as [[rc gc] tc]. cbn [fst snd] in *.
      destruct Hcases as [(e & -> & ->) | [(-> & ->) | (-> & -> & Hnone)]].
      * cbn [fst snd app]. split; [split; reflexivity |].
        split; [left; reflexivity |].
        rewrite submissions_cons. exact Horders.
      * destruct (Signal_eqb s Flat) eqn:Hflat; cbn [negb].
        -- cbn [ProcM.ret fst snd app]. split; [split; reflexivity |].
           split; [right; left; reflexivity |].
           rewrite submissions_cons, app_nil_r. exact Horders.
        -- destruct (openPosition_effect env s (with_position g None) g)
             as (Hframe' & Hcases' & Horders').
           destruct (openPosition env s (with_position g None)) as [[ro go] to].
           cbn [fst snd app] in *.
           split; [destruct Hframe' as (A & B); split; [rewrite A | rewrite B]; reflexivity |].
           split.
           ++ destruct Hcases' as [-> | (Hs & _ & ->)].
              ** right. left. reflexivity.
              ** right. right. exists s. split; [exact Hs | reflexivity].
           ++ rewrite submissions_cons, submissions_app.
              cbn [event_orders step_orders app].
              apply Forall_app. split; assumption.
      * congruence.
  - destruct (Signal_eqb s Flat) eqn:Hflat; cbn [negb].
    + cbn [plog ProcM.emit fst snd]. split; [split; reflexivity |].
      split; [left; reflexivity | constructor].
    + rewrite bind_plog.
      destruct (openPosition_effect env s g g) as (Hframe & Hcases & Horders).
      destruct (openPosition env s g) as [[ro go] to]. cbn [fst snd app] in *.
      split; [exact Hframe |]. split.
      * destruct Hcases as [-> | (Hs & _ & ->)].
        -- left. reflexivity.
        -- right. right. exists s. split; [exact Hs | reflexivity].
      * rewrite submissions_cons. exact Horders.
Qed.


Lemma await_both_run A (first : nat) (a b : Task A) (g : Globals) :
  exists r : Result (A * A),
    await_both first a b g = (r, g, [All [snd a; snd b]])
    /\ match fst a, fst b with
       | Ok x, Ok y => r = Ok (x, y)
       | _, _ => exists e, r = Err e
       end.
Proof.
  unfold await_both, ProcM.bind, await_all, Promise_all, ProcM.ret, ProcM.throw.
  destruct a as [[x | e] ta], b as [[y | e'] tb]; cbn [map fst snd rejected fulfilled];
    eexists; (split; [reflexivity |]); try reflexivity; eexists; reflexivity.
Qed.

Lemma fetch_join_no_orders (env : Env) :
  event_orders (All [snd (fetchCandleData env "DRIFT-PERP");
                     snd (fetchCandleData env "KMNO-PERP")]) = [].
Proof.
  cbn [flat_map event_orders app].
  fold (orders_of (snd (fetchCandleData env "DRIFT-PERP"))).
  fold (orders_of (snd (fetchCandleData env "KMNO-PERP"))).
  rewrite !fetchCandleData_no_orders. reflexivity.
Qed.

(** The body of the [try], by what the two fetches return. *)
Lemma cycle_try_run (env : Env) (g : Globals) :
  let fetches := All [snd (fetchCandleData env "DRIFT-PERP");
                      snd (fetchCandleData env "KMNO-PERP")] in
  match fst (fetchCandleData env "DRIFT-PERP"), fst (fetchCandleData env "KMNO-PERP") with
  | Ok driftCandles, Ok kmnoCandles =>
      match nth_error driftCandles SIGNAL_LAG_PERIODS,
            nth_error kmnoCandles SIGNAL_LAG_PERIODS with
      | Some driftBar, Some kmnoBar =>
          let spread := spread_of (oracleClose driftBar) (oracleClose kmnoBar) in
          let s := signal_of_spread spread in
          let snapshot := Do (Log LInfo (MarketSnapshot (oracleClose driftBar)
                                           (oracleClose kmnoBar) spread s)) in
          let out := trade env s g in
          cycle_try env g =
          match fst (fst out) with
          | Ok _ => (Ok tt, snd (fst out),
                     fetches :: snapshot :: snd out
                     ++ cycle_reports (cycleCount (snd (fst out))))
          | Err e => (Err e, snd (fst out), fetches :: snapshot :: snd out)
          end
      | _, _ =>
          cycle_try env g =
          (Ok tt, g,
           [fetches;
            Do (Log LWarn (CycleInsufficientData (List.length driftCandles)
                             (List.length kmnoCandles)))])
      end
  | _, _ => exists e, cycle_try env g = (Err e, g, [fetches])
  end.
Proof.
  cbv zeta. unfold cycle_try. rewrite bind_run.
  destruct (await_both_run (list CandleData) (first_settled env)
              (fetchCandleData env "DRIFT-PERP") (fetchCandleData env "KMNO-PERP") g)
    as (r & Hrun & Hr).
  rewrite Hrun.
  destruct (fst (fetchCandleData env "DRIFT-PERP")) as [dc | e1];
    [| destruct Hr as (e & ->); exists e; reflexivity].
  destruct (fst (fetchCandleData env "KMNO-PERP")) as [kc | e2];
    [| destruct Hr as (e & ->); exists e; reflexivity].
  subst r.
  destruct (nth_error dc SIGNAL_LAG_PERIODS) as [db |] eqn:Hd.
  - destruct (nth_error kc SIGNAL_LAG_PERIODS) as [kb |] eqn:Hk.
    + assert (Hlen : ((List.length dc <? SIGNAL_LAG_PERIODS + 1)%nat
                      || (List.length kc <? SIGNAL_LAG_PERIODS + 1)%nat) = false).
      { apply orb_false_iff. split; apply Nat.ltb_ge.
        - assert (K : (SIGNAL_LAG_PERIODS < List.length dc)%nat)
            by (apply nth_error_Some; rewrite Hd; discriminate). lia.
        - assert (K : (SIGNAL_LAG_PERIODS < List.length kc)%nat)
            by (apply nth_error_Some; rewrite Hk; discriminate). lia. }
      rewrite Hlen. rewrite bind_plog, bind_run.
      destruct (trade env _ g) as [[[[] | e] g1] t1]; cbn [fst snd].
      * unfold ProcM.bind, ProcM.emit, ProcM.get, plog, ProcM.emit, cycle_reports.
        cbn [app]. reflexivity.
      * reflexivity.
    + assert (Hlen : ((List.length dc <? SIGNAL_LAG_PERIODS + 1)%nat
                      || (List.length kc <? SIGNAL_LAG_PERIODS + 1)%nat) = true).
      { apply orb_true_iff. right. apply Nat.ltb_lt.
        apply nth_error_None in Hk. lia. }
      rewrite Hlen. reflexivity.
  - assert (Hlen : ((List.length dc <? SIGNAL_LAG_PERIODS + 1)%nat
                    || (List.length kc <? SIGNAL_LAG_PERIODS + 1)%nat) = true).
    { apply orb_true_iff. left. apply Nat.ltb_lt.
      apply nth_error_None in Hd. lia. }
    rewrite Hlen. reflexivity.
Qed.


Lemma cycle_try_effect (env : Env) (g : Globals) :
  let out := cycle_try env g in
  only_ledger_changes g (snd (fst out))
  /\ cycle_ledger g (currentPosition (snd (fst out)))
  /\ Forall (cycle_order g) (submissions (snd out)).
Proof.
  cbv zeta. pose proof (cycle_try_run env g) as Hrun. cbv zeta in Hrun.
  pose proof (fetch_join_no_orders env) as Hfetch.
  assert (Hquiet : forall (r : Result unit) (t : list Event),
             submissions t = [] ->
             only_ledger_changes g (snd (fst (r, g, t)))
             /\ cycle_ledger g (currentPosition (snd (fst (r, g, t))))
             /\ Forall (cycle_order g) (submissions (snd (r, g, t)))).
  { intros r t Ht. cbn [fst snd]. split; [split; reflexivity |].
    split; [left; reflexivity | rewrite Ht; constructor]. }
  destruct (fst (fetchCandleData env "DRIFT-PERP")) as [dc | e1];
    [| destruct Hrun as (e & ->); apply Hquiet;
       rewrite submissions_cons, Hfetch; reflexivity].
  destruct (fst (fetchCandleData env "KMNO-PERP")) as [kc | e2];
    [| destruct Hrun as (e & ->); apply Hquiet;
       rewrite submissions_cons, Hfetch; reflexivity].
  destruct (nth_error dc SIGNAL_LAG_PERIODS) as [db |];
    [| rewrite Hrun; apply Hquiet; rewrite submissions_cons, Hfetch; reflexivity].
  destruct (nth_error kc SIGNAL_LAG_PERIODS) as [kb |];
    [| rewrite Hrun; apply Hquiet; rewrite submissions_cons, Hfetch; reflexivity].
  rewrite Hrun. clear Hrun.
  destruct (trade_effect env
              (signal_of_spread (spread_of (oracleClose db) (oracleClose kb))) g)
    as (Hframe & Hledger & Horders).
  cbv zeta in Hframe, Hledger, Horders.
  destruct (trade env _ g) as [[r g1] t1]. cbn [fst snd] in *.
  assert (Hsub : forall tail, submissions tail = [] ->
             Forall (cycle_order g)
               (submissions
                  (All [snd (fetchCandleData env "DRIFT-PERP");
                        snd (fetchCandleData env "KMNO-PERP")]
                   :: Do (Log LInfo
                            (MarketSnapshot (oracleClose db) (oracleClose kb)
                               (spread_of (oracleClose db) (oracleClose kb))
                               (signal_of_spread
                                  (spread_of (oracleClose db) (oracleClose kb)))))
                   :: t1 ++ tail))).
  { intros tail Htail.
    rewrite !submissions_cons, Hfetch, submissions_app, Htail, app_nil_r.
    exact Horders. }
  destruct r as [[] | e]; cbn [fst snd].
  - split; [exact Hframe |]. split; [exact Hledger |].
    apply Hsub. apply cycle_reports_no_orders.
  - split; [exact Hframe |]. split; [exact Hledger |].
    rewrite <- (app_nil_r t1). apply Hsub. reflexivity.
Qed.

(** An entered cycle, from its first [await] to its [finally]. *)
Lemma cycle_run_effect (env : Env) (g : Globals) :
  isCycleRunning (fst (cycle_run env g)) = false
  /\ cycleCount (fst (cycle_run env g)) = cycleCount g
  /\ cycle_ledger g (currentPosition (fst (cycle_run env g)))
  /\ Forall (cycle_order g) (submissions (snd (cycle_run env g))).
Proof.
  destruct (cycle_try_effect env g) as ((_ & Hcount) & Hledger & Horders).
  cbv zeta in Hcount, Hledger, Horders.
  unfold cycle_run. destruct (cycle_try env g) as [[r g1] t]. cbn [fst snd] in *.
  split; [reflexivity |]. split; [exact Hcount |]. split; [exact Hledger |].
  rewrite submissions_app. destruct r; cbn [submissions flat_map event_orders step_orders];
    rewrite app_nil_r; exact Horders.
Qed.

(* ------------------------------------------------------------------ *)
(** ** executeTradingCycle *)

(** X14. An invocation that finds the flag down counts one cycle and
    leaves the flag down, however its body ends: nothing inside the body
    touches the counter or the flag, and the [finally] always runs.  Its
    trace starts with "Starting cycle n", where [n] is the new count, and
    its last event is one of "Cycle n completed", "Cycle n failed" and
    "Insufficient data". *)
Theorem cycle_counts_once_and_lowers_flag (env : Env) (g : Globals) :
  isCycleRunning g = false ->
  let out := executeTradingCycle env g in
  let n := (cycleCount g + 1)%Z in
  isCycleRunning (fst out) = false
  /\ cycleCount (fst out) = n
  /\ exists (body : list Event) (final : Step),
       snd out = Do (Log LInfo (CycleStarting n)) :: body ++ [Do final]
       /\ (final = Log LInfo (CycleCompleted n)
           \/ (exists e, final = Log LError (CycleFailed n e))
           \/ (exists a b, final = Log LWarn (CycleInsufficientData a b))).
Proof.
  intros Hidle. cbv zeta.
  unfold executeTradingCycle, cycle_enter. rewrite Hidle.
  fold (entered g).
  destruct (cycle_run_effect env (entered g)) as (Hflag & Hcount & _ & _).
  pose proof (cycle_try_run env (entered g)) as Hrun. cbv zeta in Hrun.
  destruct (cycle_try_effect env (entered g)) as ((_ & Hcount') & _ & _).
  cbv zeta in Hcount'.
  unfold cycle_run in *.
  destruct (cycle_try env (entered g)) as [[r g1] t] eqn:Htry.
  cbn [fst snd] in *. change (cycleCount (entered g)) with (cycleCount g + 1)%Z in *.
  split; [reflexivity |]. split; [exact Hcount |].
  cbn [app]. rewrite Hcount'.
  destruct r as [[] | e].
  - rewrite app_nil_r.
    destruct (fst (fetchCandleData env "DRIFT-PERP")) as [dc | e1];
      [| destruct Hrun as (e & Hrun); discriminate].
    destruct (fst (fetchCandleData env "KMNO-PERP")) as [kc | e2];
      [| destruct Hrun as (e & Hrun); discriminate].
    assert (Hshort : forall a b,
               t = [All [snd (fetchCandleData env "DRIFT-PERP");
                         snd (fetchCandleData env "KMNO-PERP")];
                    Do (Log LWarn (CycleInsufficientData a b))] ->
               exists (body : list Event) (final : Step),
                 Do (Log LInfo (CycleStarting (cycleCount g + 1))) :: t
                 = Do (Log LInfo (CycleStarting (cycleCount g + 1))) :: body ++ [Do final]
                 /\ (final = Log LInfo (CycleCompleted (cycleCount g + 1))
                     \/ (exists e, final = Log LError (CycleFailed (cycleCount g + 1) e))
                     \/ (exists a b, final = Log LWarn (CycleInsufficientData a b)))).
    { intros a b ->. eexists [_], _. split; [reflexivity |].
      right. right. exists a, b. reflexivity. }
    destruct (nth_error dc SIGNAL_LAG_PERIODS) as [db |];
      [| injection Hrun as _ Ht; apply (Hshort _ _ Ht)].
    destruct (nth_error kc SIGNAL_LAG_PERIODS) as [kb |];
      [| injection Hrun as _ Ht; apply (Hshort _ _ Ht)].
    destruct (trade env _ (entered g)) as [[[[] | e] g2] t2]; cbn [fst snd] in Hrun;
      [| discriminate].
    injection Hrun as Hg Ht. subst g2.
    rewrite Ht. unfold cycle_reports. rewrite Hcount'.
    eexists (_ :: _ :: t2 ++ [_; _; _]), _. split.
    + cbn [app]. rewrite <- app_assoc. reflexivity.
    + left. reflexivity.
  - exists t, (Log LError (CycleFailed (cycleCount g + 1) e)).
    split; [reflexivity |]. right. left. exists e. reflexivity.
Qed.


(** An entered cycle is the body run from the entered globals. *)
Lemma executeTradingCycle_entered (env : Env) (g : Globals) :
  isCycleRunning g = false ->
  executeTradingCycle env g =
  (fst (cycle_run env (entered g)),
   Do (Log LInfo (CycleStarting (cycleCount g + 1))) :: snd (cycle_run env (entered g))).
Proof.
  intros Hidle. unfold executeTradingCycle, cycle_enter. rewrite Hidle.
  fold (entered g). destruct (cycle_run env (entered g)) as [g2 t]. reflexivity.
Qed.

(** X15. Without usable data a cycle does not trade.  When a candle fetch
    rejects (after its retries), or either instrument comes back with fewer
    than three bars, the cycle submits no order and leaves the ledger as it
    was; in the first case it logs the failure, in the second a warning. *)
Theorem cycle_without_data_does_not_trade (env : Env) (g : Globals) :
  isCycleRunning g = false ->
  (forall driftCandles kmnoCandles,
      fst (fetchCandleData env "DRIFT-PERP") = Ok driftCandles ->
      fst (fetchCandleData env "KMNO-PERP") = Ok kmnoCandles ->
      (List.length driftCandles < SIGNAL_LAG_PERIODS + 1)%nat
      \/ (List.length kmnoCandles < SIGNAL_LAG_PERIODS + 1)%nat) ->
  let out := executeTradingCycle env g in
  submissions (snd out) = []
  /\ currentPosition (fst out) = currentPosition g
  /\ exists final : Step,
       last (snd out) (Do final) = Do final
       /\ ((exists e, final = Log LError (CycleFailed (cycleCount g + 1) e))
           \/ (exists a b, final = Log LWarn (CycleInsufficientData a b))).
Proof.
  intros Hidle Hdata. cbv zeta.
  rewrite (executeTradingCycle_entered env g Hidle). cbn [fst snd].
  pose proof (cycle_try_run env (entered g)) as Hrun. cbv zeta in Hrun.
  pose proof (fetch_join_no_orders env) as Hfetch.
  unfold cycle_run.
  destruct (fst (fetchCandleData env "DRIFT-PERP")) as [dc | e1] eqn:Hd.
  - destruct (fst (fetchCandleData env "KMNO-PERP")) as [kc | e2] eqn:Hk.
    + assert (Hnone : nth_error dc SIGNAL_LAG_PERIODS = None
                      \/ nth_error kc SIGNAL_LAG_PERIODS = None).
      { destruct (Hdata dc kc eq_refl eq_refl) as [H | H];
          [left | right]; apply nth_error_None; lia. }
      assert (Hrun' : cycle_try env (entered g) =
                      (Ok tt, entered g,
                       [All [snd (fetchCandleData env "DRIFT-PERP");
                             snd (fetchCandleData env "KMNO-PERP")];
                        Do (Log LWarn (CycleInsufficientData (List.length dc)
                                         (List.length kc)))])).
      { destruct Hnone as [H | H]; rewrite H in Hrun.
        - exact Hrun.
        - destruct (nth_error dc SIGNAL_LAG_PERIODS); exact Hrun. }
      rewrite Hrun'. cbn [fst snd app currentPosition entered].
      split; [rewrite !submissions_cons, Hfetch; reflexivity |].
      split; [reflexivity |].
      eexists. split; [reflexivity |]. right. eexists _, _. reflexivity.
    + destruct Hrun as (e & ->). cbn [fst snd app currentPosition entered].
      split; [rewrite !submissions_cons, Hfetch; reflexivity |].
      split; [reflexivity |].
      eexists. split; [reflexivity |]. left. eexists. reflexivity.
  - destruct Hrun as (e & ->). cbn [fst snd app currentPosition entered].
    split; [rewrite !submissions_cons, Hfetch; reflexivity |].
    split; [reflexivity |].
    eexists. split; [reflexivity |]. left. eexists. reflexivity.
Qed.

Lemma cycle_without_data_does_not_trade_instance :
  let out := executeTradingCycle (calm_env [] [] [] deep_book)
               (idle (Some (opened_position Long)) 7) in
  submissions (snd out) = []
  /\ currentPosition (fst out) = Some (opened_position Long)
  /\ exists final : Step,
       last (snd out) (Do final) = Do final
       /\ ((exists e, final = Log LError (CycleFailed (7 + 1) e))
           \/ (exists a b, final = Log LWarn (CycleInsufficientData a b))).
Proof.
  apply (cycle_without_data_does_not_trade (calm_env [] [] [] deep_book)
           (idle (Some (opened_position Long)) 7)).
  - reflexivity.
  - intros dc kc Hd Hk. vm_compute in Hd. injection Hd as <-.
    left. unfold SIGNAL_LAG_PERIODS. simpl. lia.
Defined.

(** X16. A cycle holds when the signal it computes is the one the ledger
    records: with a null ledger and a zero signal, or with a position whose
    recorded signal equals the computed one, it submits no order, leaves the
    ledger as it was, logs "Holding position" and completes. *)
Theorem cycle_holds_on_unchanged_signal
  (env : Env) (g : Globals) (driftCandles kmnoCandles : list CandleData)
  (driftBar kmnoBar : CandleData) :
  isCycleRunning g = false ->
  fst (fetchCandleData env "DRIFT-PERP") = Ok driftCandles ->
  fst (fetchCandleData env "KMNO-PERP") = Ok kmnoCandles ->
  nth_error driftCandles SIGNAL_LAG_PERIODS = Some driftBar ->
  nth_error kmnoCandles SIGNAL_LAG_PERIODS = Some kmnoBar ->
  signal_of_spread (spread_of (oracleClose driftBar) (oracleClose kmnoBar))
  = current_signal g ->
  let out := executeTradingCycle env g in
  submissions (snd out) = []
  /\ currentPosition (fst out) = currentPosition g
  /\ In (Do (Log LInfo (StrategyHolding (current_signal g)))) (snd out)
  /\ In (Do (Log LInfo (CycleCompleted (cycleCount g + 1)))) (snd out).
Proof.
  intros Hidle Hd Hk Hdb Hkb Hsame. cbv zeta.
  rewrite (executeTradingCycle_entered env g Hidle). cbn [fst snd].
  pose proof (cycle_try_run env (entered g)) as Hrun. cbv zeta in Hrun.
  rewrite Hd, Hk, Hdb, Hkb, Hsame in Hrun.
  pose proof (fetch_join_no_orders env) as Hfetch.
  assert (Htrade : trade env (current_signal g) (entered g)
                   = (Ok tt, entered g,
                      [Do (Log LInfo (StrategyHolding (current_signal g)))])).
  { rewrite trade_run. unfold current_signal. cbn [currentPosition entered].
    destruct (currentPosition g) as [p |].
    - replace (Signal_eqb (signal p) (signal p)) with true
        by (destruct (signal p); reflexivity).
      reflexivity.
    - reflexivity. }
  rewrite Htrade in Hrun. cbn [fst snd] in Hrun.
  unfold cycle_run. rewrite Hrun. cbn [fst snd app currentPosition entered cycleCount].
  split.
  { rewrite !submissions_cons, Hfetch. reflexivity. }
  split; [reflexivity |].
  split.
  - right. right. right. left. reflexivity.
  - unfold cycle_reports. cbn [app]. do 7 right. left. reflexivity.
Qed.

Lemma cycle_holds_on_unchanged_signal_instance :
  let env := calm_env [] drift_bars kmno_bars deep_book in
  let g := idle (Some (opened_position Short)) 0 in
  let out := executeTradingCycle env g in
  submissions (snd out) = []
  /\ currentPosition (fst out) = currentPosition g
  /\ In (Do (Log LInfo (StrategyHolding (current_signal g)))) (snd out)
  /\ In (Do (Log LInfo (CycleCompleted (cycleCount g + 1)))) (snd out).
Proof.
  apply (cycle_holds_on_unchanged_signal
           (calm_env [] drift_bars kmno_bars deep_book)
           (idle (Some (opened_position Short)) 0)
           drift_bars kmno_bars (mkCandle (Fin 3)) (mkCandle (Fin 0.2)));
    vm_compute; reflexivity.
Defined.

(** X17. A cycle can only submit two kinds of orders: reduce-only orders
    that close a leg of the ledger it started with, and orders that are not
    reduce-only and open 10 DRIFT or 100 KMNO for a nonzero signal.  A
    skipped invocation is included: it submits nothing. *)
Theorem cycle_submits_only_closing_and_opening_orders (env : Env) (g : Globals) :
  Forall (fun x : Order * Result string =>
            (reduceOnly (fst x) = true
             /\ exists p, currentPosition g = Some p /\ In (fst x) (closing_orders p))
            \/ (reduceOnly (fst x) = false
                /\ exists s, s <> Flat /\ In (fst x) (opening_orders s)))
         (submissions (snd (executeTradingCycle env g))).
Proof.
  assert (H : Forall (cycle_order g) (submissions (snd (executeTradingCycle env g)))).
  { destruct (isCycleRunning g) eqn:Hflag.
    - unfold executeTradingCycle, cycle_enter. rewrite Hflag. constructor.
    - rewrite (executeTradingCycle_entered env g Hflag). cbn [snd].
      rewrite submissions_cons. cbn [event_orders step_orders app].
      destruct (cycle_run_effect env (entered g)) as (_ & _ & _ & Horders).
      exact Horders. }
  eapply Forall_impl; [| exact H].
  intros x [(p & Hp & Hin) | (s & Hs & Hin)].
  - left. split; [apply (closing_orders_reduceOnly p); exact Hin |].
    exists p. split; assumption.
  - right. split; [apply (opening_orders_not_reduceOnly s); exact Hin |].
    exists s. split; assumption.
Qed.

(** A body leaves a ledger that satisfies the invariant when it found
    one. *)
Lemma cycle_ledger_invariant (g : Globals) (ledger : option Position) :
  ledger_invariant (currentPosition g) ->
  cycle_ledger g ledger ->
  ledger_invariant ledger.
Proof.
  intros Hinv [-> | [-> | (s & Hs & ->)]].
  - exact Hinv.
  - exact I.
  - apply opened_position_invariant. exact Hs.
Qed.

Lemma occur_keeps_ledger_invariant (s : System) (o : Occurrence) :
  ledger_invariant (currentPosition (globals s)) ->
  ledger_invariant (currentPosition (globals (occur s o))).
Proof.
  intros Hinv. destruct o as [env | i]; unfold occur.
  - unfold cycle_enter. destruct (isCycleRunning (globals s)); exact Hinv.
  - destruct (nth_error (inFlight s) i) as [env |]; [| exact Hinv].
    destruct (cycle_run_effect env (globals s)) as (_ & _ & Hledger & _).
    destruct (cycle_run env (globals s)) as [g2 t]. cbn [fst globals] in *.
    apply (cycle_ledger_invariant (globals s)); assumption.
Qed.

(** X18. Trading keeps the PositionState invariant.  If the ledger
    satisfies the invariant when trading starts (it is null, or its signal
    is nonzero with the DRIFT leg of that sign and the KMNO leg of the
    opposite sign), then it satisfies it after every sequence of timer
    ticks and cycle completions, whatever the venue and the APIs do. *)
Theorem trading_preserves_ledger_invariant (s : System) (os : list Occurrence) :
  ledger_invariant (currentPosition (globals s)) ->
  ledger_invariant (currentPosition (globals (run_system s os))).
Proof.
  revert s. induction os as [| o os IH]; intros s Hinv; [exact Hinv |].
  cbn [run_system fold_left]. apply IH. apply occur_keeps_ledger_invariant. exact Hinv.
Qed.

Lemma trading_preserves_ledger_invariant_instance :
  ledger_invariant
    (currentPosition
       (globals (run_system (started (Some (opened_position Short)))
                   [Invoke (calm_env [] drift_bars kmno_bars deep_book);
                    Complete 0]))).
Proof.
  apply (trading_preserves_ledger_invariant
           (started (Some (opened_position Short)))
           [Invoke (calm_env [] drift_bars kmno_bars deep_book); Complete 0]).
  vm_compute. split.
  - split; [discriminate | intros [H _]; discriminate].
  - intros _. split; reflexivity.
Defined.


(* ------------------------------------------------------------------ *)
(** ** reconcilePositionState *)

(** X19. Reconciliation is idempotent, and what it writes depends on the
    venue alone.  It never rejects and submits no order; run a second time
    against the same venue state it changes nothing; and when it writes the
    ledger (when it does not fail), the ledger it writes is the same
    whatever the ledger held before. *)
Theorem reconciliation_is_idempotent (env : Env) (g : Globals) :
  let out := reconcilePositionState env g in
  fst (fst out) = Ok tt
  /\ submissions (snd out) = []
  /\ snd (fst (reconcilePositionState env (snd (fst out)))) = snd (fst out)
  /\ ((snd (fst out) = g
       /\ exists e, snd out = [Do (Log LError (ReconcileFailed e))])
      \/ forall g' : Globals,
           currentPosition (snd (fst (reconcilePositionState env g')))
           = currentPosition (snd (fst out))).
Proof.
  cbv zeta.
  destruct (reconcilePositionState_run env g)
    as [(e & H) | (positions & a & b & Hp & Hscan & H)].
  - rewrite H. cbn [fst snd]. rewrite H. cbn [fst snd].
    repeat split. left. split; [reflexivity |]. exists e. reflexivity.
  - rewrite H. cbn [fst snd].
    split; [reflexivity |]. split; [reflexivity |].
    assert (Hany : forall g' : Globals,
               snd (fst (reconcilePositionState env g'))
               = with_position g' (reconciled_ledger (Fin a) (Fin b))).
    { intros g'. unfold reconcilePositionState. cbn [SIMULATION_MODE].
      rewrite Hp, Hscan. unfold ProcM.bind, ProcM.set_position, plog, ProcM.emit.
      destruct (reconciled_ledger (Fin a) (Fin b)); reflexivity. }
    split.
    + rewrite Hany. reflexivity.
    + right. intros g'. rewrite Hany. reflexivity.
Qed.

Lemma find_snoc A (f : A -> bool) (l : list A) (x : A) :
  find f (l ++ [x]) =
  match find f l with
  | Some y => Some y
  | None => if f x then Some x else None
  end.
Proof.
  induction l as [| y l IH]; cbn [app find]; [reflexivity |].
  destruct (f y); [reflexivity | exact IH].
Qed.

(** The loop over the venue's positions in closed form. *)
Lemma scan_positions_closed_form (m : list (string * MarketConfig))
  (positions : list PerpPosition) :
  (forall pos, In pos positions -> (Z.abs (baseAssetAmount pos) < 2 ^ 53)%Z) ->
  forall driftSize kmnoSize : number,
    scan_positions m positions driftSize kmnoSize
    = Ok (leg_of m "DRIFT" positions driftSize, leg_of m "KMNO" positions kmnoSize).
Proof.
  unfold leg_of.
  induction positions as [| pos rest IH]; intros Hfits driftSize kmnoSize; [reflexivity |].
  cbn [scan_positions rev]. rewrite !find_snoc. unfold is_leg at 2 4.
  assert (Hrest : forall x, In x rest -> (Z.abs (baseAssetAmount x) < 2 ^ 53)%Z)
    by (intros x Hx; apply Hfits; right; exact Hx).
  destruct (baseAssetAmount pos =? 0)%Z eqn:Hzero; cbn [negb andb].
  - rewrite (IH Hrest).
    destruct (find (is_leg m "DRIFT") (rev rest)), (find (is_leg m "KMNO") (rev rest));
      reflexivity.
  - destruct (market_by_index m (perpMarketIndex pos)) as [mk |].
    + unfold BN_toNumber.
      assert (Hfit : (Z.abs (baseAssetAmount pos) <? 2 ^ 53)%Z = true)
        by (apply Z.ltb_lt; apply Hfits; left; reflexivity).
      rewrite Hfit. cbv zeta. rewrite (IH Hrest).
      destruct (find (is_leg m "DRIFT") (rev rest)), (find (is_leg m "KMNO") (rev rest)),
        (String.eqb (baseAssetSymbol mk) "DRIFT"), (String.eqb (baseAssetSymbol mk) "KMNO");
        reflexivity.
    + rewrite (IH Hrest).
      destruct (find (is_leg m "DRIFT") (rev rest)), (find (is_leg m "KMNO") (rev rest));
        reflexivity.
Qed.

(** X20. What reconciliation reads from the venue.  For amounts that fit
    in 53 bits, the DRIFT leg it records is the amount, in whole units, of
    the last perp position of the venue's list whose amount is not zero and
    whose market is listed under the symbol DRIFT, and 0 when there is none;
    likewise for KMNO.  Idle slots, positions in markets that are not
    listed and positions in other markets do not count; of two positions in
    the same market the later one wins. *)
Theorem reconciliation_reads_last_leg_per_market
  (env : Env) (g : Globals) (positions : list PerpPosition) :
  perpPositions env = Ok positions ->
  (forall pos, In pos positions -> (Z.abs (baseAssetAmount pos) < 2 ^ 53)%Z) ->
  currentPosition (snd (fst (reconcilePositionState env g)))
  = reconciled_ledger (leg_of (marketMap env) "DRIFT" positions (Fin 0))
                      (leg_of (marketMap env) "KMNO" positions (Fin 0)).
Proof.
  intros Hp Hfits. unfold reconcilePositionState. cbn [SIMULATION_MODE].
  rewrite Hp, (scan_positions_closed_form (marketMap env) positions Hfits).
  unfold ProcM.bind, ProcM.set_position, plog, ProcM.emit.
  destruct (reconciled_ledger _ _); reflexivity.
Qed.

Lemma reconciliation_reads_last_leg_per_market_instance :
  let env := calm_env eight_slots [] [] deep_book in
  currentPosition (snd (fst (reconcilePositionState env (idle None 0))))
  = reconciled_ledger (leg_of (marketMap env) "DRIFT" eight_slots (Fin 0))
                      (leg_of (marketMap env) "KMNO" eight_slots (Fin 0)).
Proof.
  apply (reconciliation_reads_last_leg_per_market
           (calm_env eight_slots [] [] deep_book) (idle None 0) eight_slots).
  - reflexivity.
  - intros pos Hpos. repeat (destruct Hpos as [<- | Hpos]; [reflexivity |]).
    destruct Hpos.
Defined.

(* ------------------------------------------------------------------ *)
(** ** shutdownSystem *)

Lemma waiting_is_quiet (n : nat) :
  let waits := List.concat (repeat [Note LInfo ShutdownWaiting; Nap 1000%Z] n) in
  existsb is_exit waits = false
  /\ existsb is_unsubscribe waits = false
  /\ flat_map act_orders waits = [].
Proof.
  cbv zeta. induction n as [| n (A & B & C)]; [repeat split |].
  cbn [repeat List.concat app existsb is_exit is_unsubscribe orb flat_map act_orders].
  repeat split; assumption.
Qed.

Lemma await_cycle_lowers_flag (polls : nat) (s s1 : System) (waits : list Act) :
  await_cycle polls s = Some (s1, waits) ->
  isCycleRunning (globals s1) = false
  /\ existsb is_exit waits = false
  /\ existsb is_unsubscribe waits = false
  /\ flat_map act_orders waits = [].
Proof.
  unfold await_cycle. destruct (isCycleRunning (globals s)) eqn:Hflag.
  - destruct (inFlight s) as [| env rest] eqn:Hin; [discriminate |].
    intros H. injection H as <- <-. split.
    + unfold occur. rewrite Hin. cbn [nth_error].
      pose proof (cycle_run_lowers_flag env (globals s)) as Hlow.
      destruct (cycle_run env (globals s)) as [g2 t]. exact Hlow.
    + apply (waiting_is_quiet (S polls)).
  - intros H. injection H as <- <-. repeat split. exact Hflag.
Qed.

(** The end of a shutdown, by the ledger it finds and the way the close
    and the unsubscribe settle. *)
Lemma shutdown_finish_run (env : Env) (unsubscribe : Result unit) (g : Globals) :
  shutdown_finish env unsubscribe g =
  let leave (g1 : Globals) (closing : list Act) :=
    match unsubscribe with
    | Err e =>
        (g1, closing ++ [Note LInfo ShutdownUnsubscribing; Unsubscribe (Err e);
                         Note LError (ShutdownError e)])
    | Ok _ =>
        (g1, closing ++ [Note LInfo ShutdownUnsubscribing; Unsubscribe (Ok tt);
                         Note LInfo (ShutdownCompleted (cycleCount g1));
                         Note LInfo ShutdownDone])
    end in
  match currentPosition g with
  | None => leave g []
  | Some p =>
      let legs := map (placeOrder env) (closing_orders p) in
      match Promise_all (first_settled env) legs with
      | Ok _ =>
          leave (with_position g None)
            [Note LInfo ShutdownClosing;
             Trading [Do (Log LInfo (CloseStarting p)); All (map snd legs);
                      Do (Log LInfo CloseSucceeded)]]
      | Err e =>
          (g, [Note LInfo ShutdownClosing;
               Trading [Do (Log LInfo (CloseStarting p)); All (map snd legs);
                        Do (Log LError (CloseFailed e))];
               Note LError (ShutdownError e)])
      end
  end.
Proof.
  unfold shutdown_finish. cbv zeta.
  destruct (currentPosition g) as [p |] eqn:Hp; [| reflexivity].
  rewrite (closePosition_run env g p Hp). cbv zeta.
  destruct (Promise_all (first_settled env) (map (placeOrder env) (closing_orders p)));
    reflexivity.
Qed.

(** X21. A shutdown always ends in [process.exit(0)].  The first signal
    raises [isShuttingDown] and stops the timer; when the flag
    [isCycleRunning] is up it waits for the cycle in flight to reach its
    [finally], so the exit happens with the flag down; and whether the
    close or the unsubscribe fulfil or reject, the handler reaches
    [process.exit(0)], exactly once and as its last act.  Any later signal
    only logs that a shutdown is in progress. *)
Theorem shutdown_waits_for_the_cycle_and_exits_zero
  (env : Env) (unsubscribe : Result unit) (polls : nat) (l : Lifecycle) (s : System) :
  isShuttingDown l = false ->
  (isCycleRunning (globals s) = true -> inFlight s <> []) ->
  exists (l' : Lifecycle) (s' : System) (acts : list Act),
    shutdownSystem env unsubscribe polls l s = Some (l', s', acts ++ [Exit 0%Z])
    /\ existsb is_exit acts = false
    /\ isShuttingDown l' = true
    /\ cycleInterval l' = false
    /\ isCycleRunning (globals s') = false
    /\ forall (env2 : Env) (unsubscribe2 : Result unit) (polls2 : nat) (s2 : System),
         shutdownSystem env2 unsubscribe2 polls2 l' s2
         = Some (l', s2, [Note LInfo ShutdownIgnored]).
Proof.
  intros Hfirst Hflight. unfold shutdownSystem at 1. rewrite Hfirst.
  destruct (await_cycle polls s) as [[s1 waits] |] eqn:Hwait.
  - destruct (await_cycle_lowers_flag polls s s1 waits Hwait) as (Hlow & Hexit & _ & _).
    rewrite shutdown_finish_run. cbv zeta.
    set (timer := if cycleInterval l then _ else _).
    assert (Htimer : existsb is_exit timer = false)
      by (unfold timer; destruct (cycleInterval l); reflexivity).
    assert (Hdone : forall (g2 : Globals) (acts : list Act),
               isCycleRunning g2 = false ->
               existsb is_exit acts = false ->
               exists (l' : Lifecycle) (s' : System) (acts' : list Act),
                 Some ({| isShuttingDown := true; cycleInterval := false |},
                       {| globals := g2; inFlight := inFlight s1; emitted := emitted s1 |},
                       Note LInfo ShutdownInitiated :: timer ++ waits ++ acts ++ [Exit 0%Z])
                 = Some (l', s', acts' ++ [Exit 0%Z])
                 /\ existsb is_exit acts' = false
                 /\ isShuttingDown l' = true
                 /\ cycleInterval l' = false
                 /\ isCycleRunning (globals s') = false
                 /\ forall (env2 : Env) (unsubscribe2 : Result unit) (polls2 : nat)
                           (s2 : System),
                      shutdownSystem env2 unsubscribe2 polls2 l' s2
                      = Some (l', s2, [Note LInfo ShutdownIgnored])).
    { intros g2 acts Hg2 Hacts.
      exists {| isShuttingDown := true; cycleInterval := false |},
        {| globals := g2; inFlight := inFlight s1; emitted := emitted s1 |},
        (Note LInfo ShutdownInitiated :: timer ++ waits ++ acts).
      split; [cbn [app]; rewrite <- !app_assoc; reflexivity |].
      split; [cbn [existsb is_exit orb]; rewrite !existsb_app, Htimer, Hexit, Hacts;
              reflexivity |].
      repeat split. exact Hg2. }
    destruct (currentPosition (globals s1)) as [p |].
    + destruct (Promise_all (first_settled env) (map (placeOrder env) (closing_orders p))).
      * destruct unsubscribe; apply Hdone; try reflexivity; exact Hlow.
      * apply Hdone; [exact Hlow | reflexivity].
    + destruct unsubscribe; apply Hdone; try reflexivity; exact Hlow.
  - exfalso. unfold await_cycle in Hwait.
    destruct (isCycleRunning (globals s)); [| discriminate].
    destruct (inFlight s); [apply Hflight; reflexivity | discriminate].
Qed.

Lemma shutdown_waits_for_the_cycle_and_exits_zero_instance :
  let s := occur (started (Some (opened_position Short)))
             (Invoke (calm_env [] drift_bars kmno_bars deep_book)) in
  exists (l' : Lifecycle) (s' : System) (acts : list Act),
    shutdownSystem (calm_env [] [] [] deep_book) (Ok tt) 2 running s
    = Some (l', s', acts ++ [Exit 0%Z])
    /\ existsb is_exit acts = false
    /\ isShuttingDown l' = true
    /\ cycleInterval l' = false
    /\ isCycleRunning (globals s') = false
    /\ forall (env2 : Env) (unsubscribe2 : Result unit) (polls2 : nat) (s2 : System),
         shutdownSystem env2 unsubscribe2 polls2 l' s2
         = Some (l', s2, [Note LInfo ShutdownIgnored]).
Proof.
  apply (shutdown_waits_for_the_cycle_and_exits_zero
           (calm_env [] [] [] deep_book) (Ok tt) 2 running
           (occur (started (Some (opened_position Short)))
              (Invoke (calm_env [] drift_bars kmno_bars deep_book)))).
  - reflexivity.
  - intros _. vm_compute. discriminate.
Defined.

(** X22. What a shutdown does to the position.  Once the wait is over,
    a null ledger means no order at all.  A ledger with a position is closed
    by [closePosition]: every order of the shutdown is a reduce-only closing
    order of that position.  When the close fulfils the ledger is null at
    the exit and the client is unsubscribed.  When the close rejects, the
    error is only logged: the ledger still holds the position at the exit,
    the unsubscribe is skipped, and the exit code is still 0. *)
Theorem shutdown_closes_position_or_logs_failure
  (env : Env) (unsubscribe : Result unit) (polls : nat) (l : Lifecycle)
  (s s1 : System) (waits : list Act) :
  isShuttingDown l = false ->
  await_cycle polls s = Some (s1, waits) ->
  exists (l' : Lifecycle) (s' : System) (acts : list Act),
    shutdownSystem env unsubscribe polls l s = Some (l', s', acts)
    /\ last acts (Exit 1%Z) = Exit 0%Z
    /\ match currentPosition (globals s1) with
       | None =>
           flat_map act_orders acts = []
           /\ currentPosition (globals s') = None
           /\ existsb is_unsubscribe acts = true
       | Some p =>
           Forall (fun x : Order * Result string =>
                     reduceOnly (fst x) = true /\ In (fst x) (closing_orders p))
                  (flat_map act_orders acts)
           /\ match Promise_all (first_settled env)
                      (map (placeOrder env) (closing_orders p)) with
              | Ok _ =>
                  currentPosition (globals s') = None
                  /\ existsb is_unsubscribe acts = true
              | Err e =>
                  currentPosition (globals s') = Some p
                  /\ existsb is_unsubscribe acts = false
                  /\ In (Note LError (ShutdownError e)) acts
              end
       end.
Proof.
  intros Hfirst Hwait. unfold shutdownSystem. rewrite Hfirst, Hwait.
  destruct (await_cycle_lowers_flag polls s s1 waits Hwait) as (_ & _ & Hunsub & Horders).
  rewrite shutdown_finish_run. cbv zeta.
  set (timer := if cycleInterval l then _ else _).
  assert (Htimer : existsb is_unsubscribe timer = false /\ flat_map act_orders timer = [])
    by (unfold timer; destruct (cycleInterval l); split; reflexivity).
  destruct Htimer as (Htu & Hto).
  assert (Hlast : forall acts : list Act,
             last (Note LInfo ShutdownInitiated :: timer ++ waits ++ acts ++ [Exit 0%Z])
                  (Exit 1%Z) = Exit 0%Z).
  { intros acts.
    change (Note LInfo ShutdownInitiated :: timer ++ waits ++ acts ++ [Exit 0%Z])
      with ([Note LInfo ShutdownInitiated] ++ timer ++ waits ++ acts ++ [Exit 0%Z]).
    rewrite !app_assoc. apply last_last. }
  assert (Hacts : forall acts : list Act,
             flat_map act_orders
               (Note LInfo ShutdownInitiated :: timer ++ waits ++ acts ++ [Exit 0%Z])
             = flat_map act_orders acts
             /\ existsb is_unsubscribe
                  (Note LInfo ShutdownInitiated :: timer ++ waits ++ acts ++ [Exit 0%Z])
                = existsb is_unsubscribe acts).
  { intros acts. cbn [flat_map act_orders existsb is_unsubscribe orb app].
    rewrite !flat_map_app, !existsb_app, Hto, Horders, Htu, Hunsub.
    cbn [flat_map act_orders existsb is_unsubscribe orb app].
    rewrite app_nil_r, orb_false_r. split; reflexivity. }
  destruct (currentPosition (globals s1)) as [p |] eqn:Hp.
  - pose proof (closing_join_orders env (globals s1) p Hp) as Hjoin.
    unfold closing_join in Hjoin.
    assert (Hclosing : forall (lvl : Level) (m : Msg) (rest : list Act),
               flat_map act_orders rest = [] ->
               Forall (fun x : Order * Result string =>
                         reduceOnly (fst x) = true /\ In (fst x) (closing_orders p))
                 (flat_map act_orders
                    ([Note LInfo ShutdownClosing;
                      Trading [Do (Log LInfo (CloseStarting p));
                               All (map snd (map (placeOrder env) (closing_orders p)));
                               Do (Log lvl m)]] ++ rest))).
    { intros lvl m rest Hrest. rewrite flat_map_app, Hrest, app_nil_r.
      cbn [flat_map act_orders app]. rewrite app_nil_r, !submissions_cons.
      cbn [event_orders step_orders app submissions flat_map].
      rewrite !app_nil_r.
      apply Forall_forall. intros x Hx.
      pose proof (join_orders_in env (closing_orders p) x Hx) as Hin.
      split; [apply (closing_orders_reduceOnly p (fst x) Hin) | exact Hin]. }
    destruct (Promise_all (first_settled env) (map (placeOrder env) (closing_orders p)))
      as [vs | e].
    + destruct unsubscribe as [[] | e'];
        eexists _, _, _; (split; [reflexivity |]); (split; [apply Hlast |]);
        (split; [rewrite (proj1 (Hacts _)); apply Hclosing; reflexivity |]);
        (split; [reflexivity |]); rewrite (proj2 (Hacts _)); reflexivity.
    + eexists _, _, _. split; [reflexivity |]. split; [apply Hlast |].
      split.
      * rewrite (proj1 (Hacts _)).
        apply (Hclosing LError (CloseFailed e) [Note LError (ShutdownError e)]).
        reflexivity.
      * split; [exact Hp |]. split; [rewrite (proj2 (Hacts _)); reflexivity |].
        right. apply in_or_app. right. apply in_or_app. right.
        apply in_or_app. left. right. right. left. reflexivity.
  - destruct unsubscribe as [[] | e'];
      eexists _, _, _; (split; [reflexivity |]); (split; [apply Hlast |]);
      (split; [rewrite (proj1 (Hacts _)); reflexivity |]);
      (split; [exact Hp |]); rewrite (proj2 (Hacts _)); reflexivity.
Qed.

Lemma shutdown_closes_position_or_logs_failure_instance :
  let env := one_leg_env [] [] deep_book in
  let s := started (Some (opened_position Long)) in
  exists (l' : Lifecycle) (s' : System) (acts : list Act),
    shutdownSystem env (Ok tt) 0 running s = Some (l', s', acts)
    /\ last acts (Exit 1%Z) = Exit 0%Z
    /\ match currentPosition (globals s) with
       | None =>
           flat_map act_orders acts = []
           /\ currentPosition (globals s') = None
           /\ existsb is_unsubscribe acts = true
       | Some p =>
           Forall (fun x : Order * Result string =>
                     reduceOnly (fst x) = true /\ In (fst x) (closing_orders p))
                  (flat_map act_orders acts)
           /\ match Promise_all (first_settled env)
                      (map (placeOrder env) (closing_orders p)) with
              | Ok _ =>
                  currentPosition (globals s') = None
                  /\ existsb is_unsubscribe acts = true
              | Err e =>
                  currentPosition (globals s') = Some p
                  /\ existsb is_unsubscribe acts = false
                  /\ In (Note LError (ShutdownError e)) acts
              end
       end.
Proof.
  exact (shutdown_closes_position_or_logs_failure
           (one_leg_env [] [] deep_book) (Ok tt) 0 running
           (started (Some (opened_position Long)))
           (started (Some (opened_position Long))) [] eq_refl eq_refl).
Defined.

(** X23. A flat bot opens the spread.  When the ledger is null, the
    newest bars give a nonzero signal, both liquidity checks report a
    slippage that is not above 25 basis points, and the venue confirms both
    opening orders within the retry budget, the cycle records the position
    of that signal (10 DRIFT with the signal, 100 KMNO against it), both
    opening orders are confirmed in its trace, it submits no reduce-only
    order, and it completes. *)
Theorem flat_cycle_opens_the_spread
  (env : Env) (g : Globals) (driftCandles kmnoCandles : list CandleData)
  (driftBar kmnoBar : CandleData) (s : Signal) :
  isCycleRunning g = false ->
  currentPosition g = None ->
  fst (fetchCandleData env "DRIFT-PERP") = Ok driftCandles ->
  fst (fetchCandleData env "KMNO-PERP") = Ok kmnoCandles ->
  nth_error driftCandles SIGNAL_LAG_PERIODS = Some driftBar ->
  nth_error kmnoCandles SIGNAL_LAG_PERIODS = Some kmnoBar ->
  signal_of_spread (spread_of (oracleClose driftBar) (oracleClose kmnoBar)) = s ->
  s <> Flat ->
  (forall o, In o (opening_orders s) ->
     exists r, fst (liquidity_of env o) = Ok r
               /\ (estimatedSlippage r >? MAX_SLIPPAGE_BPS / Fin 10000)%num = false) ->
  (forall o, In o (opening_orders s) ->
     (exists mk, market_get (marketMap env) (market o) = Some mk)
     /\ venue_confirms env o) ->
  let out := executeTradingCycle env g in
  currentPosition (fst out) = Some (opened_position s)
  /\ (forall o, In o (opening_orders s) -> confirmed_in (snd out) o)
  /\ Forall (fun x : Order * Result string => reduceOnly (fst x) = false)
            (submissions (snd out))
  /\ In (Do (Log LInfo (CycleCompleted (cycleCount g + 1)))) (snd out).
Proof.
  intros Hidle Hflat Hd Hk Hdb Hkb Hsig Hs Hvalid Hvenue. cbv zeta.
  rewrite (executeTradingCycle_entered env g Hidle). cbn [fst snd].
  pose proof (cycle_try_run env (entered g)) as Hrun. cbv zeta in Hrun.
  rewrite Hd, Hk, Hdb, Hkb, Hsig in Hrun.
  pose proof (fetch_join_no_orders env) as Hfetch.
  (* the open fulfils *)
  destruct (openPosition_verdict env s (entered g) Hs)
    as (rd & rk & pre & Hwhich & Hsub & Hopen).
  cbv zeta in Hopen.
  assert (Hpass : (estimatedSlippage rd >? MAX_SLIPPAGE_BPS / Fin 10000)%num
                  || (estimatedSlippage rk >? MAX_SLIPPAGE_BPS / Fin 10000)%num = false).
  { apply orb_false_iff. split.
    - destruct (Hvalid (mkOrder "DRIFT"
                          (if (signal_num s >? Fin 0)%num then LONG else SHORT)
                          DRIFT_QUANTITY false)) as (r & Hr & Hlow);
        [left; reflexivity |].
      destruct (Hwhich _ r (or_introl eq_refl) Hr) as [(_ & <-) | (K & _)];
        [exact Hlow | discriminate].
    - destruct (Hvalid (mkOrder "KMNO"
                          (if (signal_num s >? Fin 0)%num then SHORT else LONG)
                          KMNO_QUANTITY false)) as (r & Hr & Hlow);
        [right; left; reflexivity |].
      destruct (Hwhich _ r (or_intror (or_introl eq_refl)) Hr) as [(K & _) | (_ & <-)];
        [discriminate | exact Hlow]. }
  rewrite Hpass in Hopen.
  destruct (proj2 (Promise_all_fulfils (option string) (first_settled env)
                     (map (placeOrder env) (opening_orders s)))) as (vs & Hvs).
  { intros leg Hleg. apply in_map_iff in Hleg. destruct Hleg as (o & <- & Ho).
    destruct (Hvenue o Ho) as ((mk & Hmk) & Hconf).
    destruct (placeOrder_confirmed env o mk Hmk Hconf) as (tx & Htx).
    exists (Some tx). exact Htx. }
  rewrite Hvs in Hopen.
  assert (Htrade : trade env s (entered g)
                   = (Ok tt, with_position (entered g) (Some (opened_position s)),
                      Do (Log LInfo (StrategyTransition Flat s))
                      :: pre ++ [opening_join env s; Do (Log LInfo (OpenSucceeded s))])).
  { rewrite trade_run.
    change (currentPosition (entered g)) with (currentPosition g). rewrite Hflat.
    replace (Signal_eqb s Flat) with false by (destruct s; try reflexivity; congruence).
    cbn [negb]. rewrite bind_plog, Hopen. reflexivity. }
  rewrite Htrade in Hrun. cbn [fst snd] in Hrun.
  unfold cycle_run. rewrite Hrun.
  cbn [fst snd app currentPosition with_position cycleCount entered].
  assert (Hjoin : forall o, In o (opening_orders s) ->
             exists tx, In (o, Ok tx) (event_orders (opening_join env s))).
  { intros o Ho. destruct (Hvenue o Ho) as ((mk & Hmk) & Hconf).
    destruct (placeOrder_confirmed env o mk Hmk Hconf) as (tx & Htx).
    apply (join_orders_confirmed env (opening_orders s) o Ho (ex_intro _ (Some tx) Htx)). }
  match goal with
  | |- context [submissions ?T] =>
      assert (Hsubs : submissions T = event_orders (opening_join env s))
  end.
  { rewrite ?app_nil_r, !submissions_cons, Hfetch.
    cbn [event_orders step_orders app].
    rewrite !submissions_app, Hsub, cycle_reports_no_orders, app_nil_r.
    cbn [app]. rewrite submissions_cons.
    cbn [submissions flat_map event_orders step_orders app].
    rewrite !app_nil_r. reflexivity. }
  split; [reflexivity |]. split; [| split].
  - intros o Ho. destruct (Hjoin o Ho) as (tx & Hin). exists tx.
    rewrite Hsubs. exact Hin.
  - rewrite Hsubs. apply Forall_forall. intros x Hx.
    apply (opening_orders_not_reduceOnly s).
    apply (join_orders_in env (opening_orders s) x Hx).
  - rewrite ?app_nil_r. right. right. right. right. apply in_or_app. right.
    unfold cycle_reports. do 3 right. left. reflexivity.
Qed.

Lemma flat_cycle_opens_the_spread_instance :
  let env := calm_env [] drift_bars kmno_bars deep_book in
  let out := executeTradingCycle env (idle None 0) in
  currentPosition (fst out) = Some (opened_position Short)
  /\ (forall o, In o (opening_orders Short) -> confirmed_in (snd out) o)
  /\ Forall (fun x : Order * Result string => reduceOnly (fst x) = false)
            (submissions (snd out))
  /\ In (Do (Log LInfo (CycleCompleted (0 + 1)))) (snd out).
Proof.
  apply (flat_cycle_opens_the_spread
           (calm_env [] drift_bars kmno_bars deep_book) (idle None 0)
           drift_bars kmno_bars (mkCandle (Fin 3)) (mkCandle (Fin 0.2)) Short).
  - reflexivity.
  - reflexivity.
  - vm_compute. reflexivity.
  - vm_compute. reflexivity.
  - reflexivity.
  - reflexivity.
  - vm_compute. reflexivity.
  - discriminate.
  - intros o [<- | [<- | []]]; eexists; split; vm_compute; reflexivity.
  - intros o [<- | [<- | []]]; (split; [eexists; reflexivity |]);
      exists 1%nat, "signature"%string;
      (split; [unfold MAX_RETRIES; lia |]); (split; [reflexivity |]);
      intros j Hj; lia.
Defined.

(* ------------------------------------------------------------------ *)
(** ** Further instances *)

Lemma close_unwinds_what_open_placed_instance :
  let env := calm_env [] [] [] deep_book in
  let legs := map (placeOrder env) (map unwinding (opening_orders Long)) in
  closePosition env (snd (fst (openPosition env Long (idle None 0))))
  = (Ok tt, with_position (idle None 0) None,
     [Do (Log LInfo (CloseStarting (opened_position Long)));
      All (map snd legs);
      Do (Log LInfo CloseSucceeded)]).
Proof.
  apply (proj2 close_unwinds_what_open_placed
           (calm_env [] [] [] deep_book) (calm_env [] [] [] deep_book)
           Long (idle None 0)).
  - discriminate.
  - vm_compute. reflexivity.
  - intros o [<- | [<- | []]]; eexists; vm_compute; reflexivity.
Defined.

Lemma cycle_counts_once_and_lowers_flag_instance :
  let out := executeTradingCycle (calm_env [] drift_bars kmno_bars deep_book)
               (idle None 41) in
  let n := (41 + 1)%Z in
  isCycleRunning (fst out) = false
  /\ cycleCount (fst out) = n
  /\ exists (body : list Event) (final : Step),
       snd out = Do (Log LInfo (CycleStarting n)) :: body ++ [Do final]
       /\ (final = Log LInfo (CycleCompleted n)
           \/ (exists e, final = Log LError (CycleFailed n e))
           \/ (exists a b, final = Log LWarn (CycleInsufficientData a b))).
Proof.
  exact (cycle_counts_once_and_lowers_flag
           (calm_env [] drift_bars kmno_bars deep_book) (idle None 41) eq_refl).
Defined.
